(** * kubernetes-mesos: offer registry, scheduler plugin and executor

    A shallow embedding of [pkg/offers/offers.go], [pkg/scheduler/plugin.go]
    and the executor ([KubernetesExecutor]) together with the properties
    the design document states about them.

    Conventions.
    - Go pointers to mutable objects ([*liveOffer], [*podtask.T], channels)
      are locations in an explicit store, so that two holders of the same
      pointer observe each other's writes.
    - [time.Now()] is an argument [now] (nanoseconds, [Z]); durations are [Z].
    - Calls that leave the process (driver, API client, decline callback)
      are appended to a log kept in the state; what they answer is an
      argument of the operation that makes the call.
    - A Go panic is the outcome [Panics]; a goroutine that cannot proceed
      (a blocking [Pop] on an empty queue) is the outcome [Blocks]. *)

From stdpp Require Import gmap strings list fin_maps.
From Stdlib Require Import ZArith Lia.

Definition loc := nat.

Inductive outcome (A : Type) : Type :=
  | Returns (a : A)
  | Panics
  | Blocks.
Arguments Returns {A} a.
Arguments Panics {A}.
Arguments Blocks {A}.

(** Go [error] values.  The three sentinels are package-level variables of
  package scheduler and are compared by identity; every [fmt.Errorf] and
  every error answered by a collaborator is a value distinct from them. *)
Inductive error :=
  | noSuchPodErr
  | noSuchTaskErr
  | noSuitableOffersErr
  | Errorf (msg : string)
  | foreignErr (code : nat).

Global Instance error_eq_dec : EqDecision error.
Proof. solve_decision. Defined.

(** ** Package queue *)
Module queue.

Inductive ReplacementPolicy := KeepExisting | ReplaceExisting.

Inductive EventType := ADD_EVENT | UPDATE_EVENT | DELETE_EVENT | POP_EVENT.

Global Instance EventType_eq_dec : EqDecision EventType.
Proof. solve_decision. Defined.

Section DelayFIFO.
Context {A : Type} (GetUID : A → string) (Deadline : A → Z).

(** Modelled from the spec: [queue.DelayFIFO.Offer] (package queue is not
    part of the sources at hand).  The queue has unique-key semantics;
    [Offer(x, policy)] returns false if the item was not accepted because
    the policy refused replacement. *)
Definition Offer (x : A) (rp : ReplacementPolicy) (q : gmap string A)
  : bool * gmap string A :=
  match q !! GetUID x, rp with
  | Some _, KeepExisting => (false, q)
  | _, _ => (true, <[GetUID x := x]> q)
  end.

(** Modelled from the spec: [queue.DelayFIFO.Add(x, policy)], an [Offer]
    whose answer is dropped. *)
Definition Add (x : A) (rp : ReplacementPolicy) (q : gmap string A)
  : gmap string A := (Offer x rp q).2.

(** Modelled from the spec: [queue.DelayFIFO.Delete(key)]. *)
Definition Delete (id : string) (q : gmap string A) : gmap string A :=
  delete id q.

(** Modelled from the spec: of two items, the one that is due first. *)
Definition earlier (x y : A) : A :=
  if (Deadline y <? Deadline x)%Z then y else x.

(** Modelled from the spec: the head of the delay queue, the item with
    the earliest deadline. *)
Definition head (q : gmap string A) : option A :=
  foldr (λ kv acc, match acc with
                   | None => Some kv.2
                   | Some y => Some (earlier kv.2 y)
                   end) None (map_to_list q).

(** Modelled from the spec: [queue.DelayFIFO.Pop()], which blocks until
    the head's deadline; [None] stands for a call that is still blocked
    at time [now]. *)
Definition Pop (now : Z) (q : gmap string A) : option (A * gmap string A) :=
  match head q with
  | Some x => if (Deadline x <=? now)%Z
              then Some (x, delete (GetUID x) q) else None
  | None => None
  end.
End DelayFIFO.

End queue.

(** ** Package offers *)
Module offers.

Definition offerListenerMaxAge : Z := 12.
Definition deferredDeclineTtlFactor : Z := 2.

(** The fields of [mesos.Offer] that the two packages read. *)
Record Offer := { Id : string; Hostname : string; SlaveId : string }.

Record liveOffer := {
  lo_Offer : Offer;
  expiration : Z;
  acquired : Z        (* int32: 1 = acquired, 0 = free *)
}.

Record expiredOffer := {
  id : string;
  hostname : string;
  deadline : Z
}.

(** The two implementations of the interface [Perishable]. *)
Inductive Perishable :=
  | PLive (to : liveOffer)
  | PExpired (e : expiredOffer).

(** *** Methods of [*expiredOffer] *)
Definition expiredOffer_HasExpired (e : expiredOffer) : bool := true.
Definition expiredOffer_Details (e : expiredOffer) : option Offer := None.
Definition expiredOffer_Acquire (e : expiredOffer) : bool * expiredOffer :=
  (false, e).
Definition expiredOffer_Release (e : expiredOffer) : expiredOffer := e.

(** *** Methods of [*liveOffer] *)
Definition liveOffer_HasExpired (now : Z) (to : liveOffer) : bool :=
  (expiration to <? now)%Z.
Definition liveOffer_Details (to : liveOffer) : option Offer :=
  Some (lo_Offer to).

(** [atomic.CompareAndSwapInt32(addr, old, new)] as one indivisible step. *)
Definition CompareAndSwapInt32 (v old new : Z) : bool * Z :=
  if (v =? old)%Z then (true, new) else (false, v).

Definition liveOffer_Acquire (to : liveOffer) : bool * liveOffer :=
  let '(swapped, v) := CompareAndSwapInt32 (acquired to) 0 1 in
  (swapped, {| lo_Offer := lo_Offer to; expiration := expiration to;
               acquired := v |}).

Definition liveOffer_Release (to : liveOffer) : liveOffer :=
  let '(_, v) := CompareAndSwapInt32 (acquired to) 1 0 in
  {| lo_Offer := lo_Offer to; expiration := expiration to; acquired := v |}.

(** *** Interface dispatch *)
Definition HasExpired (now : Z) (p : Perishable) : bool :=
  match p with
  | PLive to => liveOffer_HasExpired now to
  | PExpired e => expiredOffer_HasExpired e
  end.

Definition Details (p : Perishable) : option Offer :=
  match p with
  | PLive to => liveOffer_Details to
  | PExpired e => expiredOffer_Details e
  end.

Definition Acquire (p : Perishable) : bool * Perishable :=
  match p with
  | PLive to => let '(b, to') := liveOffer_Acquire to in (b, PLive to')
  | PExpired e => let '(b, e') := expiredOffer_Acquire e in (b, PExpired e')
  end.

Definition Release (p : Perishable) : Perishable :=
  match p with
  | PLive to => PLive (liveOffer_Release to)
  | PExpired e => PExpired (expiredOffer_Release e)
  end.

Definition uid (p : Perishable) : string :=
  match p with
  | PLive to => Id (lo_Offer to)
  | PExpired e => id e
  end.

Definition host (p : Perishable) : string :=
  match p with
  | PLive to => Hostname (lo_Offer to)
  | PExpired e => hostname e
  end.

(** The [liveOffer] that [Add] builds for an offer received at [now]. *)
Definition newLiveOffer (now ttl : Z) (offer : Offer) : liveOffer :=
  {| lo_Offer := offer; expiration := (now + ttl)%Z; acquired := 0 |}.

Definition Expired (offerId hostname : string) (ttl now : Z) : expiredOffer :=
  {| id := offerId; hostname := hostname; deadline := (now + ttl)%Z |}.

(** Calls made on one live offer, in the order in which the atomic
    operations take effect. *)
Inductive call := CallAcquire | CallRelease.

Definition step (to : liveOffer) (c : call) : liveOffer :=
  match c with
  | CallAcquire => (liveOffer_Acquire to).2
  | CallRelease => liveOffer_Release to
  end.

Definition run (cs : list call) (to : liveOffer) : liveOffer :=
  foldl step to cs.

(** The answers of [n] successive [Acquire] calls. *)
Fixpoint acquires (n : nat) (to : liveOffer) : list bool :=
  match n with
  | O => []
  | S n' => let '(b, to') := liveOffer_Acquire to in b :: acquires n' to'
  end.

Definition winners (bs : list bool) : nat := length (filter (λ b, b = true) bs).

(** *** The registry [offerStorage] *)
Section registry.
Context {World : Type}.

(** [type Filter], a function from a [mesos.Offer] pointer to bool.  A
    filter is a closure over the state of whoever registered it; [World] is
    that state, read at the time the filter is called. *)
Definition Filter := World → Offer → bool.

Record offerListener := {
  l_id : string;
  accepts : Filter;
  notify : loc;             (* chan<- struct{} *)
  age : Z;
  l_deadline : Z;
  sawVersion : N            (* uint64 *)
}.

Definition GetUID (l : offerListener) : string := l_id l.
Definition Deadline (l : offerListener) : Z := l_deadline l.

(** The closure that [Delete] hands to [time.AfterFunc]: it captures the
    offer object and its id. *)
Record deferred := {
  fireAt : Z;
  d_offer : loc;
  d_offerId : string
}.

Inductive chanState := ChanOpen | ChanClosed.

Record offerStorage := {
  (* RegistryConfig *)
  TTL : Z;
  LingerTTL : Z;
  ListenerDelay : Z;
  (* the Perishable objects, by address *)
  objects : gmap loc Perishable;
  (* cache.FIFO, keyed by uid() *)
  offers : gmap string loc;
  (* queue.DelayFIFO of *offerListener *)
  listeners : gmap string offerListener;
  (* queue.DelayQueue *)
  delayed : list loc;
  (* functions scheduled with time.AfterFunc *)
  timers : list deferred;
  (* calls of the DeclineOffer callback, oldest first *)
  declined : list string;
  (* channels made by Listen, and the close() calls on them *)
  chans : gmap loc chanState;
  closes : list loc
}.

Definition with_objects (f : gmap loc Perishable → gmap loc Perishable)
    (s : offerStorage) : offerStorage :=
  {| TTL := TTL s; LingerTTL := LingerTTL s; ListenerDelay := ListenerDelay s;
     objects := f (objects s); offers := offers s; listeners := listeners s;
     delayed := delayed s; timers := timers s; declined := declined s;
     chans := chans s; closes := closes s |}.

Definition with_offers (f : gmap string loc → gmap string loc)
    (s : offerStorage) : offerStorage :=
  {| TTL := TTL s; LingerTTL := LingerTTL s; ListenerDelay := ListenerDelay s;
     objects := objects s; offers := f (offers s); listeners := listeners s;
     delayed := delayed s; timers := timers s; declined := declined s;
     chans := chans s; closes := closes s |}.

Definition with_listeners
    (f : gmap string offerListener → gmap string offerListener)
    (s : offerStorage) : offerStorage :=
  {| TTL := TTL s; LingerTTL := LingerTTL s; ListenerDelay := ListenerDelay s;
     objects := objects s; offers := offers s; listeners := f (listeners s);
     delayed := delayed s; timers := timers s; declined := declined s;
     chans := chans s; closes := closes s |}.

Definition with_delayed (f : list loc → list loc)
    (s : offerStorage) : offerStorage :=
  {| TTL := TTL s; LingerTTL := LingerTTL s; ListenerDelay := ListenerDelay s;
     objects := objects s; offers := offers s; listeners := listeners s;
     delayed := f (delayed s); timers := timers s; declined := declined s;
     chans := chans s; closes := closes s |}.

Definition with_timers (f : list deferred → list deferred)
    (s : offerStorage) : offerStorage :=
  {| TTL := TTL s; LingerTTL := LingerTTL s; ListenerDelay := ListenerDelay s;
     objects := objects s; offers := offers s; listeners := listeners s;
     delayed := delayed s; timers := f (timers s); declined := declined s;
     chans := chans s; closes := closes s |}.

Definition with_declined (f : list string → list string)
    (s : offerStorage) : offerStorage :=
  {| TTL := TTL s; LingerTTL := LingerTTL s; ListenerDelay := ListenerDelay s;
     objects := objects s; offers := offers s; listeners := listeners s;
     delayed := delayed s; timers := timers s; declined := f (declined s);
     chans := chans s; closes := closes s |}.

Definition with_chans (f : gmap loc chanState → gmap loc chanState)
    (g : list loc → list loc) (s : offerStorage) : offerStorage :=
  {| TTL := TTL s; LingerTTL := LingerTTL s; ListenerDelay := ListenerDelay s;
     objects := objects s; offers := offers s; listeners := listeners s;
     delayed := delayed s; timers := timers s; declined := declined s;
     chans := f (chans s); closes := g (closes s) |}.

(** [CreateRegistry(c)] *)
Definition CreateRegistry (ttl lingerTTL listenerDelay : Z) : offerStorage :=
  {| TTL := ttl; LingerTTL := lingerTTL; ListenerDelay := listenerDelay;
     objects := ∅; offers := ∅; listeners := ∅; delayed := [];
     timers := []; declined := []; chans := ∅; closes := [] |}.

(** Allocation of a Perishable object ([&liveOffer{...}], [&expiredOffer{...}]). *)
Definition new (o : Perishable) (s : offerStorage) : loc * offerStorage :=
  let p := fresh (dom (objects s)) in (p, with_objects <[p := o]> s).

(** What the code hands to [cache.FIFO.Delete(obj interface{})]: a
    [Perishable], or a string (an offer id). *)
Inductive fifoArg :=
  | ArgPerishable (p : loc)
  | ArgString (id : string).

(** The key function that [CreateRegistry] gives to [cache.NewFIFO]: the
    uid of a [Perishable], an error for anything else. *)
Definition keyFunc (s : offerStorage) (v : fifoArg) : error + string :=
  match v with
  | ArgPerishable p =>
      match objects s !! p with
      | Some o => inr (uid o)
      | None => inl (Errorf "expected perishable offer")
      end
  | ArgString _ => inl (Errorf "expected perishable offer")
  end.

(** [s.offers.Delete(obj)] of the [cache.FIFO] of the Kubernetes client
    library: the entry is removed under the key that the key function
    computes for [obj]; when the key function answers an error, so does
    Delete, and nothing is removed.  The callers drop the error. *)
Definition fifo_Delete (v : fifoArg) (s : offerStorage) : offerStorage :=
  match keyFunc s v with
  | inr key => with_offers (delete key) s
  | inl _ => s
  end.

(** Method calls through a [Perishable] interface value held at [p]. *)
Definition offer_Details (s : offerStorage) (p : loc) : option Offer :=
  o ← objects s !! p; Details o.

Definition offer_HasExpired (now : Z) (s : offerStorage) (p : loc) : bool :=
  match objects s !! p with
  | Some o => HasExpired now o
  | None => true
  end.

Definition offer_host (s : offerStorage) (p : loc) : string :=
  match objects s !! p with
  | Some o => host o
  | None => ""
  end.

Definition offer_Acquire (p : loc) (s : offerStorage) : bool * offerStorage :=
  match objects s !! p with
  | Some o => let '(b, o') := Acquire o in (b, with_objects <[p := o']> s)
  | None => (false, s)
  end.

Definition offer_Release (p : loc) (s : offerStorage) : offerStorage :=
  with_objects (alter Release p) s.

(** The configured [DeclineOffer] callback; whether it answers an error
    only changes what is logged and counted. *)
Definition DeclineOffer (offerId : string) (s : offerStorage) : offerStorage :=
  with_declined (λ d, d ++ [offerId]) s.

(** [func (s *offerStorage) Add(offers []*mesos.Offer)] *)
Definition Add (now : Z) (offs : list Offer) (s : offerStorage) : offerStorage :=
  foldl (λ s offer,
           let '(timed, s1) := new (PLive (newLiveOffer now (TTL s) offer)) s in
           with_delayed (λ d, d ++ [timed])
             (with_offers <[Id offer := timed]> s1))
        s offs.

(** [func (s *offerStorage) Get(id string) (Perishable, bool)] *)
Definition Get (s : offerStorage) (id : string) : option loc := offers s !! id.

(** [func (s *offerStorage) expireOffer(offer Perishable)] *)
Definition expireOffer (now : Z) (offer : loc) (s : offerStorage) : offerStorage :=
  match offer_Details s offer with
  | Some details =>
      let offerId := Id details in
      if (0 <? LingerTTL s)%Z then
        let '(expired, s1) :=
          new (PExpired (Expired offerId (offer_host s offer) (LingerTTL s) now)) s in
        with_delayed (λ d, d ++ [expired])
          (with_offers <[offerId := expired]> s1)
      else
        fifo_Delete (ArgString offerId) s
  | None => s
  end.

(** The function value passed to [time.AfterFunc] in [Delete], run when
    its timer fires. *)
Definition deferredDecline (d : deferred) (s : offerStorage) : offerStorage :=
  let '(won, s1) := offer_Acquire (d_offer d) s in
  if won then DeclineOffer (d_offerId d) s1 else s1.

(** [func (s *offerStorage) Delete(offerId string)] *)
Definition Delete (now : Z) (offerId : string) (s : offerStorage) : offerStorage :=
  match Get s offerId with
  | Some offer =>
      let '(notYetClaimed, s1) := offer_Acquire offer s in
      let s2 :=
        match offer_Details s1 offer with
        | Some _ =>
            if notYetClaimed then DeclineOffer offerId s1
            else with_timers
                   (λ t, t ++ [{| fireAt := (now + deferredDeclineTtlFactor * TTL s1)%Z;
                                  d_offer := offer; d_offerId := offerId |}]) s1
        | None => s1
        end in
      expireOffer now offer s2
  | None => s
  end.

(** [func (s *offerStorage) invalidateOne(offerId string)] *)
Definition invalidateOne (now : Z) (offerId : string) (s : offerStorage)
  : offerStorage :=
  match Get s offerId with
  | Some offer => expireOffer now offer (offer_Acquire offer s).2
  | None => s
  end.

(** [func (s *offerStorage) Invalidate(offerId string)]; the loop runs over
    the snapshot that [s.offers.List()] returned. *)
Definition Invalidate (now : Z) (offerId : string) (s : offerStorage)
  : offerStorage :=
  if decide (offerId ≠ "") then invalidateOne now offerId s
  else foldl (λ s offer, expireOffer now offer (offer_Acquire offer s).2)
             s (map_to_list (offers s)).*2.

(** [func (s *offerStorage) Listen(id string, f Filter) <-chan struct{}];
    a nil filter is [None], and so is the nil channel. *)
Definition Listen (now : Z) (id : string) (f : option Filter) (s : offerStorage)
  : option loc * offerStorage :=
  match f with
  | None => (None, s)
  | Some f =>
      let ch := fresh (dom (chans s)) in
      let s1 := with_chans <[ch := ChanOpen]> (λ c, c) s in
      let listen := {| l_id := id; accepts := f; notify := ch; age := 0;
                       l_deadline := (now + ListenerDelay s)%Z;
                       sawVersion := 0 |} in
      (Some ch, with_listeners (λ q, (queue.Offer GetUID listen queue.ReplaceExisting q).2) s1)
  end.

(** [close(ch)]: closing a closed channel panics. *)
Definition close (ch : loc) (s : offerStorage) : outcome offerStorage :=
  match chans s !! ch with
  | Some ChanOpen =>
      Returns (with_chans <[ch := ChanClosed]> (λ c, c ++ [ch]) s)
  | _ => Panics
  end.

(** The loop [for id := range offerIds] of [notifyListeners]; [ids] lists
    the set in the order in which the range statement visits it.
    Answers whether the loop reached [close(listener.notify)]. *)
Fixpoint findAcceptable (w : World) (now : Z) (s : offerStorage)
    (listener : offerListener) (ids : list string) : bool :=
  match ids with
  | [] => false
  | id :: rest =>
      match Get s id with
      | None => findAcceptable w now s listener rest
      | Some offer =>
          if offer_HasExpired now s offer
          then findAcceptable w now s listener rest
          else match offer_Details s offer with
               | Some details =>
                   if accepts listener w details then true
                   else findAcceptable w now s listener rest
               | None => findAcceptable w now s listener rest
               end
      end
  end.

Definition with_sawVersion (v : N) (l : offerListener) : offerListener :=
  {| l_id := l_id l; accepts := accepts l; notify := notify l; age := age l;
     l_deadline := l_deadline l; sawVersion := v |}.

Definition with_deadline (d : Z) (l : offerListener) : offerListener :=
  {| l_id := l_id l; accepts := accepts l; notify := notify l; age := age l;
     l_deadline := d; sawVersion := sawVersion l |}.

Definition with_age (a : Z) (l : offerListener) : offerListener :=
  {| l_id := l_id l; accepts := accepts l; notify := notify l; age := a;
     l_deadline := l_deadline l; sawVersion := sawVersion l |}.

(** [s.listeners.Offer(listener, queue.KeepExisting)] *)
Definition requeue (listener : offerListener) (s : offerStorage) : offerStorage :=
  with_listeners (λ q, (queue.Offer GetUID listener queue.KeepExisting q).2) s.

(** [notifyListeners] after [s.nextListener()] has returned [listener];
    [ids()] answered [(offerIds, version)]. *)
Definition notifyListener (w : World) (now : Z) (offerIds : list string)
    (version : N) (listener : offerListener) (s : offerStorage)
  : outcome offerStorage :=
  if decide (sawVersion listener = version) then
    let listener := with_deadline (now + ListenerDelay s)%Z listener in
    Returns (requeue listener s)
  else
    let listener := with_sawVersion version listener in
    if findAcceptable w now s listener offerIds then
      close (notify listener) s
    else
      let listener := with_age (age listener + 1)%Z listener in
      if (age listener <? offerListenerMaxAge)%Z then
        let listener := with_deadline (now + ListenerDelay s)%Z listener in
        Returns (requeue listener s)
      else Returns s.

(** [func (s *offerStorage) notifyListeners(ids func() (util.StringSet, uint64))] *)
Definition notifyListeners (w : World) (now : Z) (offerIds : list string)
    (version : N) (s : offerStorage) : outcome offerStorage :=
  match queue.Pop GetUID Deadline now (listeners s) with
  | None => Blocks
  | Some (listener, rest) =>
      notifyListener w now offerIds version listener
        (with_listeners (λ _, rest) s)
  end.

(** What the registry maintains about its listeners: each is queued under
  its own id and holds an open channel that no other queued listener
  holds, and the channels closed so far are closed once each. *)
Definition listeners_ok (s : offerStorage) : Prop :=
  (∀ k l, listeners s !! k = Some l →
          l_id l = k ∧ chans s !! notify l = Some ChanOpen)
  ∧ (∀ k1 k2 l1 l2, listeners s !! k1 = Some l1 → listeners s !! k2 = Some l2 →
                    notify l1 = notify l2 → k1 = k2)
  ∧ NoDup (closes s)
  ∧ (∀ ch, ch ∈ closes s → chans s !! ch = Some ChanClosed).

(** [cache.FIFO] files every object under the key that its key function
  computes, which [CreateRegistry] sets to [uid()]. *)
Definition keyed_by_uid (s : offerStorage) : Prop :=
  ∀ id p, offers s !! id = Some p → ∃ o, objects s !! p = Some o ∧ uid o = id.

(** Entries of the storage during [Invalidate("")]: each is expired
  already, or is a live offer that still waits in [ps] for its turn. *)
Definition expired_but (ps : list loc) (s : offerStorage) : Prop :=
  ∀ id q, offers s !! id = Some q →
    (∃ x, objects s !! q = Some (PExpired x))
    ∨ (q ∈ ps ∧ ∃ to, objects s !! q = Some (PLive to) ∧ Id (lo_Offer to) = id).

(** An offer that nobody can acquire: it has expired, or it is claimed. *)
Definition blocked (s : offerStorage) (q : loc) : Prop :=
  ∃ o, objects s !! q = Some o ∧ (Acquire o).1 = false.

(** Entries of the storage during [Invalidate("")]: each is blocked, or is
  a live offer that still waits in [ps] for its turn. *)
Definition blocked_but (ps : list loc) (s : offerStorage) : Prop :=
  ∀ id q, offers s !! id = Some q →
    blocked s q ∨ (q ∈ ps ∧ ∃ to, objects s !! q = Some (PLive to)).

(** Two states of a registry with the same listeners and channels. *)
Definition same_listeners (s s' : offerStorage) : Prop :=
  listeners s' = listeners s ∧ chans s' = chans s ∧ closes s' = closes s.

(** Steps of a registry as its users and its notification loop drive it. *)
Inductive action :=
  | ActAdd (now : Z) (offs : list Offer)
  | ActDelete (now : Z) (offerId : string)
  | ActInvalidate (now : Z) (offerId : string)
  | ActListen (now : Z) (id : string) (f : option Filter)
  | ActNotify (w : World) (now : Z) (offerIds : list string) (version : N).

Definition act (a : action) (s : offerStorage) : outcome offerStorage :=
  match a with
  | ActAdd now offs => Returns (Add now offs s)
  | ActDelete now offerId => Returns (Delete now offerId s)
  | ActInvalidate now offerId => Returns (Invalidate now offerId s)
  | ActListen now id f => Returns (Listen now id f s).2
  | ActNotify w now ids v =>
      match notifyListeners w now ids v s with
      | Blocks => Returns s      (* the loop waits; nothing has changed *)
      | r => r
      end
  end.

Fixpoint acts (l : list action) (s : offerStorage) : outcome offerStorage :=
  match l with
  | [] => Returns s
  | a :: l' => match act a s with
               | Returns s' => acts l' s'
               | r => r
               end
  end.
(** [type Walker func(offer Perishable) (stop bool, err error)]; a walker may
    call methods of the offer it is handed, so it takes and returns the
    storage. *)
Definition Walker := loc → offerStorage → (bool * option error) * offerStorage.

(** The loop of [Walk] over the snapshot that [s.offers.List()] returned;
    [visited] logs the offers that were passed to the walker. *)
Fixpoint walk (now : Z) (w : Walker) (snapshot : list loc) (s : offerStorage)
    (visited : list loc) : option error * offerStorage * list loc :=
  match snapshot with
  | [] => (None, s, visited)
  | offer :: rest =>
      if offer_HasExpired now s offer then walk now w rest s visited
      else
        let '((stop, err), s1) := w offer s in
        match err with
        | Some e => (Some e, s1, visited ++ [offer])
        | None =>
            if stop then (None, s1, visited ++ [offer])
            else walk now w rest s1 (visited ++ [offer])
        end
  end.

(** [func (s *offerStorage) Walk(w Walker) error] *)
Definition Walk (now : Z) (w : Walker) (s : offerStorage)
  : option error * offerStorage * list loc :=
  walk now w (map_to_list (offers s)).*2 s [].

(** [GetDelay()] of [*liveOffer] and of [*expiredOffer]. *)
Definition GetDelay (now : Z) (p : Perishable) : Z :=
  match p with
  | PLive to => (expiration to - now)%Z
  | PExpired e => (deadline e - now)%Z
  end.

(** [addTo(q)] of both implementations: [q.Add(offer)]. *)
Definition offer_addTo (offer : loc) (s : offerStorage) : offerStorage :=
  with_delayed (λ d, d ++ [offer]) s.

(** [age(s)]: an expired offer calls [s.offers.Delete(e.id)], a live offer
    calls [s.Delete(to.Id.GetValue())]. *)
Definition offer_age (now : Z) (offer : loc) (s : offerStorage) : offerStorage :=
  match objects s !! offer with
  | Some (PExpired e) => fifo_Delete (ArgString (id e)) s
  | Some (PLive to) => Delete now (uid (PLive to)) s
  | None => s
  end.

(** [ageOffers] after [s.delayed.Pop()] has returned [offer]. *)
Definition ageOffer (now : Z) (offer : loc) (s : offerStorage) : offerStorage :=
  match offer_Details s offer with
  | Some _ =>
      if negb (offer_HasExpired now s offer) then offer_addTo offer s
      else offer_age now offer s
  | None => offer_age now offer s
  end.

(** The ids that the [refill] function of [Init] collects: [uid()] of every
    object in the FIFO. *)
Definition refill (s : offerStorage) : gset string :=
  list_to_set (omap (λ p, uid <$> objects s !! p) (map_to_list (offers s)).*2).

End registry.

Arguments offerListener : clear implicits.
Arguments offerStorage : clear implicits.
Arguments action : clear implicits.

(** [stringsCache]; a nil [util.StringSet] is [None]. *)
Record stringsCache := {
  expiresAt : Z;
  cached : option (gset string);
  ttl : Z;
  version : N               (* uint64 *)
}.

(** [func (c *stringsCache) Strings() (util.StringSet, uint64)]; [refilled]
    is what [c.refill()] answers, [reflect.DeepEqual] on string sets tells a
    nil map from an empty one. *)
Definition Strings (now : Z) (refilled : option (gset string)) (c : stringsCache)
  : (option (gset string) * N) * stringsCache :=
  if (expiresAt c <? now)%Z then
    let old := cached c in
    let v := if decide (old = refilled) then version c
             else ((version c + 1) mod 2 ^ 64)%N in
    ((refilled, v),
     {| expiresAt := (now + ttl c)%Z; cached := refilled; ttl := ttl c; version := v |})
  else ((cached c, version c), c).

End offers.

(** ** Package podtask *)
Module podtask.

Inductive StateType := StatePending | StateRunning | StateFinished | StateUnknown.

Inductive FlagType := Launched | Bound | Deleted.

Global Instance FlagType_eq_dec : EqDecision FlagType.
Proof. solve_decision. Defined.

Definition FlagType_to_nat (f : FlagType) : nat :=
  match f with Launched => 0 | Bound => 1 | Deleted => 2 end.

Definition FlagType_of_nat (n : nat) : option FlagType :=
  match n with 0 => Some Launched | 1 => Some Bound | 2 => Some Deleted | _ => None end.

Global Instance FlagType_countable : Countable FlagType.
Proof.
  apply (inj_countable FlagType_to_nat FlagType_of_nat). by intros [].
Defined.

(** The fields of [api.Pod] that the scheduler reads and writes. *)
Record Pod := {
  Name : string;
  Namespace : string;
  UID : string;
  Host : string         (* Status.Host *)
}.

Definition with_Host (h : string) (pod : Pod) : Pod :=
  {| Name := Name pod; Namespace := Namespace pod; UID := UID pod; Host := h |}.

(** [mesos.TaskInfo] *)
Record TaskInfo := {
  ti_SlaveId : string;
  ti_Data : option string
}.

Record PortMapping := {
  ContainerIdx : nat;
  PortIdx : nat;
  OfferPort : Z
}.

(** Modelled from the spec: [podtask.T], the scheduler-side record
    bridging pod and resource manager (taskId, podKey, pod, offer?,
    taskInfo?, flags, state, ports); the type is declared outside the
    sources at hand.  [Offer] is the [offers.Perishable] the task holds,
    by address. *)
Record T := {
  ID : string;
  podKey : string;
  Pod_ : Pod;
  Offer : option loc;
  TaskInfo_ : option TaskInfo;
  Ports : list PortMapping;
  State : StateType;
  Flags : gset FlagType
}.

(** Modelled from the spec: [T.Has(flag)], membership in the task's flag set. *)
Definition Has (f : FlagType) (t : T) : bool := bool_decide (f ∈ Flags t).

(** Modelled from the spec: [T.Set(flag)], which adds a flag to the set. *)
Definition Set_ (f : FlagType) (t : T) : T :=
  {| ID := ID t; podKey := podKey t; Pod_ := Pod_ t; Offer := Offer t;
     TaskInfo_ := TaskInfo_ t; Ports := Ports t; State := State t;
     Flags := {[f]} ∪ Flags t |}.

(** Modelled from the spec: [T.HasAcceptedOffer()]; a task is
    pending+accepted once placement has filled its task info. *)
Definition HasAcceptedOffer (t : T) : bool := bool_decide (is_Some (TaskInfo_ t)).

(** Modelled from the spec: [T.ClearTaskInfo()], which drops the offer and
    the task info that placement filled in. *)
Definition ClearTaskInfo (t : T) : T :=
  {| ID := ID t; podKey := podKey t; Pod_ := Pod_ t; Offer := None;
     TaskInfo_ := None; Ports := []; State := State t; Flags := Flags t |}.

(** Modelled from the spec: [T.FillFromDetails(details)], which fills the
    task info from the accepted offer. *)
Definition FillFromDetails (details : offers.Offer) (t : T) : T :=
  {| ID := ID t; podKey := podKey t; Pod_ := Pod_ t; Offer := Offer t;
     TaskInfo_ := Some {| ti_SlaveId := offers.SlaveId details; ti_Data := None |};
     Ports := Ports t; State := State t; Flags := Flags t |}.

Definition with_Offer (o : option loc) (t : T) : T :=
  {| ID := ID t; podKey := podKey t; Pod_ := Pod_ t; Offer := o;
     TaskInfo_ := TaskInfo_ t; Ports := Ports t; State := State t;
     Flags := Flags t |}.

Definition with_Pod (f : Pod → Pod) (t : T) : T :=
  {| ID := ID t; podKey := podKey t; Pod_ := f (Pod_ t); Offer := Offer t;
     TaskInfo_ := TaskInfo_ t; Ports := Ports t; State := State t;
     Flags := Flags t |}.

Definition with_Data (d : option string) (t : T) : T :=
  {| ID := ID t; podKey := podKey t; Pod_ := Pod_ t; Offer := Offer t;
     TaskInfo_ := (λ ti, {| ti_SlaveId := ti_SlaveId ti; ti_Data := d |}) <$> TaskInfo_ t;
     Ports := Ports t; State := State t; Flags := Flags t |}.

(** Modelled from the spec: [podtask.New], a fresh Pending task for a pod,
    without offer, task info or flags. *)
Definition New (taskId key : string) (pod : Pod) : T :=
  {| ID := taskId; podKey := key; Pod_ := pod; Offer := None; TaskInfo_ := None;
     Ports := []; State := StatePending; Flags := ∅ |}.

(** Modelled from the spec: the pod-task registry, a mapping keyed by
    taskId to task records with an auxiliary index podKey to taskId.
    The records are [*podtask.T]: [taskObjects] holds them by address. *)
Record Registry := {
  taskObjects : gmap loc T;
  taskRegistry : gmap string loc;
  podToTask : gmap string string
}.

(** Modelled from the spec: [Registry.TaskForPod(podKey)]. *)
Definition TaskForPod (r : Registry) (key : string) : option string :=
  podToTask r !! key.

(** Modelled from the spec: [Registry.Get(taskId)]; the answer [(task,
    state)] of the Go method is [(p, State t)] for [Some (p, t)] and
    [(nil, StateUnknown)] for [None]. *)
Definition Get (r : Registry) (taskId : string) : option (loc * T) :=
  p ← taskRegistry r !! taskId; t ← taskObjects r !! p; Some (p, t).

(** A write through the pointer [p]. *)
Definition update (p : loc) (f : T → T) (r : Registry) : Registry :=
  {| taskObjects := alter f p (taskObjects r); taskRegistry := taskRegistry r;
     podToTask := podToTask r |}.

(** Allocation of a task record. *)
Definition alloc (t : T) (r : Registry) : loc * Registry :=
  let p := fresh (dom (taskObjects r)) in
  (p, {| taskObjects := <[p := t]> (taskObjects r);
         taskRegistry := taskRegistry r; podToTask := podToTask r |}).

(** Modelled from the spec: [Registry.Register(task, err)], which records
    the task under its id and its pod key unless [err] is set. *)
Definition Register (p : loc) (err : option error) (r : Registry) : Registry :=
  match err, taskObjects r !! p with
  | None, Some t =>
      {| taskObjects := taskObjects r;
         taskRegistry := <[ID t := p]> (taskRegistry r);
         podToTask := <[podKey t := ID t]> (podToTask r) |}
  | _, _ => r
  end.

(** Modelled from the spec: [Registry.Unregister(task)]. *)
Definition Unregister (p : loc) (r : Registry) : Registry :=
  match taskObjects r !! p with
  | Some t =>
      {| taskObjects := taskObjects r;
         taskRegistry := delete (ID t) (taskRegistry r);
         podToTask := delete (podKey t) (podToTask r) |}
  | None => r
  end.

End podtask.

(** ** Package scheduler: the plugin *)
Module scheduler.
Import podtask.

Record Slave := { HostName : string }.

(** [scheduler.Pod], the envelope that the delay queue holds; [None] is a
    nil pointer, and a nil [queue.BreakChan]. *)
Record QueuedPod := {
  qp_Pod : Pod;
  qp_deadline : option Z;
  qp_delay : option Z;
  qp_notify : option loc
}.

(** [api.Binding] *)
Record Binding := {
  b_Namespace : string;
  PodID : string;
  b_Host : string
}.

Definition EnvVar : Type := string * string.

Record Container := {
  Env : list EnvVar;
  HostPorts : list Z       (* Ports[i].HostPort *)
}.

(** [api.BoundPod] *)
Record BoundPod := {
  bp_Name : string;
  bp_SelfLink : string;
  bp_Annotations : gmap string string;
  bp_Containers : list Container
}.

(** What the collaborators answer during one call of the plugin: the API
    client, the conversion scheme, the YAML encoder and the driver. *)
Record answers := {
  pods_Get : string → string → error + Pod;
  services_List : string → error + list EnvVar;
  scheme_Convert : Pod → error + BoundPod;
  yaml_Marshal : BoundPod → error + string;
  driver_LaunchTasks : list string → list TaskInfo → option error;
  driver_KillTask : string → option error
}.

(** The parts of the scheduler that are declared outside the sources at
    hand and that the plugin only calls: the pod-update store, the
    back-off table, the key functions, the acceptance predicate of a task
    and the placement function stored in [scheduleFunc]. *)
Class Collaborators := {
  Updates : Type;
  Poll : Updates → string → queue.EventType → bool * Updates;
  Backoff : Type;
  gc : Z → Backoff → Backoff;
  getBackoff : Z → Backoff → string → Z * Backoff;
  MakePodKey : string → string → error + string;
  MetaNamespaceKeyFunc : Pod → error + string;
  QueuedPod_GetUID : QueuedPod → string;
  BindingHostKey : string;
  AcceptOffer : T → offers.Offer → bool;
  SaveRecoveryInfo : T → gmap string string → gmap string string;
  scheduleFunc : offers.offerStorage Registry → gmap string Slave → Registry → loc
                 → (error + loc) * offers.offerStorage Registry
}.

Section plugin.
Context `{Collaborators}.

Record KubernetesScheduler := {
  tasks : Registry;
  offerReg : offers.offerStorage Registry;
  slaves : gmap string Slave;
  podQueue : gmap string QueuedPod;
  podUpdates : Updates;
  backoff : Backoff;
  (* calls of the placement function, by task *)
  placed : list loc;
  (* calls of driver.LaunchTasks and driver.KillTask *)
  launched : list (list string * list TaskInfo);
  killed : list string
}.

Definition with_tasks (f : Registry → Registry) (k : KubernetesScheduler) :=
  {| tasks := f (tasks k); offerReg := offerReg k; slaves := slaves k;
     podQueue := podQueue k; podUpdates := podUpdates k; backoff := backoff k;
     placed := placed k; launched := launched k; killed := killed k |}.

Definition with_offerReg
    (f : offers.offerStorage Registry → offers.offerStorage Registry)
    (k : KubernetesScheduler) :=
  {| tasks := tasks k; offerReg := f (offerReg k); slaves := slaves k;
     podQueue := podQueue k; podUpdates := podUpdates k; backoff := backoff k;
     placed := placed k; launched := launched k; killed := killed k |}.

Definition with_podQueue (f : gmap string QueuedPod → gmap string QueuedPod)
    (k : KubernetesScheduler) :=
  {| tasks := tasks k; offerReg := offerReg k; slaves := slaves k;
     podQueue := f (podQueue k); podUpdates := podUpdates k; backoff := backoff k;
     placed := placed k; launched := launched k; killed := killed k |}.

Definition with_podUpdates (u : Updates) (k : KubernetesScheduler) :=
  {| tasks := tasks k; offerReg := offerReg k; slaves := slaves k;
     podQueue := podQueue k; podUpdates := u; backoff := backoff k;
     placed := placed k; launched := launched k; killed := killed k |}.

Definition with_backoff (b : Backoff) (k : KubernetesScheduler) :=
  {| tasks := tasks k; offerReg := offerReg k; slaves := slaves k;
     podQueue := podQueue k; podUpdates := podUpdates k; backoff := b;
     placed := placed k; launched := launched k; killed := killed k |}.

Definition with_placed (f : list loc → list loc) (k : KubernetesScheduler) :=
  {| tasks := tasks k; offerReg := offerReg k; slaves := slaves k;
     podQueue := podQueue k; podUpdates := podUpdates k; backoff := backoff k;
     placed := f (placed k); launched := launched k; killed := killed k |}.

Definition with_launched
    (f : list (list string * list TaskInfo) → list (list string * list TaskInfo))
    (k : KubernetesScheduler) :=
  {| tasks := tasks k; offerReg := offerReg k; slaves := slaves k;
     podQueue := podQueue k; podUpdates := podUpdates k; backoff := backoff k;
     placed := placed k; launched := f (launched k); killed := killed k |}.

Definition with_killed (f : list string → list string) (k : KubernetesScheduler) :=
  {| tasks := tasks k; offerReg := offerReg k; slaves := slaves k;
     podQueue := podQueue k; podUpdates := podUpdates k; backoff := backoff k;
     placed := placed k; launched := launched k; killed := f (killed k) |}.

(** *** [k8smScheduler], the implementation of [SchedulerInterface] *)
Definition taskForPod (k : KubernetesScheduler) (podID : string) : option string :=
  TaskForPod (tasks k) podID.

Definition getTask (k : KubernetesScheduler) (taskId : string) : option (loc * T) :=
  Get (tasks k) taskId.

Definition createPodTask (taskId : string) (ns : string) (pod : Pod)
    (k : KubernetesScheduler) : (option loc * option error) * KubernetesScheduler :=
  match MakePodKey ns (Name pod) with
  | inl err => ((None, Some err), k)
  | inr key =>
      let '(p, r) := alloc (New taskId key pod) (tasks k) in
      ((Some p, None), with_tasks (λ _, r) k)
  end.

Definition registerPodTask (task : option loc) (err : option error)
    (k : KubernetesScheduler) : (option loc * option error) * KubernetesScheduler :=
  match task with
  | Some p => ((task, err), with_tasks (Register p err) k)
  | None => ((task, err), k)
  end.

Definition unregisterPodTask (p : loc) (k : KubernetesScheduler) :=
  with_tasks (Unregister p) k.

Definition slaveFor (k : KubernetesScheduler) (id : string) : option Slave :=
  slaves k !! id.

Definition killTask (a : answers) (taskId : string) (k : KubernetesScheduler)
  : option error * KubernetesScheduler :=
  (driver_KillTask a taskId, with_killed (λ l, l ++ [taskId]) k).

(** [task.Offer.Release()]; a nil [task.Offer] panics. *)
Definition releaseOffer (task : T) (k : KubernetesScheduler)
  : outcome KubernetesScheduler :=
  match Offer task with
  | Some o => Returns (with_offerReg (offers.offer_Release o) k)
  | None => Panics
  end.

Definition launchTask (a : answers) (p : loc) (k : KubernetesScheduler)
  : outcome (option error * KubernetesScheduler) :=
  match taskObjects (tasks k) !! p with
  | Some task =>
      match TaskInfo_ task, Offer task ≫= offers.offer_Details (offerReg k) with
      | Some taskInfo, Some details =>
          let taskList := [taskInfo] in
          let offerIds := [offers.Id details] in
          Returns (driver_LaunchTasks a offerIds taskList,
                   with_launched (λ l, l ++ [(offerIds, taskList)]) k)
      | _, _ => Panics
      end
  | None => Panics
  end.

(** Modelled from the spec: [T.GetOfferId()], the id of the offer the task
    holds, or the empty string when it holds none. *)
Definition GetOfferId (k : KubernetesScheduler) (task : T) : string :=
  match Offer task ≫= (λ o, offers.objects (offerReg k) !! o) with
  | Some o => offers.uid o
  | None => ""
  end.

(** *** [binder] *)

(** The loop over [task.Ports] in [prepareTaskForLaunch]; an index out of
    range panics. *)
Fixpoint setHostPorts (ports : list PortMapping) (cs : list Container)
  : option (list Container) :=
  match ports with
  | [] => Some cs
  | entry :: rest =>
      match cs !! ContainerIdx entry with
      | Some c =>
          if decide (PortIdx entry < length (HostPorts c)) then
            setHostPorts rest
              (<[ContainerIdx entry :=
                   {| Env := Env c;
                      HostPorts := <[PortIdx entry := OfferPort entry]> (HostPorts c) |}]> cs)
          else None
      | None => None
      end
  end.

Definition prepareTaskForLaunch (a : answers) (ns machine : string) (p : loc)
    (offerId : string) (k : KubernetesScheduler)
  : outcome (option error * KubernetesScheduler) :=
  match taskObjects (tasks k) !! p with
  | None => Panics
  | Some task =>
      match pods_Get a ns (Name (Pod_ task)) with
      | inl err => Returns (Some err, k)
      | inr pod =>
          match services_List a ns with
          | inl err => Returns (Some err, k)
          | inr envVars =>
              match scheme_Convert a pod with
              | inl err => Returns (Some err, k)
              | inr boundPod =>
                  let containers :=
                    (λ c, {| Env := Env c ++ envVars; HostPorts := HostPorts c |})
                      <$> bp_Containers boundPod in
                  let selfLink := "/api/v1beta1/boundPods/" +:+ bp_Name boundPod in
                  let annotations :=
                    SaveRecoveryInfo task
                      (<[BindingHostKey := machine]> (bp_Annotations boundPod)) in
                  match setHostPorts (Ports task) containers with
                  | None => Panics
                  | Some containers =>
                      let boundPod :=
                        {| bp_Name := bp_Name boundPod; bp_SelfLink := selfLink;
                           bp_Annotations := annotations;
                           bp_Containers := containers |} in
                      match TaskInfo_ task with
                      | None => Panics
                      | Some _ =>
                          match yaml_Marshal a boundPod with
                          | inl err =>
                              Returns (Some err,
                                       with_tasks (update p (with_Data None)) k)
                          | inr data =>
                              Returns (None,
                                       with_tasks (update p (with_Data (Some data))) k)
                          end
                      end
                  end
              end
          end
      end
  end.

(** The two statements [task.Offer.Release(); task.ClearTaskInfo()]. *)
Definition releaseAndClear (p : loc) (k : KubernetesScheduler)
  : outcome KubernetesScheduler :=
  match taskObjects (tasks k) !! p with
  | None => Panics
  | Some task =>
      match releaseOffer task k with
      | Returns k1 => Returns (with_tasks (update p ClearTaskInfo) k1)
      | r => r
      end
  end.

(** [func (b *binder) bind(ctx, binding, task) (err error)] *)
Definition bind (now : Z) (a : answers) (binding : Binding) (p : loc)
    (k : KubernetesScheduler) : outcome (option error * KubernetesScheduler) :=
  match taskObjects (tasks k) !! p with
  | None => Panics
  | Some task =>
      if negb (HasAcceptedOffer task) then
        Returns (Some (Errorf "task has not accepted a valid offer"), k)
      else
        let offerId := GetOfferId k task in
        let invalid :=
          match offers.Get (offerReg k) offerId with
          | None => true
          | Some offer => offers.offer_HasExpired now (offerReg k) offer
          end in
        if invalid then
          match releaseAndClear p k with
          | Returns k1 =>
              Returns (Some (Errorf "failed prior to launchTask due to expired offer"), k1)
          | Panics => Panics
          | Blocks => Blocks
          end
        else
          match prepareTaskForLaunch a (b_Namespace binding) (b_Host binding) p offerId k with
          | Returns (None, k1) =>
              match launchTask a p k1 with
              | Returns (None, k2) =>
                  let k3 := with_offerReg (offers.Invalidate now offerId) k2 in
                  let k4 := with_tasks (update p (with_Pod (with_Host (b_Host binding)))) k3 in
                  Returns (None, with_tasks (update p (Set_ Launched)) k4)
              | Returns (Some _, k2) =>
                  match releaseAndClear p k2 with
                  | Returns k3 => Returns (Some (Errorf "Failed to launch task"), k3)
                  | Panics => Panics
                  | Blocks => Blocks
                  end
              | Panics => Panics
              | Blocks => Blocks
              end
          | Returns (Some _, k1) =>
              match releaseAndClear p k1 with
              | Returns k2 => Returns (Some (Errorf "Failed to launch task"), k2)
              | Panics => Panics
              | Blocks => Blocks
              end
          | Panics => Panics
          | Blocks => Blocks
          end
  end.

(** [func (b *binder) Bind(binding *api.Binding) error] *)
Definition Bind (now : Z) (a : answers) (binding : Binding)
    (k : KubernetesScheduler) : outcome (option error * KubernetesScheduler) :=
  match MakePodKey (b_Namespace binding) (PodID binding) with
  | inl err => Returns (Some err, k)
  | inr key =>
      match taskForPod k key with
      | None => Returns (Some noSuchPodErr, k)
      | Some taskId =>
          match getTask k taskId with
          | Some (p, task) =>
              match State task with
              | StatePending => bind now a binding p k
              | _ => Returns (Some noSuchPodErr, k)
              end
          | None => Returns (Some noSuchPodErr, k)
          end
      end
  end.

(** *** [kubeScheduler] *)

(** [func (k *kubeScheduler) doSchedule(task *podtask.T, err error) (string, error)] *)
Definition doSchedule (now : Z) (task : option loc) (err : option error)
    (k : KubernetesScheduler)
  : outcome ((string * option error) * KubernetesScheduler) :=
  match err with
  | Some e => Returns (("", Some e), k)
  | None =>
      match task with
      | None => Panics
      | Some p =>
          let '(r, reg) := scheduleFunc (offerReg k) (slaves k) (tasks k) p in
          let k := with_placed (λ l, l ++ [p]) (with_offerReg (λ _, reg) k) in
          match r with
          | inl e => Returns (("", Some e), k)
          | inr offer =>
              match offers.offer_Details (offerReg k) offer with
              | None =>
                  Returns (("", Some (Errorf "offer already invalid/expired for task")), k)
              | Some details =>
                  let slaveId := offers.SlaveId details in
                  match slaveFor k slaveId with
                  | None =>
                      let k1 := with_offerReg (offers.offer_Release offer) k in
                      let k2 := with_offerReg
                                  (offers.Invalidate now (offers.Id details)) k1 in
                      let k3 := with_tasks (update p ClearTaskInfo) k2 in
                      Returns (("", Some (Errorf "Slave disappeared while scheduling task")), k3)
                  | Some slave =>
                      match taskObjects (tasks k) !! p with
                      | None => Panics
                      | Some t =>
                          if bool_decide (Offer t ≠ None ∧ Offer t ≠ Some offer) then
                            Returns (("", Some (Errorf "task.offer assignment must be idempotent")), k)
                          else
                            let k1 := with_tasks (update p (with_Offer (Some offer))) k in
                            let k2 := with_tasks (update p (FillFromDetails details)) k1 in
                            Returns ((HostName slave, None), k2)
                      end
                  end
              end
          end
      end
  end.

(** [func (k *kubeScheduler) Schedule(pod api.Pod, unused algorithm.MinionLister) (string, error)];
    [newTaskId] is the id that [podtask.New] draws for a fresh task. *)
Definition Schedule (now : Z) (newTaskId : string) (pod : Pod)
    (k : KubernetesScheduler)
  : outcome ((string * option error) * KubernetesScheduler) :=
  match MakePodKey (Namespace pod) (Name pod) with
  | inl err => Returns (("", Some err), k)
  | inr key =>
      match taskForPod k key with
      | None =>
          match MetaNamespaceKeyFunc pod with
          | inl _ => Returns (("", Some noSuchPodErr), k)
          | inr podName =>
              let '(deleted, u) := Poll (podUpdates k) podName queue.DELETE_EVENT in
              let k := with_podUpdates u k in
              if deleted then Returns (("", Some noSuchPodErr), k)
              else
                let '((task, err), k1) := createPodTask newTaskId (Namespace pod) pod k in
                let '((task, err), k2) := registerPodTask task err k1 in
                doSchedule now task err k2
          end
      | Some taskID =>
          match getTask k taskID with
          | Some (p, task) =>
              match State task with
              | StatePending =>
                  if bool_decide (UID pod ≠ UID (Pod_ task)) then
                    Returns (("", Some (Errorf "task spec is out of sync with pod spec, aborting schedule")), k)
                  else if Has Launched task then
                    Returns (("", Some (Errorf "task has already been launched, aborting schedule")), k)
                  else doSchedule now (Some p) None k
              | _ =>
                  Returns (("", Some (Errorf "task is not pending, nothing to schedule")), k)
              end
          | None =>
              Returns (("", Some (Errorf "task is not pending, nothing to schedule")), k)
          end
      end
  end.

(** *** [queuer] *)

(** [func (q *queuer) dequeue(id string)] *)
Definition dequeue (id : string) (k : KubernetesScheduler) : KubernetesScheduler :=
  with_podQueue (queue.Delete id) k.

(** [func (q *queuer) requeue(pod *Pod)] *)
Definition requeue (pod : QueuedPod) (k : KubernetesScheduler) : KubernetesScheduler :=
  with_podQueue (queue.Add QueuedPod_GetUID pod queue.KeepExisting) k.

(** *** [errorHandler] *)

(** The function literal that [handleSchedulingError] passes to [Listen];
    it reads the task registry as it is when the filter is called. *)
Definition breakoutFilter (taskId : string) : offers.Filter (World := Registry) :=
  λ w offer,
    match Get w taskId with
    | Some (_, task) =>
        match State task with
        | StatePending => negb (Has Launched task) && AcceptOffer task offer
        | _ => true
        end
    | None => true
    end.

(** [func (k *errorHandler) handleSchedulingError(pod *api.Pod, schedulingErr error)] *)
Definition handleSchedulingError (now : Z) (pod : Pod) (schedulingErr : error)
    (k : KubernetesScheduler) : KubernetesScheduler :=
  if decide (schedulingErr = noSuchPodErr) then k
  else
    match MakePodKey (Namespace pod) (Name pod) with
    | inl _ => k
    | inr key =>
        let k := with_backoff (gc now (backoff k)) k in
        match taskForPod k key with
        | None => k
        | Some taskId =>
            match getTask k taskId with
            | Some (_, task) =>
                match State task with
                | StatePending =>
                    if Has Launched task then k
                    else
                      let '(breakoutEarly, k1) :=
                        if decide (schedulingErr = noSuitableOffersErr) then
                          let '(ch, reg) :=
                            offers.Listen now key (Some (breakoutFilter taskId))
                                          (offerReg k) in
                          (ch, with_offerReg (λ _, reg) k)
                        else (None, k) in
                      let '(delay, b) := getBackoff now (backoff k1) key in
                      let k2 := with_backoff b k1 in
                      requeue {| qp_Pod := pod; qp_deadline := None;
                                 qp_delay := Some delay;
                                 qp_notify := breakoutEarly |} k2
                | _ => k
                end
            | None => k
            end
        end
    end.

(** *** [deleter] *)

(** The statements under [case podtask.StateRunning], which the Pending
    case falls through to. *)
Definition markDeletedAndKill (a : answers) (p : loc) (taskId : string)
    (k : KubernetesScheduler) : option error * KubernetesScheduler :=
  killTask a taskId (with_tasks (update p (Set_ Deleted)) k).

(** [func (k *deleter) deleteOne(pod *Pod) error] *)
Definition deleteOne (a : answers) (pod : QueuedPod) (k : KubernetesScheduler)
  : outcome (option error * KubernetesScheduler) :=
  match MakePodKey (Namespace (qp_Pod pod)) (Name (qp_Pod pod)) with
  | inl err => Returns (Some err, k)
  | inr key =>
      let k := dequeue (QueuedPod_GetUID pod) k in
      match taskForPod k key with
      | None => Returns (Some noSuchPodErr, k)
      | Some taskId =>
          match getTask k taskId with
          | Some (p, task) =>
              match State task with
              | StatePending =>
                  if negb (Has Launched task) then
                    let cleared :=
                      if HasAcceptedOffer task then releaseAndClear p k
                      else Returns k in
                    match cleared with
                    | Returns k1 => Returns (None, unregisterPodTask p k1)
                    | Panics => Panics
                    | Blocks => Blocks
                    end
                  else Returns (markDeletedAndKill a p taskId k)
              | StateRunning => Returns (markDeletedAndKill a p taskId k)
              | _ => Returns (Some noSuchTaskErr, k)
              end
          | None => Returns (Some noSuchTaskErr, k)
          end
      end
  end.
(** *** More of [queuer], [deleter] and [schedulingPlugin] *)

(** [func (q *queuer) reoffer(pod *Pod)] *)
Definition reoffer (pod : QueuedPod) (k : KubernetesScheduler) : KubernetesScheduler :=
  with_podQueue
    (λ q, (queue.Offer QueuedPod_GetUID pod queue.KeepExisting q).2) k.

(** The body of the loop of [queuer.Run] for a pod that
    [q.podUpdates.Await] returned. *)
Definition enqueue (now : Z) (pod : QueuedPod) (k : KubernetesScheduler)
  : KubernetesScheduler :=
  if bool_decide (Host (qp_Pod pod) ≠ "") then dequeue (QueuedPod_GetUID pod) k
  else
    let pod := {| qp_Pod := qp_Pod pod; qp_deadline := Some now;
                  qp_delay := qp_delay pod; qp_notify := qp_notify pod |} in
    with_podQueue
      (λ q, (queue.Offer QueuedPod_GetUID pod queue.ReplaceExisting q).2) k.

(** [func (s *schedulingPlugin) reconcilePod(oldPod api.Pod)];
    [IsNotFound] is [errors.IsNotFound]. *)
Definition reconcilePod (now : Z) (a : answers) (IsNotFound : error → bool)
    (oldPod : Pod) (k : KubernetesScheduler) : outcome KubernetesScheduler :=
  match pods_Get a (Namespace oldPod) (Name oldPod) with
  | inl err =>
      if IsNotFound err then
        match deleteOne a {| qp_Pod := oldPod; qp_deadline := None;
                             qp_delay := None; qp_notify := None |} k with
        | Returns (_, k') => Returns k'
        | Panics => Panics
        | Blocks => Blocks
        end
      else Returns k
  | inr pod =>
      if bool_decide (Host oldPod ≠ Host pod) then
        if bool_decide (Host pod = "") then
          match MakePodKey (Namespace oldPod) (Name pod) with
          | inl _ => Returns k
          | inr key =>
              match taskForPod k key with
              | Some _ => Returns k
              | None =>
                  Returns (reoffer {| qp_Pod := pod; qp_deadline := Some now;
                                      qp_delay := None; qp_notify := None |} k)
              end
          end
        else Returns k
      else Returns k
  end.

End plugin.
End scheduler.

(** ** Package executor *)
Module executor.

Inductive stateType := disconnectedState | connectedState | doneState.

Global Instance stateType_eq_dec : EqDecision stateType.
Proof. solve_decision. Defined.

Inductive TaskState :=
  | TASK_STARTING | TASK_RUNNING | TASK_FAILED | TASK_KILLED | TASK_LOST.

(** The constants of package messages, and the messages built with
    [fmt.Sprintf] or taken from an error. *)
Inductive message :=
  | ExecutorUnregistered
  | UnmarshalTaskDataFailure
  | CreateBindingFailure
  | CreateBindingSuccess
  | LaunchTaskFailed
  | ContainersDisappeared
  | TaskKilled
  | TaskLostAck
  | Text (s : string).

(** [mesos.TaskInfo] as the executor reads it. *)
Record TaskInfo := {
  TaskId : string;
  Data : string
}.

(** [mesos.TaskStatus] *)
Record TaskStatus := {
  ts_TaskId : string;
  ts_State : TaskState;
  ts_Message : message;
  ts_Data : option string
}.

(** [api.BoundPod] *)
Record BoundPod := {
  Name : string;
  Namespace : string;
  Annotations : gmap string string
}.

(** [api.Binding] *)
Record Binding := {
  b_Namespace : string;
  b_Annotations : gmap string string;
  PodID : string;
  Host : string
}.

Record kuberTask := {
  mesosTaskInfo : TaskInfo;
  podName : string
}.

(** The goroutines started with a [go] statement. *)
Inductive goroutine :=
  | go_launchTask (taskId : string) (pod : BoundPod)
  | go__launchTask (taskId podFullName : string)
  | go___launchTask (taskId podFullName : string).

(** Functions the executor calls that live outside the sources at hand. *)
Class Collaborators := {
  yaml_Unmarshal : string → option BoundPod;
  GetPodFullName : string → string → string → string;
  BindingHostKey : string
}.

Section executor.
Context `{Collaborators}.

Record KubernetesExecutor := {
  state : stateType;
  tasks : gmap string kuberTask;
  pods : gmap string BoundPod;
  sourcename : string;
  done : bool;                          (* the channel [done] is closed *)
  outgoing : list TaskStatus;           (* status updates handed to the pump *)
  updateChan : list (list BoundPod);    (* kubelet.PodUpdate{Op: SET} sent *)
  posted : list Binding;                (* POSTs of a binding *)
  spawned : list goroutine
}.

Definition with_tasks (f : gmap string kuberTask → gmap string kuberTask)
    (k : KubernetesExecutor) :=
  {| state := state k; tasks := f (tasks k); pods := pods k;
     sourcename := sourcename k; done := done k; outgoing := outgoing k;
     updateChan := updateChan k; posted := posted k; spawned := spawned k |}.

Definition with_pods (f : gmap string BoundPod → gmap string BoundPod)
    (k : KubernetesExecutor) :=
  {| state := state k; tasks := tasks k; pods := f (pods k);
     sourcename := sourcename k; done := done k; outgoing := outgoing k;
     updateChan := updateChan k; posted := posted k; spawned := spawned k |}.

Definition with_outgoing (f : list TaskStatus → list TaskStatus)
    (k : KubernetesExecutor) :=
  {| state := state k; tasks := tasks k; pods := pods k;
     sourcename := sourcename k; done := done k; outgoing := f (outgoing k);
     updateChan := updateChan k; posted := posted k; spawned := spawned k |}.

Definition with_updateChan (f : list (list BoundPod) → list (list BoundPod))
    (k : KubernetesExecutor) :=
  {| state := state k; tasks := tasks k; pods := pods k;
     sourcename := sourcename k; done := done k; outgoing := outgoing k;
     updateChan := f (updateChan k); posted := posted k; spawned := spawned k |}.

Definition with_posted (f : list Binding → list Binding)
    (k : KubernetesExecutor) :=
  {| state := state k; tasks := tasks k; pods := pods k;
     sourcename := sourcename k; done := done k; outgoing := outgoing k;
     updateChan := updateChan k; posted := f (posted k); spawned := spawned k |}.

Definition go (g : goroutine) (k : KubernetesExecutor) :=
  {| state := state k; tasks := tasks k; pods := pods k;
     sourcename := sourcename k; done := done k; outgoing := outgoing k;
     updateChan := updateChan k; posted := posted k;
     spawned := spawned k ++ [g] |}.

Definition getState (k : KubernetesExecutor) : stateType := state k.

Definition isConnected (k : KubernetesExecutor) : bool :=
  bool_decide (connectedState = getState k).

Definition isDone (k : KubernetesExecutor) : bool := done k.

Definition newStatus (taskId : string) (st : TaskState) (msg : message)
  : TaskStatus :=
  {| ts_TaskId := taskId; ts_State := st; ts_Message := msg; ts_Data := None |}.

(** [func (k *KubernetesExecutor) sendStatus(driver, status)]: unless the
    executor is done, the sender is put on the channel [outgoing]. *)
Definition sendStatus (status : TaskStatus) (k : KubernetesExecutor) :=
  if done k then k else with_outgoing (λ o, o ++ [status]) k.

(** The pod update [kubelet.PodUpdate{Op: kubelet.SET}] filled from [k.pods]. *)
Definition sendPods (k : KubernetesExecutor) :=
  with_updateChan (λ u, u ++ [(map_to_list (pods k)).*2]) k.

(** [func (k *KubernetesExecutor) LaunchTask(driver, taskInfo)] *)
Definition LaunchTask (taskInfo : TaskInfo) (k : KubernetesExecutor)
  : KubernetesExecutor :=
  if isDone k then k
  else if negb (isConnected k) then
    sendStatus (newStatus (TaskId taskInfo) TASK_FAILED ExecutorUnregistered) k
  else
    match yaml_Unmarshal (Data taskInfo) with
    | None =>
        sendStatus (newStatus (TaskId taskInfo) TASK_FAILED UnmarshalTaskDataFailure) k
    | Some pod =>
        let taskId := TaskId taskInfo in
        match tasks k !! taskId with
        | Some _ => k
        | None =>
            go (go_launchTask taskId pod)
               (with_tasks <[taskId := {| mesosTaskInfo := taskInfo; podName := "" |}]> k)
        end
    end.

(** [func (k *KubernetesExecutor) removePodTask(driver, tid, reason, state)] *)
Definition removePodTask (tid : string) (reason : message) (st : TaskState)
    (k : KubernetesExecutor) : KubernetesExecutor :=
  match tasks k !! tid with
  | None => k
  | Some task =>
      let k1 := with_tasks (delete tid) k in
      let pid := podName task in
      let k2 :=
        match pods k1 !! pid with
        | None => k1
        | Some _ => sendPods (with_pods (delete pid) k1)
        end in
      sendStatus (newStatus tid st reason) k2
  end.

(** [func (k *KubernetesExecutor) reportLostTask(driver, tid, reason)] *)
Definition reportLostTask (tid : string) (reason : message)
    (k : KubernetesExecutor) : KubernetesExecutor :=
  removePodTask tid reason TASK_LOST k.

(** [func (k *KubernetesExecutor) launchTask(driver, taskId, pod)], the
    continuation that [LaunchTask] starts; [postErr] is what the POST of
    the binding answers and [marshalled] what [json.Marshal] answers. *)
Definition launchTask (postErr : option error) (marshalled : error + string)
    (taskId : string) (pod : BoundPod) (k : KubernetesExecutor)
  : KubernetesExecutor :=
  let binding :=
    {| b_Namespace := Namespace pod;
       b_Annotations := Annotations pod;
       PodID := Name pod;
       Host := default "" (Annotations pod !! BindingHostKey) |} in
  let k := with_posted (λ l, l ++ [binding]) k in
  match postErr with
  | Some _ => sendStatus (newStatus taskId TASK_FAILED CreateBindingFailure) k
  | None =>
      let podFullName := GetPodFullName (Name pod) (Namespace pod) (sourcename k) in
      match marshalled with
      | inl _ => sendStatus (newStatus taskId TASK_FAILED (Text "json: error")) k
      | inr data =>
          match tasks k !! taskId with
          | None => reportLostTask taskId LaunchTaskFailed k
          | Some task =>
              let k1 := with_tasks
                          <[taskId := {| mesosTaskInfo := mesosTaskInfo task;
                                         podName := podFullName |}]> k in
              let k2 := sendPods (with_pods <[podFullName := pod]> k1) in
              let k3 := sendStatus {| ts_TaskId := taskId; ts_State := TASK_STARTING;
                                      ts_Message := CreateBindingSuccess;
                                      ts_Data := Some data |} k2 in
              go (go__launchTask taskId podFullName) k3
          end
      end
  end.

(** [strings.HasPrefix(s, prefix)]:
    [len(s) >= len(prefix) && s[0:len(prefix)] == prefix]. *)
Definition HasPrefix (s prefix : string) : bool :=
  bool_decide (String.length prefix ≤ String.length s)
  && bool_decide (String.substring 0 (String.length prefix) s = prefix).

(** The condition of the [if] in [FrameworkMessage]. *)
Definition taskLostGuard (message : string) : bool :=
  HasPrefix "task-lost:" message && bool_decide (10 < String.length message).

(** [func (k *KubernetesExecutor) FrameworkMessage(driver, message string)] *)
Definition FrameworkMessage (message : string) (k : KubernetesExecutor)
  : KubernetesExecutor :=
  if isDone k then k
  else if negb (isConnected k) then k
  else if taskLostGuard message then
    let taskId := String.substring 10 (String.length message - 10) message in
    if bool_decide (taskId ≠ "") then reportLostTask taskId TaskLostAck k
    else k
  else k.

(** *** Connection callbacks, kill, monitoring and shutdown *)

Definition with_state (st : stateType) (k : KubernetesExecutor) :=
  {| state := st; tasks := tasks k; pods := pods k;
     sourcename := sourcename k; done := done k; outgoing := outgoing k;
     updateChan := updateChan k; posted := posted k; spawned := spawned k |}.

(** [close(k.done)] *)
Definition closeDone (k : KubernetesExecutor) :=
  {| state := state k; tasks := tasks k; pods := pods k;
     sourcename := sourcename k; done := true; outgoing := outgoing k;
     updateChan := updateChan k; posted := posted k; spawned := spawned k |}.

(** [func New(...) *KubernetesExecutor]; the sender loop that it starts
    only drains [outgoing] and is left out. *)
Definition New (ns : string) : KubernetesExecutor :=
  {| state := disconnectedState; tasks := ∅; pods := ∅; sourcename := ns;
     done := false; outgoing := []; updateChan := []; posted := [];
     spawned := [] |}.

(** [func (k *KubernetesExecutor) swapState(from, to stateType) bool] *)
Definition swapState (from to : stateType) (k : KubernetesExecutor)
  : bool * KubernetesExecutor :=
  if decide (state k = from) then (true, with_state to k) else (false, k).

(** [func (k *KubernetesExecutor) Registered(driver, executorInfo, frameworkInfo, slaveInfo)] *)
Definition Registered (k : KubernetesExecutor) : outcome KubernetesExecutor :=
  if isDone k then Returns k
  else
    let '(swapped, k1) := swapState disconnectedState connectedState k in
    if negb swapped then Panics else Returns k1.

(** [func (k *KubernetesExecutor) Reregistered(driver, slaveInfo)] *)
Definition Reregistered (k : KubernetesExecutor) : outcome KubernetesExecutor :=
  if isDone k then Returns k
  else
    let '(swapped, k1) := swapState disconnectedState connectedState k in
    if negb swapped then Panics else Returns k1.

(** [func (k *KubernetesExecutor) Disconnected(driver)] *)
Definition Disconnected (k : KubernetesExecutor) : outcome KubernetesExecutor :=
  if isDone k then Returns k
  else
    let '(swapped, k1) := swapState connectedState disconnectedState k in
    if negb swapped then Panics else Returns k1.

(** [func (k *KubernetesExecutor) checkForLostPodTask(driver, taskId, isKnownPod) bool];
    [isKnownPod] is what the function value answers when it is called. *)
Definition checkForLostPodTask (taskId : string) (isKnownPod : bool)
    (k : KubernetesExecutor) : bool * KubernetesExecutor :=
  match tasks k !! taskId with
  | Some _ =>
      if isKnownPod then (false, k)
      else (true, reportLostTask taskId ContainersDisappeared k)
  | None => (true, k)
  end.

(** [containerPollTime] and [launchGracePeriod], in milliseconds. *)
Definition containerPollTime : Z := 300.
Definition launchGracePeriod : Z := 300000.

(** What one round of the loop of [_launchTask] meets once its poll timer
    has fired: how long [getPidInfo] takes, what it answers ([None] for
    an error, else whether the phase is [PodRunning]) and what
    [json.Marshal] answers ([None] for an error, which leaves [data] nil).
    [expiredFirst] settles a race: whether the goroutine finds [expired]
    closed when it is closed at the very instant that the goroutine
    looks at it. *)
Record poll := {
  took : Z;
  pidInfo : option bool;
  marshalled : option string;
  expiredFirst : bool
}.

(** Whether a receive from [expired], closed at [expiredAt], is ready at
    time [t] of the round [q]. *)
Definition expiredClosed (expiredAt t : Z) (q : poll) : bool :=
  (expiredAt <? t)%Z || ((expiredAt =? t)%Z && expiredFirst q).

(** How the loop [waitForRunningPod] ends; [StillWaiting] when the polls
    at hand do not end it. *)
Inductive waitResult :=
  | StillWaiting
  | GiveUp
  | PodRunning (data : string).

(** The loop [waitForRunningPod] of [_launchTask] with its closure
    [getMarshalledInfo], started at time [t] of a continuation whose
    channel [expired] is closed at [expiredAt].  Each round waits for
    [expired] or for [containerPollTime], whichever comes first. *)
Fixpoint waitForRunningPod (expiredAt t : Z) (polls : list poll) (taskId : string)
    (k : KubernetesExecutor) : waitResult :=
  match polls with
  | [] => StillWaiting
  | q :: rest =>
      let woke := (t + containerPollTime)%Z in
      if expiredClosed expiredAt woke q then GiveUp
      else
        let answered := (woke + took q)%Z in
        match pidInfo q with
        | None => waitForRunningPod expiredAt answered rest taskId k
        | Some running =>
            if expiredClosed expiredAt answered q then GiveUp
            else
              match tasks k !! taskId with
              | None => GiveUp
              | Some _ =>
                  if negb running then
                    waitForRunningPod expiredAt answered rest taskId k
                  else
                    match marshalled q with
                    | None => waitForRunningPod expiredAt answered rest taskId k
                    | Some data => PodRunning data
                    end
              end
        end
  end.

(** [func (k *KubernetesExecutor) _launchTask(driver, taskId, podFullName)],
    started at time [start]; [None] while the loop is still waiting. *)
Definition _launchTask (start : Z) (polls : list poll) (taskId podFullName : string)
    (k : KubernetesExecutor) : option KubernetesExecutor :=
  match waitForRunningPod (start + launchGracePeriod) start polls taskId k with
  | StillWaiting => None
  | GiveUp => Some (reportLostTask taskId LaunchTaskFailed k)
  | PodRunning data =>
      match tasks k !! taskId with
      | None => Some (reportLostTask taskId LaunchTaskFailed k)
      | Some _ =>
          let k1 := sendStatus {| ts_TaskId := taskId; ts_State := TASK_RUNNING;
                                  ts_Message := Text ("pod-running:" +:+ podFullName);
                                  ts_Data := Some data |} k in
          Some (go (go___launchTask taskId podFullName) k1)
      end
  end.

(** [func (k *KubernetesExecutor) killPodForTask(driver, tid, reason)] *)
Definition killPodForTask (tid : string) (reason : message)
    (k : KubernetesExecutor) : KubernetesExecutor :=
  removePodTask tid reason TASK_KILLED k.

(** [func (k *KubernetesExecutor) KillTask(driver, taskId)] *)
Definition KillTask (taskId : string) (k : KubernetesExecutor)
  : KubernetesExecutor :=
  if isDone k then k
  else if negb (isConnected k) then k
  else killPodForTask taskId TaskKilled k.

(** [func KillKubeletContainers(dockerClient)]: the ids passed to
    [RemoveContainer], in order; [containers] is what
    [GetKubeletDockerContainers] answers.  An error of a removal is only
    logged. *)
Definition KillKubeletContainers (containers : error + list string) : list string :=
  match containers with
  | inr cs => cs
  | inl _ => []
  end.

(** [func (k *KubernetesExecutor) Shutdown(driver)], with the containers
    it removes.  The deferred loop swaps the state to [doneState]. *)
Definition Shutdown (containers : error + list string) (k : KubernetesExecutor)
  : KubernetesExecutor * list string :=
  if isDone k then (k, [])
  else
    let k1 := closeDone k in
    let k2 := with_tasks (λ _, ∅) k1 in
    let k3 := with_updateChan (λ u, u ++ [[]]) k2 in
    let removed := KillKubeletContainers containers in
    ((swapState (getState k3) doneState k3).2, removed).

(** What happens to an executor: the callbacks of the driver, and what the
    goroutines do that it started: the launch continuation [launchTask],
    the wait for the running pod [_launchTask] and the rounds of the
    monitor [__launchTask], each of which is a call of
    [checkForLostPodTask].  [_launchTask] only reads the task table
    before its last block, which runs under the lock; a run of it that is
    interleaved with other events therefore ends in a state that some run
    at the time of that last block ends in.  The sender loop only takes
    from [outgoing]. *)
Inductive event :=
  | EvRegistered
  | EvReregistered
  | EvDisconnected
  | EvLaunchTask (taskInfo : TaskInfo)
  | EvKillTask (taskId : string)
  | EvFrameworkMessage (message : string)
  | EvShutdown (containers : error + list string)
  | EvLaunchContinuation (postErr : option error) (marshalled : error + string)
      (taskId : string) (pod : BoundPod)
  | Ev_launchTask (start : Z) (polls : list poll) (taskId podFullName : string)
  | EvCheckForLostPodTask (taskId : string) (isKnownPod : bool).

Definition handle (ev : event) (k : KubernetesExecutor)
  : outcome KubernetesExecutor :=
  match ev with
  | EvRegistered => Registered k
  | EvReregistered => Reregistered k
  | EvDisconnected => Disconnected k
  | EvLaunchTask taskInfo => Returns (LaunchTask taskInfo k)
  | EvKillTask taskId => Returns (KillTask taskId k)
  | EvFrameworkMessage message => Returns (FrameworkMessage message k)
  | EvShutdown containers => Returns (Shutdown containers k).1
  | EvLaunchContinuation postErr marshalled taskId pod =>
      Returns (launchTask postErr marshalled taskId pod k)
  | Ev_launchTask start polls taskId podFullName =>
      Returns (default k (_launchTask start polls taskId podFullName k))
  | EvCheckForLostPodTask taskId isKnownPod =>
      Returns (checkForLostPodTask taskId isKnownPod k).2
  end.

Fixpoint handles (evs : list event) (k : KubernetesExecutor)
  : outcome KubernetesExecutor :=
  match evs with
  | [] => Returns k
  | ev :: rest =>
      match handle ev k with
      | Returns k1 => handles rest k1
      | Panics => Panics
      | Blocks => Blocks
      end
  end.

(** The pods that the kubelet was last told to run. *)
Definition lastUpdate (k : KubernetesExecutor) : list BoundPod :=
  default [] (last (updateChan k)).

(** The pod table and the kubelet agree. *)
Definition in_sync (k : KubernetesExecutor) : Prop :=
  lastUpdate k = (map_to_list (pods k)).*2.
End executor.
End executor.

(** ** Sample collaborators and states *)
Module samples.

(** An executor whose payloads decode unless they are empty. *)
Definition executorCollaborators : executor.Collaborators :=
  {| executor.yaml_Unmarshal := λ data,
       if decide (data = "") then None
       else Some {| executor.Name := data; executor.Namespace := "default";
                    executor.Annotations := ∅ |};
     executor.GetPodFullName := λ name ns source, name +:+ "." +:+ ns +:+ "." +:+ source;
     executor.BindingHostKey := "k8s.mesosphere.io/bindingHost" |}.

Definition anExecutor (st : executor.stateType) : executor.KubernetesExecutor :=
  {| executor.state := st; executor.tasks := ∅; executor.pods := ∅;
     executor.sourcename := "mesos"; executor.done := false;
     executor.outgoing := []; executor.updateChan := [];
     executor.posted := []; executor.spawned := [] |}.

Definition aTaskInfo (data : string) : executor.TaskInfo :=
  {| executor.TaskId := "t1"; executor.Data := data |}.

(** A registry with TTL 10 that received the offer [o1] at time 0. *)
Definition o1 : offers.Offer :=
  {| offers.Id := "o1"; offers.Hostname := "h1"; offers.SlaveId := "s1" |}.

Definition oneOffer (lingerTTL : Z) : offers.offerStorage unit :=
  offers.Add 0 [o1] (offers.CreateRegistry 10 lingerTTL 0).

(** The same registry after some claimant acquired [o1]. *)
Definition oneClaimedOffer (lingerTTL : Z) : offers.offerStorage unit :=
  (offers.offer_Acquire 0 (oneOffer lingerTTL)).2.

(** With LingerTTL 5, [o1] was deleted at time 1 and lingers until 6. *)
Definition oneLingeringOffer : offers.offerStorage unit :=
  offers.Delete 1 "o1" (oneOffer 5).

(** A listener for pod1 that accepts every offer, registered at time 0. *)
Definition acceptAll : offers.Filter (World := unit) := λ _ _, true.

Definition oneListener : offers.offerStorage unit :=
  (offers.Listen 0 "pod1" (Some acceptAll) (oneOffer 0)).2.

Definition theListener : offers.offerListener unit :=
  {| offers.l_id := "pod1"; offers.accepts := acceptAll; offers.notify := 0;
     offers.age := 0; offers.l_deadline := 0; offers.sawVersion := 0 |}.

(** Collaborators of the scheduler plugin: the pod-update store keeps the
  last event of each pod, the back-off doubles from 1 up to 60, every task
  accepts every offer and placement takes the offer [o1] when it is free. *)
Definition schedulerCollaborators : scheduler.Collaborators :=
  {| scheduler.Updates := gmap string queue.EventType;
     scheduler.Poll := λ u name ev, (bool_decide (u !! name = Some ev), u);
     scheduler.Backoff := gmap string Z;
     scheduler.gc := λ now b, b;
     scheduler.getBackoff := λ now b key,
       match b !! key with
       | Some d => (d, <[key := Z.min (2 * d) 60]> b)
       | None => (1%Z, <[key := 2%Z]> b)
       end;
     scheduler.MakePodKey := λ ns name,
       if decide (name = "") then inl (Errorf "pod name required")
       else inr ("/pods/" +:+ ns +:+ "/" +:+ name);
     scheduler.MetaNamespaceKeyFunc := λ pod,
       inr (podtask.Namespace pod +:+ "/" +:+ podtask.Name pod);
     scheduler.QueuedPod_GetUID := λ qp, podtask.UID (scheduler.qp_Pod qp);
     scheduler.BindingHostKey := "k8s.mesosphere.io/bindingHost";
     scheduler.AcceptOffer := λ t o, true;
     scheduler.SaveRecoveryInfo := λ t annotations, annotations;
     scheduler.scheduleFunc := λ reg slaves tasks p,
       match offers.Get reg "o1" with
       | Some o =>
           let '(won, reg') := offers.offer_Acquire o reg in
           if won && negb (offers.offer_HasExpired 0 reg o)
           then (inr o, reg') else (inl noSuitableOffersErr, reg)
       | None => (inl noSuitableOffersErr, reg)
       end |}.

Definition pod1 : podtask.Pod :=
  {| podtask.Name := "web"; podtask.Namespace := "default";
     podtask.UID := "uid-1"; podtask.Host := "" |}.

Definition queuedPod1 : scheduler.QueuedPod :=
  {| scheduler.qp_Pod := pod1; scheduler.qp_deadline := None;
     scheduler.qp_delay := None; scheduler.qp_notify := None |}.

(** A scheduler that knows the slave s1 and holds the offer [o1] (TTL 10,
  LingerTTL 5), with pod1 waiting in the queue. *)
Definition scheduler0 : scheduler.KubernetesScheduler (H := schedulerCollaborators) :=
  @scheduler.Build_KubernetesScheduler schedulerCollaborators
    {| podtask.taskObjects := ∅; podtask.taskRegistry := ∅; podtask.podToTask := ∅ |}
    (offers.Add 0 [o1] (offers.CreateRegistry 10 5 0))
    {[ "s1" := {| scheduler.HostName := "h1" |} ]}
    {[ "uid-1" := queuedPod1 ]}
    (∅ : gmap string queue.EventType)
    (∅ : gmap string Z)
    [] [] [].

(** The state that an operation of the plugin leaves behind. *)
Definition state_after {A K : Type} (d : K) (r : outcome (A * K)) : K :=
  match r with
  | Returns (_, k) => k
  | _ => d
  end.

(** pod1 was scheduled at time 1 (task "task1" on offer [o1]) ... *)
Definition scheduled1 : scheduler.KubernetesScheduler (H := schedulerCollaborators) :=
  state_after scheduler0
    (scheduler.Schedule (H := schedulerCollaborators) 1 "task1" pod1 scheduler0).

(** The answers of an API server and a driver that are up. *)
Definition answersOk : scheduler.answers :=
  {| scheduler.pods_Get := λ ns name, inr pod1;
     scheduler.services_List := λ ns, inr [("SVC_HOST", "10.0.0.1")];
     scheduler.scheme_Convert := λ pod,
       inr {| scheduler.bp_Name := podtask.Name pod; scheduler.bp_SelfLink := "";
              scheduler.bp_Annotations := ∅; scheduler.bp_Containers := [] |};
     scheduler.yaml_Marshal := λ bp, inr (scheduler.bp_Name bp);
     scheduler.driver_LaunchTasks := λ ids tasks, None;
     scheduler.driver_KillTask := λ id, None |}.


Definition binding1 : scheduler.Binding :=
  {| scheduler.b_Namespace := "default"; scheduler.PodID := "web";
     scheduler.b_Host := "h1" |}.

(** ... and then bound and launched at time 2. *)
Definition launched1 : scheduler.KubernetesScheduler (H := schedulerCollaborators) :=
  state_after scheduled1
    (scheduler.Bind (H := schedulerCollaborators) 2 answersOk binding1 scheduled1).

(** The task of pod1 as [scheduled1] and [launched1] hold it. *)
Definition task1Scheduled : podtask.T :=
  {| podtask.ID := "task1"; podtask.podKey := "/pods/default/web";
     podtask.Pod_ := pod1; podtask.Offer := Some 0;
     podtask.TaskInfo_ := Some {| podtask.ti_SlaveId := "s1"; podtask.ti_Data := None |};
     podtask.Ports := []; podtask.State := podtask.StatePending;
     podtask.Flags := ∅ |}.

Definition task1Launched : podtask.T :=
  {| podtask.ID := "task1"; podtask.podKey := "/pods/default/web";
     podtask.Pod_ := podtask.with_Host "h1" pod1; podtask.Offer := Some 0;
     podtask.TaskInfo_ := Some {| podtask.ti_SlaveId := "s1";
                                  podtask.ti_Data := Some "web" |};
     podtask.Ports := []; podtask.State := podtask.StatePending;
     podtask.Flags := {[ podtask.Launched ]} |}.

(** [scheduler0] after the pod-update store recorded that pod1 was deleted. *)
Definition scheduler0Deleted : scheduler.KubernetesScheduler (H := schedulerCollaborators) :=
  scheduler.with_podUpdates (H := schedulerCollaborators)
    ({[ "default/web" := queue.DELETE_EVENT ]} : gmap string queue.EventType)
    scheduler0.

(** A task registry in which the task of pod1 is already running. *)
Definition task1Running : podtask.T :=
  {| podtask.ID := "task1"; podtask.podKey := "/pods/default/web";
     podtask.Pod_ := podtask.with_Host "h1" pod1; podtask.Offer := Some 0;
     podtask.TaskInfo_ := Some {| podtask.ti_SlaveId := "s1";
                                  podtask.ti_Data := Some "web" |};
     podtask.Ports := []; podtask.State := podtask.StateRunning;
     podtask.Flags := {[ podtask.Launched ]} |}.

Definition runningRegistry : podtask.Registry :=
  {| podtask.taskObjects := {[ 0 := task1Running ]};
     podtask.taskRegistry := {[ "task1" := 0 ]};
     podtask.podToTask := {[ "/pods/default/web" := "task1" ]} |}.

(** A walker that looks at every offer and changes nothing. *)
Definition visitAll : offers.Walker (World := unit) := λ p s, ((false, None), s).

(** A cache of offer ids that is good until time 5 and then for 10 more. *)
Definition aCache : offers.stringsCache :=
  {| offers.expiresAt := 5; offers.cached := None; offers.ttl := 10;
     offers.version := 0 |}.

(** [scheduler0] with the task of pod1 registered, before placement. *)
Definition registered1 : scheduler.KubernetesScheduler (H := schedulerCollaborators) :=
  scheduler.with_tasks (H := schedulerCollaborators)
    (λ _, {| podtask.taskObjects :=
               {[ 0 := podtask.New "task1" "/pods/default/web" pod1 ]};
             podtask.taskRegistry := {[ "task1" := 0 ]};
             podtask.podToTask := {[ "/pods/default/web" := "task1" ]} |})
    scheduler0.

(** The pod that the payload "pod" decodes to. *)
Definition aPod : executor.BoundPod :=
  {| executor.Name := "pod"; executor.Namespace := "default";
     executor.Annotations := ∅ |}.

(** The state that a run of an executor ends in. *)
Definition executor_after (d : executor.KubernetesExecutor)
    (r : outcome executor.KubernetesExecutor) : executor.KubernetesExecutor :=
  match r with
  | Returns k => k
  | _ => d
  end.

(** A poll that finds the pod not yet running, and one that finds it
    running; each takes 10ms. *)
Definition pollPending : executor.poll :=
  {| executor.took := 10; executor.pidInfo := Some false;
     executor.marshalled := None; executor.expiredFirst := false |}.

Definition pollRunning : executor.poll :=
  {| executor.took := 10; executor.pidInfo := Some true;
     executor.marshalled := Some "info"; executor.expiredFirst := false |}.

(** The executor registers, is told to launch "t1", creates its binding
    and sees the pod running at the second poll. *)
Definition launchEvents : list executor.event :=
  [executor.EvRegistered; executor.EvLaunchTask (aTaskInfo "pod");
   executor.EvLaunchContinuation None (inr "status") "t1" aPod;
   executor.Ev_launchTask 0 [pollPending; pollRunning] "t1" "pod.default.mesos"].

Definition afterLaunch : executor.KubernetesExecutor :=
  executor_after (executor.New "mesos")
    (executor.handles (H := executorCollaborators) launchEvents
       (executor.New "mesos")).

End samples.

(** * Properties *)

(** ** The acquired flag of an offer *)
Section acquisition.
Import offers.

Lemma acquired_bit_step (to : liveOffer) (c : call) :
  (acquired to = 0 ∨ acquired to = 1)%Z →
  (acquired (step to c) = 0 ∨ acquired (step to c) = 1)%Z.
Proof.
  intros Hto.
  destruct c; cbn; unfold liveOffer_Acquire, liveOffer_Release, CompareAndSwapInt32.
  - destruct (Z.eqb_spec (acquired to) 0); cbn; auto.
  - destruct (Z.eqb_spec (acquired to) 1); cbn; auto.
Qed.

Lemma acquired_bit_run (cs : list call) (to : liveOffer) :
  (acquired to = 0 ∨ acquired to = 1)%Z →
  (acquired (run cs to) = 0 ∨ acquired (run cs to) = 1)%Z.
Proof.
  revert to. induction cs as [|c cs IH]; intros to Hto; [done|].
  cbn. apply IH. by apply acquired_bit_step.
Qed.

Lemma acquires_taken (n : nat) (to : liveOffer) :
  acquired to ≠ 0%Z → acquires n to = replicate n false.
Proof.
  revert to. induction n as [|n IH]; intros to Hto; [done|].
  cbn. unfold liveOffer_Acquire, CompareAndSwapInt32.
  destruct (Z.eqb_spec (acquired to) 0) as [|_]; [done|].
  f_equal. by apply IH.
Qed.

Lemma acquires_free (n : nat) (to : liveOffer) :
  acquired to = 0%Z → acquires (S n) to = true :: replicate n false.
Proof.
  intros Hto. cbn. unfold liveOffer_Acquire, CompareAndSwapInt32.
  rewrite Hto. cbn. f_equal. by apply acquires_taken.
Qed.

Lemma winners_replicate_false (n : nat) : winners (replicate n false) = 0.
Proof.
  unfold winners. induction n as [|n IH]; [done|].
  change (replicate (S n) false) with (false :: replicate n false).
  by rewrite filter_cons_False.
Qed.

Lemma winners_first (n : nat) : winners (true :: replicate n false) = 1.
Proof.
  unfold winners. rewrite filter_cons_True by done. cbn.
  f_equal. apply winners_replicate_false.
Qed.

Lemma release_after_run_free (cs : list call) (to : liveOffer) :
  (acquired to = 0 ∨ acquired to = 1)%Z →
  acquired (run (cs ++ [CallRelease]) to) = 0%Z.
Proof.
  intros Hto. unfold run. rewrite foldl_app. cbn.
  destruct (acquired_bit_run cs to Hto) as [E|E]; unfold run in E;
    unfold liveOffer_Release, CompareAndSwapInt32; rewrite E; done.
Qed.
End acquisition.

(** C6.  The acquired flag of a live offer only ever holds 0 or 1, whatever
  calls of Acquire and Release are made on it after [Add] created it.
  Acquire answers true exactly when the flag was 0 and then leaves it at 1;
  a run of Acquire calls without a Release in between, started when the
  offer is created or right after a Release, has exactly one call that
  answers true (the first), and no run has more than one.  Release takes
  the flag from 1 to 0.  On an expired, lingering offer Acquire answers
  false, Release changes nothing and Details is nil; the Details of a live
  offer is its payload. *)
Theorem C6_acquire_release_flag :
  (∀ now ttl offer cs,
     let to := offers.run cs (offers.newLiveOffer now ttl offer) in
     offers.acquired to = 0%Z ∨ offers.acquired to = 1%Z)
  ∧ (∀ to, (offers.liveOffer_Acquire to).1 = bool_decide (offers.acquired to = 0%Z))
  ∧ (∀ o e, (offers.liveOffer_Acquire
               {| offers.lo_Offer := o; offers.expiration := e; offers.acquired := 0 |}).2
            = {| offers.lo_Offer := o; offers.expiration := e; offers.acquired := 1 |})
  ∧ (∀ o e, (offers.liveOffer_Acquire
               {| offers.lo_Offer := o; offers.expiration := e; offers.acquired := 1 |})
            = (false, {| offers.lo_Offer := o; offers.expiration := e; offers.acquired := 1 |}))
  ∧ (∀ now ttl offer n,
       offers.acquires (S n) (offers.newLiveOffer now ttl offer)
       = true :: replicate n false)
  ∧ (∀ now ttl offer cs n,
       let to := offers.run (cs ++ [offers.CallRelease])
                   (offers.newLiveOffer now ttl offer) in
       offers.acquires (S n) to = true :: replicate n false
       ∧ offers.winners (offers.acquires (S n) to) = 1)
  ∧ (∀ to n, offers.winners (offers.acquires n to) ≤ 1)
  ∧ (∀ o e, offers.liveOffer_Release
              {| offers.lo_Offer := o; offers.expiration := e; offers.acquired := 1 |}
            = {| offers.lo_Offer := o; offers.expiration := e; offers.acquired := 0 |})
  ∧ (∀ e, offers.Acquire (offers.PExpired e) = (false, offers.PExpired e)
          ∧ offers.Release (offers.PExpired e) = offers.PExpired e
          ∧ offers.Details (offers.PExpired e) = None)
  ∧ (∀ to, offers.Details (offers.PLive to) = Some (offers.lo_Offer to)).
Proof.
  repeat split.
  - intros now ttl offer cs. cbn. apply acquired_bit_run. by left.
  - intros to. unfold offers.liveOffer_Acquire, offers.CompareAndSwapInt32.
    destruct (Z.eqb_spec (offers.acquired to) 0) as [E|E]; cbn;
      [by rewrite bool_decide_eq_true_2 | by rewrite bool_decide_eq_false_2].
  - intros. by apply acquires_free.
  - apply acquires_free. apply release_after_run_free. by left.
  - rewrite acquires_free; [|apply release_after_run_free; by left].
    apply winners_first.
  - intros to n. destruct n as [|n]; [cbn; lia|].
    destruct (decide (offers.acquired to = 0%Z)) as [E|E].
    + rewrite acquires_free by done. by rewrite winners_first.
    + rewrite acquires_taken by done. rewrite winners_replicate_false. lia.
Qed.

(** ** The executor *)
Section executor_facts.
Import executor.

Lemma HasPrefix_length (s prefix : string) :
  HasPrefix s prefix = true → String.length prefix ≤ String.length s.
Proof.
  unfold HasPrefix. intros Hp. apply andb_true_iff in Hp as [Hlen _].
  by apply bool_decide_eq_true_1 in Hlen.
Qed.

Lemma taskLostGuard_false (message : string) : taskLostGuard message = false.
Proof.
  unfold taskLostGuard.
  destruct (HasPrefix "task-lost:" message) eqn:Hp; [|done].
  apply HasPrefix_length in Hp. cbn in Hp. cbn.
  apply bool_decide_eq_false_2. lia.
Qed.
End executor_facts.

(** C9.  For every message, the condition
  [strings.HasPrefix("task-lost:", message) && len(message) > 10] of
  FrameworkMessage is false: HasPrefix with the arguments in this order
  makes message a prefix of the 10-character string "task-lost:", so its
  length is at most 10.  FrameworkMessage therefore never reaches
  reportLostTask and leaves the executor as it found it. *)
Theorem C9_task_lost_branch_unreachable :
  String.length "task-lost:" = 10
  ∧ (∀ message,
       executor.HasPrefix "task-lost:" message = true → String.length message ≤ 10)
  ∧ (∀ message, executor.taskLostGuard message = false)
  ∧ (∀ message k, executor.FrameworkMessage message k = k).
Proof.
  split; [done|]. split; [|split].
  - intros message Hp. by apply HasPrefix_length in Hp.
  - apply taskLostGuard_false.
  - intros message k. unfold executor.FrameworkMessage.
    rewrite taskLostGuard_false. by repeat case_match.
Qed.

Lemma C9_task_lost_branch_unreachable_witness :
  String.length "task-" ≤ 10
  ∧ executor.FrameworkMessage "task-lost:t1"
      (samples.anExecutor executor.connectedState)
    = samples.anExecutor executor.connectedState.
Proof.
  split.
  - apply (proj1 (proj2 C9_task_lost_branch_unreachable) "task-"). reflexivity.
  - apply (proj2 (proj2 (proj2 C9_task_lost_branch_unreachable))).
Defined.

(** C8.  LaunchTask on an executor that is not done: when the executor is
  not connected, exactly one status TASK_FAILED with message
  ExecutorUnregistered is handed to the pump and nothing is recorded; when
  it is connected and the payload does not decode, exactly one status
  TASK_FAILED with message UnmarshalTaskDataFailure is handed to the pump
  and nothing is recorded; when a record for the task id exists already,
  the executor is left unchanged: no status, no continuation and hence no
  POST of a binding; otherwise the record (taskInfo, podName = "") is
  inserted and the launch continuation is started, without a status. *)
Theorem C8_LaunchTask_cases `{executor.Collaborators}
    (taskInfo : executor.TaskInfo) (k : executor.KubernetesExecutor) :
  executor.isDone k = false →
  let k' := executor.LaunchTask taskInfo k in
  (executor.isConnected k = false →
     executor.outgoing k' = executor.outgoing k ++
       [{| executor.ts_TaskId := executor.TaskId taskInfo;
           executor.ts_State := executor.TASK_FAILED;
           executor.ts_Message := executor.ExecutorUnregistered;
           executor.ts_Data := None |}]
     ∧ executor.tasks k' = executor.tasks k
     ∧ executor.spawned k' = executor.spawned k
     ∧ executor.posted k' = executor.posted k)
  ∧ (executor.isConnected k = true →
     executor.yaml_Unmarshal (executor.Data taskInfo) = None →
     executor.outgoing k' = executor.outgoing k ++
       [{| executor.ts_TaskId := executor.TaskId taskInfo;
           executor.ts_State := executor.TASK_FAILED;
           executor.ts_Message := executor.UnmarshalTaskDataFailure;
           executor.ts_Data := None |}]
     ∧ executor.tasks k' = executor.tasks k
     ∧ executor.spawned k' = executor.spawned k
     ∧ executor.posted k' = executor.posted k)
  ∧ (executor.isConnected k = true →
     is_Some (executor.yaml_Unmarshal (executor.Data taskInfo)) →
     is_Some (executor.tasks k !! executor.TaskId taskInfo) →
     k' = k)
  ∧ (∀ pod,
     executor.isConnected k = true →
     executor.yaml_Unmarshal (executor.Data taskInfo) = Some pod →
     executor.tasks k !! executor.TaskId taskInfo = None →
     executor.tasks k' =
       <[executor.TaskId taskInfo :=
           {| executor.mesosTaskInfo := taskInfo; executor.podName := "" |}]>
         (executor.tasks k)
     ∧ executor.spawned k' = executor.spawned k ++
         [executor.go_launchTask (executor.TaskId taskInfo) pod]
     ∧ executor.outgoing k' = executor.outgoing k
     ∧ executor.posted k' = executor.posted k
     ∧ executor.pods k' = executor.pods k).
Proof.
  intros Hdone k'. subst k'.
  unfold executor.LaunchTask, executor.sendStatus, executor.isDone in *.
  rewrite Hdone.
  split; [|split; [|split]].
  - intros Hc. by rewrite Hc.
  - intros Hc Hy. by rewrite Hc, Hy.
  - intros Hc [pod Hy] [t Ht]. by rewrite Hc, Hy, Ht.
  - intros pod Hc Hy Ht. by rewrite Hc, Hy, Ht.
Qed.

Lemma C8_LaunchTask_cases_witness :
  executor.outgoing
    (executor.LaunchTask (H := samples.executorCollaborators)
       (samples.aTaskInfo "pod") (samples.anExecutor executor.disconnectedState))
  = [{| executor.ts_TaskId := "t1";
        executor.ts_State := executor.TASK_FAILED;
        executor.ts_Message := executor.ExecutorUnregistered;
        executor.ts_Data := None |}]
  ∧ executor.outgoing
      (executor.LaunchTask (H := samples.executorCollaborators)
         (samples.aTaskInfo "") (samples.anExecutor executor.connectedState))
    = [{| executor.ts_TaskId := "t1";
          executor.ts_State := executor.TASK_FAILED;
          executor.ts_Message := executor.UnmarshalTaskDataFailure;
          executor.ts_Data := None |}]
  ∧ (let k := executor.LaunchTask (H := samples.executorCollaborators)
                (samples.aTaskInfo "pod") (samples.anExecutor executor.connectedState) in
     executor.LaunchTask (H := samples.executorCollaborators) (samples.aTaskInfo "pod") k = k)
  ∧ executor.spawned
      (executor.LaunchTask (H := samples.executorCollaborators)
         (samples.aTaskInfo "pod") (samples.anExecutor executor.connectedState))
    = [executor.go_launchTask "t1"
         {| executor.Name := "pod"; executor.Namespace := "default";
            executor.Annotations := ∅ |}].
Proof.
  split; [|split; [|split]].
  - apply (C8_LaunchTask_cases (H := samples.executorCollaborators)
             (samples.aTaskInfo "pod") (samples.anExecutor executor.disconnectedState));
      reflexivity.
  - apply (C8_LaunchTask_cases (H := samples.executorCollaborators)
             (samples.aTaskInfo "") (samples.anExecutor executor.connectedState));
      reflexivity.
  - apply (C8_LaunchTask_cases (H := samples.executorCollaborators)
             (samples.aTaskInfo "pod")
             (executor.LaunchTask (H := samples.executorCollaborators)
                (samples.aTaskInfo "pod") (samples.anExecutor executor.connectedState)));
      [reflexivity | reflexivity | by eexists | by eexists].
  - apply (C8_LaunchTask_cases (H := samples.executorCollaborators)
             (samples.aTaskInfo "pod") (samples.anExecutor executor.connectedState));
      reflexivity.
Defined.

(** ** The offer registry *)
Section registry_facts.
Import offers.
Context {World : Type}.
Implicit Types s : offerStorage World.

Lemma offer_Acquire_live s p to :
  objects s !! p = Some (PLive to) →
  offer_Acquire p s =
    ((liveOffer_Acquire to).1,
     with_objects <[p := PLive (liveOffer_Acquire to).2]> s).
Proof.
  intros Hp. unfold offer_Acquire. rewrite Hp. cbn.
  by destruct (liveOffer_Acquire to).
Qed.

Lemma offer_Acquire_expired s p e :
  objects s !! p = Some (PExpired e) → offer_Acquire p s = (false, s).
Proof.
  intros Hp. unfold offer_Acquire. rewrite Hp. cbn. f_equal.
  destruct s; unfold with_objects; cbn in *. f_equal. by apply insert_id.
Qed.

Lemma liveOffer_Acquire_Offer to : lo_Offer (liveOffer_Acquire to).2 = lo_Offer to.
Proof. unfold liveOffer_Acquire, CompareAndSwapInt32. by case_match. Qed.

Lemma liveOffer_Acquire_acquired to :
  (acquired to = 0 ∨ acquired to = 1)%Z → acquired (liveOffer_Acquire to).2 = 1%Z.
Proof.
  unfold liveOffer_Acquire, CompareAndSwapInt32.
  intros [E|E]; rewrite E; done.
Qed.

Lemma liveOffer_Acquire_won to :
  (liveOffer_Acquire to).1 = bool_decide (acquired to = 0%Z).
Proof.
  unfold liveOffer_Acquire, CompareAndSwapInt32.
  destruct (Z.eqb_spec (acquired to) 0) as [E|E]; cbn;
    [by rewrite bool_decide_eq_true_2 | by rewrite bool_decide_eq_false_2].
Qed.
Lemma offer_Details_live s p to :
  objects s !! p = Some (PLive to) → offer_Details s p = Some (lo_Offer to).
Proof. intros Hp. unfold offer_Details. by rewrite Hp. Qed.

Lemma offer_Details_expired s p e :
  objects s !! p = Some (PExpired e) → offer_Details s p = None.
Proof. intros Hp. unfold offer_Details. by rewrite Hp. Qed.

Lemma expireOffer_expired s now p e :
  objects s !! p = Some (PExpired e) → expireOffer now p s = s.
Proof.
  intros Hp. unfold expireOffer. by rewrite (offer_Details_expired s p e).
Qed.

(** Without lingering, [expireOffer] hands the offer id, a string, to the
  FIFO, whose key function refuses it: the entry stays. *)
Lemma expireOffer_stays s now p :
  (LingerTTL s ≤ 0)%Z → expireOffer now p s = s.
Proof.
  intros Hl. unfold expireOffer. destruct (offer_Details s p); [|done].
  destruct (Z.ltb_spec 0 (LingerTTL s)); [lia|done].
Qed.

Lemma expireOffer_linger s now p to :
  objects s !! p = Some (PLive to) → (0 < LingerTTL s)%Z →
  expireOffer now p s =
    let e := fresh (dom (objects s)) in
    with_delayed (λ d, d ++ [e])
      (with_offers <[Id (lo_Offer to) := e]>
         (with_objects
            <[e := PExpired (Expired (Id (lo_Offer to)) (Hostname (lo_Offer to))
                               (LingerTTL s) now)]> s)).
Proof.
  intros Hp Hl. unfold expireOffer. rewrite (offer_Details_live s p to Hp).
  destruct (Z.ltb_spec 0 (LingerTTL s)); [|lia].
  unfold new, offer_host. by rewrite Hp.
Qed.

(** [Delete] on an id whose entry is a live offer, step by step. *)
Lemma Delete_live s now offerId p to :
  Get s offerId = Some p → objects s !! p = Some (PLive to) →
  Delete now offerId s =
    let s1 := with_objects <[p := PLive (liveOffer_Acquire to).2]> s in
    expireOffer now p
      (if (liveOffer_Acquire to).1 then DeclineOffer offerId s1
       else with_timers
              (λ t, t ++ [{| fireAt := (now + deferredDeclineTtlFactor * TTL s)%Z;
                             d_offer := p; d_offerId := offerId |}]) s1).
Proof.
  intros Hg Hp. unfold Delete. rewrite Hg, (offer_Acquire_live s p to Hp).
  cbn zeta.
  rewrite (offer_Details_live _ p (liveOffer_Acquire to).2)
    by (cbn; apply lookup_insert_eq).
  done.
Qed.

Lemma Delete_lingering s now offerId p e :
  Get s offerId = Some p → objects s !! p = Some (PExpired e) →
  Delete now offerId s = s.
Proof.
  intros Hg Hp. unfold Delete. rewrite Hg, (offer_Acquire_expired s p e Hp).
  rewrite (offer_Details_expired s p e Hp). by apply expireOffer_expired with e.
Qed.

Lemma deferredDecline_declined (d : deferred) s :
  declined (deferredDecline d s) =
    if (offer_Acquire (d_offer d) s).1 then declined s ++ [d_offerId d]
    else declined s.
Proof.
  unfold deferredDecline.
  destruct (offer_Acquire (d_offer d) s) as [won s1] eqn:Ha. cbn.
  assert (declined s1 = declined s) as Hd.
  { unfold offer_Acquire in Ha. destruct (objects s !! d_offer d) as [o|].
    - destruct (Acquire o). by simplify_eq.
    - by simplify_eq. }
  destruct won; cbn; by rewrite Hd.
Qed.
End registry_facts.

(** C2, as the code has it.  For an id whose entry in the registry is a live
  offer, Delete first attempts Acquire on it.  If the offer was unclaimed
  the decline callback is called at once and no timer is set; if it was
  claimed nothing is declined at once and a function is scheduled at
  now + 2 TTL which declines exactly when its own Acquire succeeds.  In
  both cases the offer is then expired: with LingerTTL > 0 a new expired
  entry with deadline now + LingerTTL takes its place, while the live
  object itself stays acquired for whoever holds it.  For an id whose
  entry is already expired and lingering, Delete changes nothing.  What
  becomes of the entry when LingerTTL <= 0 is not part of this statement. *)
Theorem C2_Delete_expires_and_declines {World : Type}
    (s : offers.offerStorage World) (now : Z) (offerId : string) (p : loc)
    (o : offers.Perishable) :
  offers.Get s offerId = Some p →
  offers.objects s !! p = Some o →
  offers.uid o = offerId →
  let s' := offers.Delete now offerId s in
  match o with
  | offers.PLive to =>
      let d := {| offers.fireAt := (now + 2 * offers.TTL s)%Z;
                  offers.d_offer := p; offers.d_offerId := offerId |} in
      (offers.acquired to = 0%Z →
         offers.declined s' = offers.declined s ++ [offerId]
         ∧ offers.timers s' = offers.timers s)
      ∧ (offers.acquired to ≠ 0%Z →
         offers.declined s' = offers.declined s
         ∧ offers.timers s' = offers.timers s ++ [d])
      ∧ (∀ later : offers.offerStorage World,
           offers.declined (offers.deferredDecline d later) =
             if (offers.offer_Acquire p later).1
             then offers.declined later ++ [offerId]
             else offers.declined later)
      ∧ ((0 < offers.LingerTTL s)%Z →
         ∃ e, offers.Get s' offerId = Some e
              ∧ offers.objects s !! e = None
              ∧ offers.objects s' !! e =
                  Some (offers.PExpired
                          {| offers.id := offerId;
                             offers.hostname := offers.Hostname (offers.lo_Offer to);
                             offers.deadline := (now + offers.LingerTTL s)%Z |}))
      ∧ offers.objects s' !! p = Some (offers.PLive (offers.liveOffer_Acquire to).2)
  | offers.PExpired _ => s' = s
  end.
Proof.
  intros Hg Hp Hu s'. destruct o as [to|e]; cbn in Hu.
  2: { subst s'. by apply Delete_lingering with p e. }
  assert (∃ s2, (s2 = offers.DeclineOffer offerId
                        (offers.with_objects <[p := offers.PLive (offers.liveOffer_Acquire to).2]> s)
                 ∨ s2 = offers.with_timers
                          (λ t, t ++ [{| offers.fireAt := (now + offers.deferredDeclineTtlFactor * offers.TTL s)%Z;
                                         offers.d_offer := p; offers.d_offerId := offerId |}])
                          (offers.with_objects <[p := offers.PLive (offers.liveOffer_Acquire to).2]> s))
                ∧ s' = offers.expireOffer now p s2) as (s2 & Hs2 & Hs').
  { subst s'. rewrite (Delete_live s now offerId p to Hg Hp). cbn zeta.
    destruct (offers.liveOffer_Acquire to).1;
      [ eexists; split; [left; reflexivity | reflexivity]
      | eexists; split; [right; reflexivity | reflexivity] ]. }
  assert (offers.objects s2 !! p = Some (offers.PLive (offers.liveOffer_Acquire to).2)) as Hp2.
  { destruct Hs2 as [->| ->]; cbn; apply lookup_insert_eq. }
  assert (offers.LingerTTL s2 = offers.LingerTTL s) as Hl2.
  { by destruct Hs2 as [->| ->]. }
  assert (offers.offers s2 = offers.offers s) as Ho2.
  { by destruct Hs2 as [->| ->]. }
  assert (offers.objects s2 = <[p := offers.PLive (offers.liveOffer_Acquire to).2]> (offers.objects s)) as Hobj2.
  { by destruct Hs2 as [->| ->]. }
  assert (offers.lo_Offer (offers.liveOffer_Acquire to).2 = offers.lo_Offer to) as Hoff
    by apply liveOffer_Acquire_Offer.
  split; [|split; [|split; [|split]]].
  - intros Hfree. subst s'. rewrite (Delete_live s now offerId p to Hg Hp). cbn zeta.
    rewrite liveOffer_Acquire_won, bool_decide_eq_true_2 by done.
    set (s1 := offers.DeclineOffer _ _).
    assert (offers.objects s1 !! p = Some (offers.PLive (offers.liveOffer_Acquire to).2)) as Hp1
      by (cbn; apply lookup_insert_eq).
    destruct (Z_lt_le_dec 0 (offers.LingerTTL s1)).
    + by rewrite (expireOffer_linger s1 now p _ Hp1).
    + by rewrite (expireOffer_stays s1 now p).
  - intros Htaken. subst s'. rewrite (Delete_live s now offerId p to Hg Hp). cbn zeta.
    rewrite liveOffer_Acquire_won, bool_decide_eq_false_2 by done.
    set (s1 := offers.with_timers _ _).
    assert (offers.objects s1 !! p = Some (offers.PLive (offers.liveOffer_Acquire to).2)) as Hp1
      by (cbn; apply lookup_insert_eq).
    destruct (Z_lt_le_dec 0 (offers.LingerTTL s1)).
    + by rewrite (expireOffer_linger s1 now p _ Hp1).
    + by rewrite (expireOffer_stays s1 now p).
  - intros later. apply deferredDecline_declined.
  - intros Hl. rewrite Hs', (expireOffer_linger s2 now p _ Hp2) by lia.
    cbn zeta. exists (fresh (dom (offers.objects s2))).
    assert (offers.objects s2 !! fresh (dom (offers.objects s2)) = None) as Hfresh
      by (apply not_elem_of_dom, is_fresh).
    unfold offers.Get. cbn. rewrite Hoff, Hu, Hl2. split; [apply lookup_insert_eq|].
    split; [|by rewrite lookup_insert_eq].
    rewrite Hobj2 in Hfresh. rewrite Hobj2.
    apply lookup_insert_None in Hfresh. tauto.
  - rewrite Hs'. destruct (Z_lt_le_dec 0 (offers.LingerTTL s2)).
    + rewrite (expireOffer_linger s2 now p _ Hp2) by done. cbn.
      rewrite lookup_insert_ne; [done|].
      intros Heq. pose proof (is_fresh (dom (offers.objects s2))) as Hf.
      rewrite Heq in Hf. apply Hf, elem_of_dom. by eexists.
    + by rewrite (expireOffer_stays s2 now p).
Qed.

Lemma C2_Delete_expires_and_declines_witness :
  offers.declined (offers.Delete 1 "o1" (samples.oneOffer 0)) = ["o1"]
  ∧ offers.timers (offers.Delete 1 "o1" (samples.oneClaimedOffer 5))
    = [{| offers.fireAt := 21; offers.d_offer := 0; offers.d_offerId := "o1" |}]
  ∧ (∃ e, offers.Get (offers.Delete 1 "o1" (samples.oneClaimedOffer 5)) "o1" = Some e
          ∧ offers.objects (offers.Delete 1 "o1" (samples.oneClaimedOffer 5)) !! e
            = Some (offers.PExpired
                      {| offers.id := "o1"; offers.hostname := "h1"; offers.deadline := 6 |}))
  ∧ offers.Delete 100 "o1" samples.oneLingeringOffer = samples.oneLingeringOffer.
Proof.
  pose proof (C2_Delete_expires_and_declines (samples.oneOffer 0) 1 "o1" 0
                (offers.PLive (offers.newLiveOffer 0 10 samples.o1))
                eq_refl eq_refl eq_refl) as Hfree.
  pose proof (C2_Delete_expires_and_declines (samples.oneClaimedOffer 5) 1 "o1" 0
                (offers.PLive {| offers.lo_Offer := samples.o1; offers.expiration := 10;
                                 offers.acquired := 1 |})
                eq_refl eq_refl eq_refl) as Hclaimed.
  pose proof (C2_Delete_expires_and_declines samples.oneLingeringOffer 100 "o1" 1
                (offers.PExpired {| offers.id := "o1"; offers.hostname := "h1";
                                    offers.deadline := 6 |})
                eq_refl eq_refl eq_refl) as Hlingering.
  cbn zeta in Hfree, Hclaimed, Hlingering.
  destruct Hfree as (Hdecl & _).
  destruct Hclaimed as (_ & Htimer & _ & Hlinger & _).
  split; [|split; [|split]].
  - by apply Hdecl.
  - by apply Htimer.
  - destruct Hlinger as (e & He & _ & Hobj); [done|]. by exists e.
  - exact Hlingering.
Defined.

Lemma C2_lingering_entry_counterexample :
  let s := samples.oneLingeringOffer in
  let s' := offers.Delete 100 "o1" s in
  (0 < offers.LingerTTL s)%Z
  ∧ (∃ p, offers.Get s "o1" = Some p ∧ (offers.offer_Acquire p s).1 = false)
  ∧ offers.timers s' = offers.timers s
  ∧ ¬ (∃ e x, offers.Get s' "o1" = Some e
              ∧ offers.objects s' !! e = Some (offers.PExpired x)
              ∧ offers.deadline x = (100 + offers.LingerTTL s)%Z).
Proof.
  cbn zeta. split; [done|]. split; [by exists 1|]. split; [done|].
  intros (e & x & He & Hx & Hd).
  assert (e = 1) as -> by (vm_compute in He; congruence).
  vm_compute in Hx. assert (x = {| offers.id := "o1"; offers.hostname := "h1";
                                   offers.deadline := 6 |}) as -> by congruence.
  vm_compute in Hd. discriminate.
Qed.

(** ** Listeners *)
Section listener_facts.
Import offers.
Context {World : Type}.
Implicit Types s : offerStorage World.
Implicit Types l : offerListener World.

Lemma head_elem {A : Type} (Deadline : A → Z) (q : gmap string A) (x : A) :
  queue.head Deadline q = Some x → ∃ k, q !! k = Some x.
Proof.
  unfold queue.head.
  assert (∀ (kvs : list (string * A)) y,
            foldr (λ kv acc, match acc with
                             | None => Some kv.2
                             | Some y => Some (queue.earlier Deadline kv.2 y)
                             end) None kvs = Some y →
            ∃ kv, kv ∈ kvs ∧ kv.2 = y) as Hfold.
  { induction kvs as [|kv kvs IH]; intros y Hy; [done|].
    cbn in Hy. destruct (foldr _ None kvs) as [z|] eqn:Hz.
    - injection Hy as <-. unfold queue.earlier. case_match.
      + destruct (IH z eq_refl) as (kv' & Hin & Hkv'). exists kv'.
        split; [by apply elem_of_cons; right | done].
      + exists kv. split; [by apply elem_of_cons; left | done].
    - injection Hy as <-. exists kv. split; [by apply elem_of_cons; left | done]. }
  intros Hh. destruct (Hfold _ _ Hh) as ([k y] & Hin & Hy). cbn in Hy. subst y.
  exists k. by apply elem_of_map_to_list.
Qed.

Lemma Pop_Some {A : Type} (GetUID : A → string) (Deadline : A → Z)
    (now : Z) (q : gmap string A) (x : A) (rest : gmap string A) :
  queue.Pop GetUID Deadline now q = Some (x, rest) →
  (∃ k, q !! k = Some x) ∧ rest = delete (GetUID x) q ∧ (Deadline x ≤ now)%Z.
Proof.
  unfold queue.Pop. destruct (queue.head Deadline q) as [y|] eqn:Hh; [|done].
  destruct (Z.leb_spec (Deadline y) now); [|done].
  intros [= <- <-]. split; [by apply head_elem with Deadline|done].
Qed.

Lemma Offer_absent {A : Type} (GetUID : A → string) (x : A)
    (rp : queue.ReplacementPolicy) (q : gmap string A) :
  q !! GetUID x = None → queue.Offer GetUID x rp q = (true, <[GetUID x := x]> q).
Proof. intros Hq. unfold queue.Offer. by rewrite Hq. Qed.

Lemma Offer_replace {A : Type} (GetUID : A → string) (x : A) (q : gmap string A) :
  queue.Offer GetUID x queue.ReplaceExisting q = (true, <[GetUID x := x]> q).
Proof. unfold queue.Offer. by destruct (q !! GetUID x). Qed.

(** The range loop of [notifyListeners] reaches [close] exactly when some
  id of the cache names a stored offer that has not expired and that the
  filter accepts. *)
Lemma findAcceptable_true (w : World) now s l (ids : list string) :
  findAcceptable w now s l ids = true ↔
  ∃ id p d, id ∈ ids ∧ Get s id = Some p ∧ offer_HasExpired now s p = false
            ∧ offer_Details s p = Some d ∧ accepts l w d = true.
Proof.
  induction ids as [|id ids IH]; cbn.
  - split; [done|]. intros (id & p & d & Hin & _). by apply elem_of_nil in Hin.
  - assert ((∃ id' p d, id' ∈ ids ∧ Get s id' = Some p
                        ∧ offer_HasExpired now s p = false
                        ∧ offer_Details s p = Some d ∧ accepts l w d = true) →
            ∃ id' p d, id' ∈ id :: ids ∧ Get s id' = Some p
                       ∧ offer_HasExpired now s p = false
                       ∧ offer_Details s p = Some d ∧ accepts l w d = true) as Hweak.
    { intros (id' & p & d & Hin & Hrest). exists id', p, d.
      split; [by apply elem_of_cons; right | done]. }
    destruct (Get s id) as [p|] eqn:Hg.
    + destruct (offer_HasExpired now s p) eqn:He.
      * rewrite IH. split; [apply Hweak|].
        intros (id' & p' & d & Hin & Hg' & He' & Hrest).
        apply elem_of_cons in Hin as [->|Hin]; [congruence|].
        by exists id', p', d.
      * destruct (offer_Details s p) as [d|] eqn:Hd.
        -- destruct (accepts l w d) eqn:Ha.
           ++ split; [|done]. intros _. exists id, p, d.
              split; [by apply elem_of_cons; left | done].
           ++ rewrite IH. split; [apply Hweak|].
              intros (id' & p' & d' & Hin & Hg' & He' & Hd' & Ha').
              apply elem_of_cons in Hin as [->|Hin]; [congruence|].
              by exists id', p', d'.
        -- rewrite IH. split; [apply Hweak|].
           intros (id' & p' & d' & Hin & Hg' & He' & Hd' & Ha').
           apply elem_of_cons in Hin as [->|Hin]; [congruence|].
           by exists id', p', d'.
    + rewrite IH. split; [apply Hweak|].
      intros (id' & p' & d' & Hin & Hg' & Hrest).
      apply elem_of_cons in Hin as [->|Hin]; [congruence|].
      by exists id', p', d'.
Qed.
Lemma requeue_popped s l (rest : gmap string (offerListener World)) l' :
  rest = delete (GetUID l) (listeners s) → l_id l' = l_id l →
  listeners (requeue l' (with_listeners (λ _, rest) s)) = <[l_id l := l']> rest.
Proof.
  intros -> Hid. unfold requeue. cbn.
  rewrite Offer_absent; unfold GetUID; rewrite Hid; [done|apply lookup_delete_eq].
Qed.

Lemma listeners_ok_subqueue s (q : gmap string (offerListener World)) :
  listeners_ok s → q ⊆ listeners s → listeners_ok (with_listeners (λ _, q) s).
Proof.
  intros (Hown & Hdistinct & Hnodup & Hclosed) Hsub.
  split; [|split; [|split]]; cbn; [| |done|done].
  - intros k l Hl. apply Hown. by eapply lookup_weaken.
  - intros k1 k2 l1 l2 H1 H2. apply Hdistinct; by eapply lookup_weaken.
Qed.

Lemma listeners_ok_requeue s l l' :
  listeners_ok s → listeners s !! l_id l = Some l →
  l_id l' = l_id l → notify l' = notify l →
  listeners_ok
    (with_listeners (λ _, <[l_id l := l']> (delete (l_id l) (listeners s))) s).
Proof.
  intros (Hown & Hdistinct & Hnodup & Hclosed) Hl Hid Hch.
  split; [|split; [|split]]; cbn; [| |done|done].
  - intros k x Hx. apply lookup_insert_Some in Hx as [[<- <-]|[Hne Hx]].
    + split; [done|]. rewrite Hch. by apply (Hown _ _ Hl).
    + apply lookup_delete_Some in Hx as [_ Hx]. by apply Hown.
  - intros k1 k2 x1 x2 H1 H2 Heq.
    apply lookup_insert_Some in H1 as [[<- <-]|[Hne1 H1]];
      apply lookup_insert_Some in H2 as [[<- <-]|[Hne2 H2]]; [done| | |].
    + apply lookup_delete_Some in H2 as [_ H2].
      apply (Hdistinct _ _ _ _ Hl H2). congruence.
    + apply lookup_delete_Some in H1 as [_ H1].
      apply (Hdistinct _ _ _ _ H1 Hl). congruence.
    + apply lookup_delete_Some in H1 as [_ H1].
      apply lookup_delete_Some in H2 as [_ H2]. by apply (Hdistinct _ _ _ _ H1 H2).
Qed.

Lemma listeners_ok_close s l :
  listeners_ok s → listeners s !! l_id l = Some l →
  ∃ s', close (notify l) (with_listeners (λ _, delete (l_id l) (listeners s)) s)
        = Returns s'
        ∧ listeners_ok s'
        ∧ listeners s' = delete (l_id l) (listeners s)
        ∧ chans s' = <[notify l := ChanClosed]> (chans s)
        ∧ closes s' = closes s ++ [notify l].
Proof.
  intros (Hown & Hdistinct & Hnodup & Hclosed) Hl.
  destruct (Hown _ _ Hl) as [_ Hopen].
  unfold close. cbn. rewrite Hopen. eexists. split; [done|].
  split; [|done].
  split; [|split; [|split]]; cbn.
  - intros k x Hx. apply lookup_delete_Some in Hx as [Hne Hx].
    destruct (Hown _ _ Hx) as [Hid Hxopen]. split; [done|].
    rewrite lookup_insert_ne; [done|].
    intros Heq. apply Hne. by apply (Hdistinct _ _ _ _ Hl Hx).
  - intros k1 k2 x1 x2 H1 H2.
    apply lookup_delete_Some in H1 as [_ H1].
    apply lookup_delete_Some in H2 as [_ H2]. by apply Hdistinct.
  - apply NoDup_app. split; [done|]. split; [|apply NoDup_singleton].
    intros ch Hin Hin'. apply list_elem_of_singleton in Hin' as ->.
    apply Hclosed in Hin. congruence.
  - intros ch Hin. apply elem_of_app in Hin as [Hin|Hin].
    + destruct (decide (ch = notify l)) as [->|Hne];
        [apply lookup_insert_eq | rewrite lookup_insert_ne by done; by apply Hclosed].
    + apply list_elem_of_singleton in Hin as ->. apply lookup_insert_eq.
Qed.

Lemma listeners_ok_Listen s now id (f : option (Filter (World := World))) :
  listeners_ok s → listeners_ok (Listen now id f s).2.
Proof.
  intros Hok. destruct f as [f|]; [|done].
  destruct Hok as (Hown & Hdistinct & Hnodup & Hclosed).
  pose proof (is_fresh (dom (chans s))) as Hfresh.
  apply not_elem_of_dom in Hfresh.
  unfold Listen, listeners_ok. cbn -[queue.Offer]. rewrite Offer_replace. cbn.
  split; [|split; [|split]]; [| |done|].
  - intros k x Hx. apply lookup_insert_Some in Hx as [[<- <-]|[Hne Hx]]; cbn.
    + split; [done|apply lookup_insert_eq].
    + destruct (Hown _ _ Hx) as [Hid Hopen]. split; [done|].
      rewrite lookup_insert_ne; [done|]. intros Heq. congruence.
  - intros k1 k2 x1 x2 H1 H2 Heq.
    apply lookup_insert_Some in H1 as [[<- <-]|[Hne1 H1]];
      apply lookup_insert_Some in H2 as [[<- <-]|[Hne2 H2]]; cbn in *; [done| | |].
    + destruct (Hown _ _ H2) as [_ Hopen]. congruence.
    + destruct (Hown _ _ H1) as [_ Hopen]. congruence.
    + by apply (Hdistinct _ _ _ _ H1 H2).
  - intros ch Hin. specialize (Hclosed ch Hin).
    rewrite lookup_insert_ne; [done|]. intros Heq. congruence.
Qed.
Lemma same_listeners_trans s1 s2 s3 :
  same_listeners s1 s2 → same_listeners s2 s3 → same_listeners s1 s3.
Proof. unfold same_listeners. intros (-> & -> & ->) (-> & -> & ->). done. Qed.

Lemma same_listeners_Acquire s p : same_listeners s (offer_Acquire p s).2.
Proof.
  unfold offer_Acquire. destruct (objects s !! p) as [o|]; [|done].
  by destruct (Acquire o).
Qed.

Lemma same_listeners_expireOffer s now p : same_listeners s (expireOffer now p s).
Proof.
  unfold expireOffer. destruct (offer_Details s p); [|done].
  by destruct (0 <? LingerTTL s)%Z.
Qed.

Lemma same_listeners_Delete s now offerId : same_listeners s (Delete now offerId s).
Proof.
  unfold Delete. destruct (Get s offerId) as [p|]; [|done].
  pose proof (same_listeners_Acquire s p) as Ha.
  destruct (offer_Acquire p s) as [won s1]. cbn in Ha.
  eapply same_listeners_trans; [exact Ha|].
  eapply same_listeners_trans; [|apply same_listeners_expireOffer].
  destruct (offer_Details s1 p); [|done]. by destruct won.
Qed.

Lemma same_listeners_invalidate s now p :
  same_listeners s (expireOffer now p (offer_Acquire p s).2).
Proof.
  eapply same_listeners_trans;
    [apply same_listeners_Acquire | apply same_listeners_expireOffer].
Qed.

Lemma same_listeners_Invalidate s now offerId :
  same_listeners s (Invalidate now offerId s).
Proof.
  unfold Invalidate, invalidateOne. case_decide.
  - destruct (Get s offerId); [apply same_listeners_invalidate | done].
  - generalize ((map_to_list (offers s)).*2). intros ps. revert s.
    induction ps as [|p ps IH]; intros s; [done|]. cbn.
    eapply same_listeners_trans; [apply same_listeners_invalidate | apply IH].
Qed.

Lemma same_listeners_Add s now offs : same_listeners s (Add now offs s).
Proof.
  unfold Add. revert s. induction offs as [|o offs IH]; intros s; [done|].
  cbn. eapply same_listeners_trans; [|apply IH]. done.
Qed.

Lemma listeners_ok_same s s' : same_listeners s s' → listeners_ok s → listeners_ok s'.
Proof. unfold listeners_ok. by intros (-> & -> & ->). Qed.

Lemma listeners_ok_CreateRegistry ttl lingerTTL listenerDelay :
  listeners_ok (CreateRegistry (World := World) ttl lingerTTL listenerDelay).
Proof.
  split; [|split; [|split]]; cbn.
  - intros k l Hl. by rewrite lookup_empty in Hl.
  - intros k1 k2 l1 l2 Hl. by rewrite lookup_empty in Hl.
  - apply NoDup_nil_2.
  - intros ch Hin. by apply elem_of_nil in Hin.
Qed.

Lemma listeners_ok_notifyListeners (w : World) now ids version s :
  listeners_ok s →
  notifyListeners w now ids version s = Blocks
  ∨ ∃ s', notifyListeners w now ids version s = Returns s' ∧ listeners_ok s'.
Proof.
  intros Hok. unfold notifyListeners.
  destruct (queue.Pop GetUID Deadline now (listeners s)) as [[l rest]|] eqn:Hpop;
    [right|by left].
  apply Pop_Some in Hpop as ((k & Hk) & -> & _).
  assert (listeners s !! l_id l = Some l) as Hl.
  { destruct Hok as (Hown & _). destruct (Hown _ _ Hk) as [-> _]. done. }
  assert (∀ l', l_id l' = l_id l → notify l' = notify l →
                listeners_ok (requeue l' (with_listeners (λ _, delete (GetUID l) (listeners s)) s)))
    as Hrequeue.
  { intros l' Hid Hch.
    pose proof (requeue_popped s l _ l' eq_refl Hid) as Hq.
    pose proof (listeners_ok_requeue s l l' Hok Hl Hid Hch) as Hok'.
    eapply listeners_ok_same; [|exact Hok'].
    split; [|done]. cbn in *. by rewrite Hq. }
  unfold notifyListener. case_decide.
  - eexists. split; [done|]. by apply Hrequeue.
  - case_match.
    + destruct (listeners_ok_close s l Hok Hl) as (s' & Hc & Hok' & _).
      exists s'. split; [exact Hc|done].
    + case_match.
      * eexists. split; [done|]. by apply Hrequeue.
      * eexists. split; [done|]. apply listeners_ok_subqueue; [done|].
        apply delete_subseteq.
Qed.

Lemma listeners_ok_acts (actions : list (action World)) s :
  listeners_ok s → ∃ s', acts actions s = Returns s' ∧ listeners_ok s'.
Proof.
  revert s. induction actions as [|a actions IH]; intros s Hok; [by exists s|].
  cbn.
  assert (∃ s1, act a s = Returns s1 ∧ listeners_ok s1) as (s1 & -> & Hok1).
  { destruct a as [now offs|now offerId|now offerId|now id f|w now ids v]; cbn.
    - eexists. split; [done|].
      eapply listeners_ok_same; [apply same_listeners_Add|done].
    - eexists. split; [done|].
      eapply listeners_ok_same; [apply same_listeners_Delete|done].
    - eexists. split; [done|].
      eapply listeners_ok_same; [apply same_listeners_Invalidate|done].
    - eexists. split; [done|]. by apply listeners_ok_Listen.
    - destruct (listeners_ok_notifyListeners w now ids v s Hok) as [->|(s' & -> & Hok')];
        [by exists s | by exists s']. }
  by apply IH.
Qed.
End listener_facts.

(** C10.  Listen with a nil filter answers the nil channel and leaves the
  registry as it was, so that no listener is registered.  With a filter it
  answers a channel that did not exist before and is open, and offers the
  new listener (age 0, deadline now + ListenerDelay) to the listener queue
  with the ReplaceExisting policy, so that it takes the place of any
  listener queued under the same id and leaves the others alone. *)
Theorem C10_Listen_nil_filter_and_fresh_channel {World : Type}
    (s : offers.offerStorage World) (now : Z) (id : string) :
  offers.Listen now id None s = (None, s)
  ∧ ∀ f : offers.Filter,
      ∃ ch,
        let s' := (offers.Listen now id (Some f) s).2 in
        let listen := {| offers.l_id := id; offers.accepts := f; offers.notify := ch;
                         offers.age := 0;
                         offers.l_deadline := (now + offers.ListenerDelay s)%Z;
                         offers.sawVersion := 0 |} in
        (offers.Listen now id (Some f) s).1 = Some ch
        ∧ offers.chans s !! ch = None
        ∧ offers.chans s' = <[ch := offers.ChanOpen]> (offers.chans s)
        ∧ offers.closes s' = offers.closes s
        ∧ offers.listeners s' =
            (queue.Offer offers.GetUID listen queue.ReplaceExisting (offers.listeners s)).2
        ∧ offers.listeners s' !! id = Some listen
        ∧ (∀ id', id' ≠ id → offers.listeners s' !! id' = offers.listeners s !! id').
Proof.
  split; [done|]. intros f. exists (fresh (dom (offers.chans s))). cbn.
  rewrite Offer_replace. cbn.
  split; [done|]. split; [apply not_elem_of_dom, is_fresh|].
  split; [done|]. split; [done|]. split; [done|].
  split; [apply lookup_insert_eq|].
  intros id' Hne. by rewrite lookup_insert_ne.
Qed.

Lemma C10_Listen_nil_filter_and_fresh_channel_witness :
  offers.Listen 0 "pod1" None (samples.oneOffer 0) = (None, samples.oneOffer 0)
  ∧ ∃ ch, (offers.Listen 0 "pod1" (Some samples.acceptAll) (samples.oneOffer 0)).1 = Some ch
          ∧ offers.chans (samples.oneOffer 0) !! ch = None
          ∧ offers.listeners
              (offers.Listen 0 "pod1" (Some samples.acceptAll) (samples.oneOffer 0)).2
            !! "pod2"
            = offers.listeners (samples.oneOffer 0) !! "pod2".
Proof.
  pose proof (C10_Listen_nil_filter_and_fresh_channel (samples.oneOffer 0) 0 "pod1")
    as [Hnil Hlisten].
  split; [exact Hnil|].
  destruct (Hlisten samples.acceptAll) as (ch & Hch & Hfresh & _ & _ & _ & _ & Hothers).
  exists ch. split; [exact Hch|]. split; [exact Hfresh|].
  apply Hothers. discriminate.
Defined.

(** C7.  One sweep of notifyListeners over the listener that Pop returned.
  If its sawVersion equals the version of the offer-id cache it is put
  back with its age unchanged.  Otherwise the cached ids are scanned; if
  one of them names a stored offer that has not expired and that the
  filter accepts, the notify channel is closed (one close call, the
  channel goes from open to closed) and the listener is not put back;
  if none does, the age grows by one and the listener is put back when
  the new age is below 12 and is dropped, its channel untouched, when it
  is not.  Over any history of a registry (offers added, deleted and
  invalidated, listeners registered, sweeps run) no close panics and no
  channel is closed twice. *)
Theorem C7_notification_sweep {World : Type} (w : World) (now : Z)
    (offerIds : list string) (version : N) (s : offers.offerStorage World)
    (listener : offers.offerListener World)
    (rest : gmap string (offers.offerListener World)) :
  queue.Pop offers.GetUID offers.Deadline now (offers.listeners s)
    = Some (listener, rest) →
  let r := offers.notifyListeners w now offerIds version s in
  let found :=
    ∃ id p d, id ∈ offerIds ∧ offers.Get s id = Some p
              ∧ offers.offer_HasExpired now s p = false
              ∧ offers.offer_Details s p = Some d
              ∧ offers.accepts listener w d = true in
  rest !! offers.l_id listener = None
  ∧ (offers.sawVersion listener = version →
     ∃ s' l', r = Returns s'
       ∧ offers.listeners s' = <[offers.l_id listener := l']> rest
       ∧ offers.age l' = offers.age listener
       ∧ offers.notify l' = offers.notify listener
       ∧ offers.l_deadline l' = (now + offers.ListenerDelay s)%Z
       ∧ offers.chans s' = offers.chans s
       ∧ offers.closes s' = offers.closes s)
  ∧ (offers.sawVersion listener ≠ version → found →
     offers.chans s !! offers.notify listener = Some offers.ChanOpen →
     ∃ s', r = Returns s'
       ∧ offers.chans s' = <[offers.notify listener := offers.ChanClosed]> (offers.chans s)
       ∧ offers.closes s' = offers.closes s ++ [offers.notify listener]
       ∧ offers.listeners s' = rest)
  ∧ (offers.sawVersion listener ≠ version → ¬ found →
     (offers.age listener + 1 < 12)%Z →
     ∃ s' l', r = Returns s'
       ∧ offers.listeners s' = <[offers.l_id listener := l']> rest
       ∧ offers.age l' = (offers.age listener + 1)%Z
       ∧ offers.sawVersion l' = version
       ∧ offers.notify l' = offers.notify listener
       ∧ offers.chans s' = offers.chans s
       ∧ offers.closes s' = offers.closes s)
  ∧ (offers.sawVersion listener ≠ version → ¬ found →
     (12 ≤ offers.age listener + 1)%Z →
     ∃ s', r = Returns s'
       ∧ offers.listeners s' = rest
       ∧ offers.chans s' = offers.chans s
       ∧ offers.closes s' = offers.closes s)
  ∧ (∀ ttl lingerTTL listenerDelay (history : list (offers.action World)),
       ∃ s', offers.acts history (offers.CreateRegistry ttl lingerTTL listenerDelay)
             = Returns s'
             ∧ NoDup (offers.closes s')).
Proof.
  intros Hpop r found.
  pose proof Hpop as Hpop'. apply Pop_Some in Hpop' as (_ & Hrest & _).
  assert (rest !! offers.l_id listener = None) as Hnone
    by (rewrite Hrest; apply lookup_delete_eq).
  assert (r = offers.notifyListener w now offerIds version listener
                (offers.with_listeners (λ _, rest) s)) as Hr
    by (subst r; unfold offers.notifyListeners; by rewrite Hpop).
  assert (∀ l', offers.l_id l' = offers.l_id listener →
                offers.listeners
                  (offers.requeue l' (offers.with_listeners (λ _, rest) s))
                = <[offers.l_id listener := l']> rest) as Hrequeue
    by (intros l' Hid; by apply requeue_popped).
  assert (offers.findAcceptable w now (offers.with_listeners (λ _, rest) s)
            (offers.with_sawVersion version listener) offerIds = true ↔ found)
    as Hfound by apply findAcceptable_true.
  split; [done|]. split; [|split; [|split; [|split]]].
  - intros Hv. rewrite Hr. unfold offers.notifyListener.
    rewrite decide_True by done.
    eexists _, _. split; [done|]. split; [by apply Hrequeue|]. done.
  - intros Hv Hf Hopen. rewrite Hr. unfold offers.notifyListener.
    rewrite decide_False by done. apply Hfound in Hf. rewrite Hf.
    unfold offers.close. cbn. rewrite Hopen. by eexists.
  - intros Hv Hf Hage. rewrite Hr. unfold offers.notifyListener.
    rewrite decide_False by done.
    destruct (offers.findAcceptable _ _ _ _ _) eqn:Ef; [exfalso; by apply Hf, Hfound|].
    cbn [offers.age offers.with_age]. unfold offers.offerListenerMaxAge.
    destruct (Z.ltb_spec (offers.age (offers.with_sawVersion version listener) + 1) 12)
      as [_|Hge]; [|cbn in Hge; lia].
    eexists _, _. split; [done|]. split; [by apply Hrequeue|]. done.
  - intros Hv Hf Hage. rewrite Hr. unfold offers.notifyListener.
    rewrite decide_False by done.
    destruct (offers.findAcceptable _ _ _ _ _) eqn:Ef; [exfalso; by apply Hf, Hfound|].
    cbn [offers.age offers.with_age]. unfold offers.offerListenerMaxAge.
    destruct (Z.ltb_spec (offers.age (offers.with_sawVersion version listener) + 1) 12)
      as [Hlt|_]; [cbn in Hlt; lia|].
    by eexists.
  - intros ttl lingerTTL listenerDelay history.
    destruct (listeners_ok_acts history
                (offers.CreateRegistry ttl lingerTTL listenerDelay)
                (listeners_ok_CreateRegistry ttl lingerTTL listenerDelay))
      as (s' & Hs' & Hok).
    exists s'. split; [done|]. by destruct Hok as (_ & _ & Hnodup & _).
Qed.

Lemma C7_notification_sweep_witness :
  (∃ s', offers.notifyListeners tt 1 ["o1"] 1 samples.oneListener = Returns s'
         ∧ offers.closes s' = [0]
         ∧ offers.listeners s' = ∅)
  ∧ (∃ s' l', offers.notifyListeners tt 1 ["o1"] 0 samples.oneListener = Returns s'
         ∧ offers.listeners s' = {[ "pod1" := l' ]}
         ∧ offers.age l' = 0%Z
         ∧ offers.closes s' = [])
  ∧ (∃ s' l', offers.notifyListeners tt 1 [] 1 samples.oneListener = Returns s'
         ∧ offers.listeners s' = {[ "pod1" := l' ]}
         ∧ offers.age l' = 1%Z
         ∧ offers.closes s' = []).
Proof.
  assert (queue.Pop offers.GetUID offers.Deadline 1 (offers.listeners samples.oneListener)
          = Some (samples.theListener, ∅)) as Hpop by (vm_compute; reflexivity).
  assert (offers.sawVersion samples.theListener ≠ 1%N) as Hv by (cbn; discriminate).
  split; [|split].
  - pose proof (C7_notification_sweep tt 1 ["o1"] 1 samples.oneListener
                  samples.theListener ∅ Hpop) as Hsweep.
    cbv zeta in Hsweep. destruct Hsweep as (_ & _ & Hclose & _).
    assert (∃ id p d, id ∈ ["o1"] ∧ offers.Get samples.oneListener id = Some p
              ∧ offers.offer_HasExpired 1 samples.oneListener p = false
              ∧ offers.offer_Details samples.oneListener p = Some d
              ∧ offers.accepts samples.theListener tt d = true) as Hfound.
    { exists "o1", 0, samples.o1.
      split; [apply list_elem_of_singleton; reflexivity|].
      vm_compute. repeat split. }
    assert (offers.chans samples.oneListener !! offers.notify samples.theListener
            = Some offers.ChanOpen) as Hopen by (vm_compute; reflexivity).
    destruct (Hclose Hv Hfound Hopen) as (s' & Hr & _ & Hcloses & Hq).
    exists s'. split; [exact Hr|]. split; [exact Hcloses|exact Hq].
  - pose proof (C7_notification_sweep tt 1 ["o1"] 0 samples.oneListener
                  samples.theListener ∅ Hpop) as Hsweep.
    cbv zeta in Hsweep. destruct Hsweep as (_ & Hsame & _).
    destruct (Hsame eq_refl) as (s' & l' & Hr & Hq & Hage & _ & _ & _ & Hcloses).
    exists s', l'. split; [exact Hr|]. split; [exact Hq|].
    split; [exact Hage|exact Hcloses].
  - pose proof (C7_notification_sweep tt 1 [] 1 samples.oneListener
                  samples.theListener ∅ Hpop) as Hsweep.
    cbv zeta in Hsweep. destruct Hsweep as (_ & _ & _ & Hage & _).
    assert (¬ ∃ id p d, id ∈ [] ∧ offers.Get samples.oneListener id = Some p
              ∧ offers.offer_HasExpired 1 samples.oneListener p = false
              ∧ offers.offer_Details samples.oneListener p = Some d
              ∧ offers.accepts samples.theListener tt d = true) as Hnone.
    { intros (id & p & d & Hin & _). apply elem_of_nil in Hin. exact Hin. }
    assert (offers.age samples.theListener + 1 < 12)%Z as Hlt by (cbn; lia).
    destruct (Hage Hv Hnone Hlt) as (s' & l' & Hr & Hq & Hage' & _ & _ & _ & Hcloses).
    exists s', l'. split; [exact Hr|]. split; [exact Hq|].
    split; [exact Hage'|exact Hcloses].
Defined.

(** ** The scheduler plugin *)
Section plugin_facts.
Import podtask scheduler.
Context `{Collaborators}.
Implicit Types k : KubernetesScheduler.

Lemma Get_Some (r : Registry) taskId p t :
  Get r taskId = Some (p, t) ↔
  taskRegistry r !! taskId = Some p ∧ taskObjects r !! p = Some t.
Proof.
  unfold Get. split.
  - intros Hg. destruct (taskRegistry r !! taskId) as [q|]; [|done]. cbn in Hg.
    destruct (taskObjects r !! q) as [u|] eqn:Hq; [|done]. cbn in Hg.
    by simplify_eq.
  - intros [-> Ht]. cbn. by rewrite Ht.
Qed.

Lemma getTask_object k taskId p t :
  getTask k taskId = Some (p, t) → taskObjects (tasks k) !! p = Some t.
Proof. unfold getTask. intros Hg. by apply Get_Some in Hg as [_ ?]. Qed.

Lemma releaseAndClear_Returns k p t o :
  taskObjects (tasks k) !! p = Some t → Offer t = Some o →
  releaseAndClear p k =
    Returns (with_tasks (update p ClearTaskInfo)
               (with_offerReg (offers.offer_Release o) k)).
Proof.
  intros Ht Ho. unfold releaseAndClear, releaseOffer. by rewrite Ht, Ho.
Qed.

Lemma update_lookup (r : Registry) p (f : T → T) t :
  taskObjects r !! p = Some t → taskObjects (update p f r) !! p = Some (f t).
Proof. intros Ht. cbn. by rewrite lookup_alter_eq, Ht. Qed.

Lemma Get_update (r : Registry) p (f : T → T) taskId t :
  Get r taskId = Some (p, t) → Get (update p f r) taskId = Some (p, f t).
Proof.
  intros Hg. apply Get_Some in Hg as [Hr Ht]. apply Get_Some.
  split; [done|]. by apply update_lookup.
Qed.

Lemma Get_Unregister (r : Registry) p t :
  taskObjects r !! p = Some t →
  TaskForPod (Unregister p r) (podKey t) = None
  ∧ Get (Unregister p r) (ID t) = None
  ∧ taskObjects (Unregister p r) = taskObjects r.
Proof.
  intros Ht. unfold Unregister, TaskForPod, Get. rewrite Ht. cbn.
  by rewrite !lookup_delete_eq.
Qed.
End plugin_facts.

(** C5.  deleteOne first removes the pod from the scheduling queue by its
  uid and then resolves the pod key to a task.  Without a task it answers
  noSuchPod.  For a task that is Pending and not Launched it releases the
  task's offer (the acquired flag of the offer is 0 afterwards and the
  offer can be acquired again, every other offer and the entries of the
  registry stay as they are) and clears the task info when an offer was
  accepted, unregisters the task and answers nil; KillTask is not called.
  For a
  task that is Pending and Launched, or Running, it sets the Deleted flag
  and answers what driver.KillTask(taskId) answers.  For a task in any
  other state it answers noSuchTask. *)
Theorem C5_deleteOne_by_task_state `{scheduler.Collaborators}
    (a : scheduler.answers) (pod : scheduler.QueuedPod)
    (k : scheduler.KubernetesScheduler) (key : string) :
  scheduler.MakePodKey (podtask.Namespace (scheduler.qp_Pod pod))
    (podtask.Name (scheduler.qp_Pod pod)) = inr key →
  let r := scheduler.deleteOne a pod k in
  let k0 := scheduler.dequeue (scheduler.QueuedPod_GetUID pod) k in
  scheduler.podQueue k0 = delete (scheduler.QueuedPod_GetUID pod) (scheduler.podQueue k)
  ∧ (scheduler.taskForPod k key = None → r = Returns (Some noSuchPodErr, k0))
  ∧ (∀ taskId, scheduler.taskForPod k key = Some taskId →
       scheduler.getTask k taskId = None → r = Returns (Some noSuchTaskErr, k0))
  ∧ (∀ taskId p task,
       scheduler.taskForPod k key = Some taskId →
       scheduler.getTask k taskId = Some (p, task) →
       (podtask.State task = podtask.StatePending →
        podtask.Has podtask.Launched task = false →
        podtask.podKey task = key → podtask.ID task = taskId →
        (podtask.HasAcceptedOffer task = true → is_Some (podtask.Offer task)) →
        ∃ k' t', r = Returns (None, k')
          ∧ scheduler.podQueue k' = scheduler.podQueue k0
          ∧ scheduler.killed k' = scheduler.killed k
          ∧ scheduler.taskForPod k' key = None
          ∧ scheduler.getTask k' taskId = None
          ∧ podtask.taskObjects (scheduler.tasks k') !! p = Some t'
          ∧ podtask.TaskInfo_ t' = None
          ∧ (podtask.HasAcceptedOffer task = true →
             podtask.Offer t' = None
             ∧ offers.offers (scheduler.offerReg k')
               = offers.offers (scheduler.offerReg k)
             ∧ offers.declined (scheduler.offerReg k')
               = offers.declined (scheduler.offerReg k)
             ∧ ∀ o, podtask.Offer task = Some o →
                 (∀ q, q ≠ o →
                    offers.objects (scheduler.offerReg k') !! q
                    = offers.objects (scheduler.offerReg k) !! q)
                 ∧ ∀ to,
                     offers.objects (scheduler.offerReg k) !! o
                     = Some (offers.PLive to) →
                     (offers.acquired to = 0 ∨ offers.acquired to = 1)%Z →
                     offers.objects (scheduler.offerReg k') !! o
                     = Some (offers.PLive
                               {| offers.lo_Offer := offers.lo_Offer to;
                                  offers.expiration := offers.expiration to;
                                  offers.acquired := 0 |})
                     ∧ (offers.offer_Acquire o (scheduler.offerReg k')).1 = true)
          ∧ (podtask.HasAcceptedOffer task = false →
             t' = task ∧ scheduler.offerReg k' = scheduler.offerReg k))
       ∧ ((podtask.State task = podtask.StatePending
           ∧ podtask.Has podtask.Launched task = true)
          ∨ podtask.State task = podtask.StateRunning →
          ∃ k', r = Returns (scheduler.driver_KillTask a taskId, k')
            ∧ scheduler.podQueue k' = scheduler.podQueue k0
            ∧ scheduler.killed k' = scheduler.killed k ++ [taskId]
            ∧ scheduler.getTask k' taskId = Some (p, podtask.Set_ podtask.Deleted task)
            ∧ podtask.Has podtask.Deleted (podtask.Set_ podtask.Deleted task) = true
            ∧ scheduler.offerReg k' = scheduler.offerReg k)
       ∧ (podtask.State task = podtask.StateFinished
          ∨ podtask.State task = podtask.StateUnknown →
          r = Returns (Some noSuchTaskErr, k0))).
Proof.
  intros Hkey r k0. subst r. unfold scheduler.deleteOne. rewrite Hkey.
  fold k0.
  change (scheduler.taskForPod k0 key) with (scheduler.taskForPod k key).
  split; [done|]. split; [by intros ->|]. split.
  { intros taskId -> Hg.
    change (scheduler.getTask k0 taskId) with (scheduler.getTask k taskId).
    by rewrite Hg. }
  intros taskId p task -> Hg.
  change (scheduler.getTask k0 taskId) with (scheduler.getTask k taskId).
  rewrite Hg. pose proof (getTask_object k taskId p task Hg) as Hobj.
  split; [|split].
  - intros Hst Hl Hpk Hid Hoffer. rewrite Hst, Hl. cbn [negb].
    destruct (podtask.HasAcceptedOffer task) eqn:Hacc.
    + destruct (Hoffer eq_refl) as [o Ho].
      rewrite (releaseAndClear_Returns k0 p task o Hobj Ho).
      destruct (Get_Unregister (podtask.update p podtask.ClearTaskInfo (scheduler.tasks k)) p
                  (podtask.ClearTaskInfo task)) as (Hpod & Htask & Hobjs);
        [by apply update_lookup|].
      eexists _, (podtask.ClearTaskInfo task). split; [done|].
      split; [done|]. split; [done|].
      split; [by rewrite <- Hpk|]. split; [by rewrite <- Hid|].
      split; [cbn in *; rewrite Hobjs; cbn; by rewrite lookup_alter_eq, Hobj|].
      split; [done|]. split; [|done].
      intros _. split; [done|]. split; [done|]. split; [done|].
      intros o' Ho'. assert (o' = o) as -> by congruence.
      split; [intros q Hq; cbn; by rewrite lookup_alter_ne|].
      intros to Hto Hflag.
      assert (offers.objects
                (scheduler.offerReg
                   (scheduler.unregisterPodTask p
                      (scheduler.with_tasks (podtask.update p podtask.ClearTaskInfo)
                         (scheduler.with_offerReg (offers.offer_Release o) k0)))) !! o
              = Some (offers.PLive {| offers.lo_Offer := offers.lo_Offer to;
                                      offers.expiration := offers.expiration to;
                                      offers.acquired := 0 |})) as Hnew.
      { cbn. rewrite lookup_alter_eq, Hto. cbn.
        unfold offers.liveOffer_Release, offers.CompareAndSwapInt32.
        destruct Hflag as [E|E]; by rewrite E. }
      split; [exact Hnew|]. unfold offers.offer_Acquire. by rewrite Hnew.
    + destruct (Get_Unregister (scheduler.tasks k) p task Hobj) as (Hpod & Htask & Hobjs).
      eexists _, task. split; [done|].
      split; [done|]. split; [done|].
      split; [by rewrite <- Hpk|]. split; [by rewrite <- Hid|].
      split; [cbn in *; by rewrite Hobjs|].
      split; [|done].
      unfold podtask.HasAcceptedOffer in Hacc.
      apply bool_decide_eq_false_1 in Hacc.
      destruct (podtask.TaskInfo_ task) eqn:Hti; [|done].
      exfalso. apply Hacc. by eexists.
  - intros Hcase.
    assert (∃ k', scheduler.markDeletedAndKill a p taskId k0
                  = (scheduler.driver_KillTask a taskId, k')
                  ∧ scheduler.podQueue k' = scheduler.podQueue k0
                  ∧ scheduler.killed k' = scheduler.killed k ++ [taskId]
                  ∧ scheduler.getTask k' taskId
                    = Some (p, podtask.Set_ podtask.Deleted task)
                  ∧ podtask.Has podtask.Deleted (podtask.Set_ podtask.Deleted task) = true
                  ∧ scheduler.offerReg k' = scheduler.offerReg k)
      as (k' & Hk' & Hrest).
    { eexists. split; [done|]. split; [done|]. split; [done|].
      split; [by apply Get_update|]. split; [|done].
      unfold podtask.Has. apply bool_decide_eq_true_2. cbn.
      apply elem_of_union. left. by apply elem_of_singleton. }
    exists k'. split; [|done].
    destruct Hcase as [[Hst Hl]| Hst]; rewrite Hst; [rewrite Hl; cbn [negb]|];
      by rewrite Hk'.
  - intros [Hst|Hst]; by rewrite Hst.
Qed.

Lemma C5_deleteOne_by_task_state_witness :
  (∃ k', scheduler.deleteOne (H := samples.schedulerCollaborators)
           samples.answersOk samples.queuedPod1 samples.scheduled1
         = Returns (None, k')
         ∧ scheduler.killed k' = []
         ∧ scheduler.taskForPod k' "/pods/default/web" = None
         ∧ scheduler.podQueue k' = ∅
         ∧ offers.objects (scheduler.offerReg k') !! 0
           = Some (offers.PLive {| offers.lo_Offer := samples.o1;
                                   offers.expiration := 10;
                                   offers.acquired := 0 |}))
  ∧ (∃ k', scheduler.deleteOne (H := samples.schedulerCollaborators)
             samples.answersOk samples.queuedPod1 samples.launched1
           = Returns (None, k')
           ∧ scheduler.killed k' = ["task1"])
  ∧ scheduler.deleteOne (H := samples.schedulerCollaborators)
      samples.answersOk samples.queuedPod1 samples.scheduler0
    = Returns (Some noSuchPodErr,
               scheduler.dequeue (H := samples.schedulerCollaborators) "uid-1"
                 samples.scheduler0).
Proof.
  split; [|split].
  - pose proof (C5_deleteOne_by_task_state (H := samples.schedulerCollaborators)
                  samples.answersOk samples.queuedPod1 samples.scheduled1
                  "/pods/default/web" eq_refl) as Hdel.
    cbv zeta in Hdel. destruct Hdel as (_ & _ & _ & Htask).
    destruct (Htask "task1" 0 samples.task1Scheduled) as (Hpending & _).
    + vm_compute. reflexivity.
    + vm_compute. reflexivity.
    + destruct Hpending as (k' & t' & Hr & Hq & Hkilled & Hpod & _ & _ & _ & Hrel & _).
      * reflexivity.
      * vm_compute. reflexivity.
      * reflexivity.
      * reflexivity.
      * intros _. eexists. reflexivity.
      * exists k'. split; [exact Hr|]. split; [exact Hkilled|].
        split; [exact Hpod|]. split; [rewrite Hq; vm_compute; reflexivity|].
        destruct (Hrel eq_refl) as (_ & _ & _ & Hobj).
        destruct (Hobj 0 eq_refl) as [_ Hflag].
        apply (Hflag {| offers.lo_Offer := samples.o1; offers.expiration := 10;
                        offers.acquired := 1 |}); [vm_compute; reflexivity|by right].
  - pose proof (C5_deleteOne_by_task_state (H := samples.schedulerCollaborators)
                  samples.answersOk samples.queuedPod1 samples.launched1
                  "/pods/default/web" eq_refl) as Hdel.
    cbv zeta in Hdel. destruct Hdel as (_ & _ & _ & Htask).
    destruct (Htask "task1" 0 samples.task1Launched) as (_ & Hkill & _).
    + vm_compute. reflexivity.
    + vm_compute. reflexivity.
    + destruct Hkill as (k' & Hr & _ & Hkilled & _).
      * left. split; [reflexivity | vm_compute; reflexivity].
      * exists k'. split; [exact Hr|exact Hkilled].
  - pose proof (C5_deleteOne_by_task_state (H := samples.schedulerCollaborators)
                  samples.answersOk samples.queuedPod1 samples.scheduler0
                  "/pods/default/web" eq_refl) as Hdel.
    cbv zeta in Hdel. destruct Hdel as (_ & Hnone & _).
    apply Hnone. vm_compute. reflexivity.
Defined.

Section schedule_facts.
Import podtask scheduler.
Context `{Collaborators}.
Implicit Types k : KubernetesScheduler.

(** Placement on a registered task: [doSchedule] calls the placement function
  once, returns, and registers nothing. *)
Lemma doSchedule_places k now p t :
  taskObjects (tasks k) !! p = Some t →
  ∃ res k', doSchedule now (Some p) None k = Returns (res, k')
    ∧ placed k' = placed k ++ [p]
    ∧ taskRegistry (tasks k') = taskRegistry (tasks k)
    ∧ podToTask (tasks k') = podToTask (tasks k).
Proof.
  intros Ht. unfold doSchedule.
  destruct (scheduleFunc (offerReg k) (slaves k) (tasks k) p) as [[e|offer] reg].
  - by eexists _, _.
  - destruct (offers.offer_Details _ offer) as [details|]; [|by eexists _, _].
    destruct (slaveFor _ (offers.SlaveId details)) as [slave|]; [|by eexists _, _].
    cbn [tasks with_placed with_offerReg]. rewrite Ht.
    case_bool_decide; by eexists _, _.
Qed.
End schedule_facts.

(** C3.  Schedule, for a pod whose key can be built.  When no task is
  registered for the key and the pod-update queue reports a DELETE event
  for the pod, Schedule answers noSuchPod, registers no task and runs no
  placement.  When a task is registered that is Pending, not Launched and
  carries the uid of the pod, Schedule is placement on that task: the
  placement function is called once, for that task, and no task is
  registered.  When the uids differ, or the task is Launched, or it is
  not Pending (which includes a task id that resolves to no task),
  Schedule answers an error and changes nothing, so that no placement
  runs. *)
Theorem C3_Schedule_by_registered_task `{scheduler.Collaborators}
    (now : Z) (newTaskId : string) (pod : podtask.Pod)
    (k : scheduler.KubernetesScheduler) (key : string) :
  scheduler.MakePodKey (podtask.Namespace pod) (podtask.Name pod) = inr key →
  let r := scheduler.Schedule now newTaskId pod k in
  (scheduler.taskForPod k key = None →
   (∀ podName, scheduler.MetaNamespaceKeyFunc pod = inr podName →
               (scheduler.Poll (scheduler.podUpdates k) podName queue.DELETE_EVENT).1 = true) →
   ∃ k', r = Returns (("", Some noSuchPodErr), k')
     ∧ scheduler.tasks k' = scheduler.tasks k
     ∧ scheduler.placed k' = scheduler.placed k
     ∧ scheduler.offerReg k' = scheduler.offerReg k)
  ∧ (∀ taskId p task,
       scheduler.taskForPod k key = Some taskId →
       scheduler.getTask k taskId = Some (p, task) →
       (podtask.State task = podtask.StatePending →
        podtask.Has podtask.Launched task = false →
        podtask.UID pod = podtask.UID (podtask.Pod_ task) →
        r = scheduler.doSchedule now (Some p) None k
        ∧ ∃ res k', r = Returns (res, k')
            ∧ scheduler.placed k' = scheduler.placed k ++ [p]
            ∧ podtask.taskRegistry (scheduler.tasks k')
              = podtask.taskRegistry (scheduler.tasks k)
            ∧ podtask.podToTask (scheduler.tasks k')
              = podtask.podToTask (scheduler.tasks k))
       ∧ (podtask.UID pod ≠ podtask.UID (podtask.Pod_ task)
          ∨ podtask.Has podtask.Launched task = true
          ∨ podtask.State task ≠ podtask.StatePending →
          ∃ e, r = Returns (("", Some e), k)))
  ∧ (∀ taskId,
       scheduler.taskForPod k key = Some taskId →
       scheduler.getTask k taskId = None →
       ∃ e, r = Returns (("", Some e), k)).
Proof.
  intros Hkey r. subst r. unfold scheduler.Schedule. rewrite Hkey.
  split; [|split].
  - intros -> Hdel. destruct (scheduler.MetaNamespaceKeyFunc pod) as [e|podName].
    + by exists k.
    + specialize (Hdel podName eq_refl).
      destruct (scheduler.Poll _ podName _) as [deleted u]. cbn in Hdel. subst deleted.
      by eexists.
  - intros taskId p task Htp Hg. rewrite Htp, Hg. split.
    + intros -> -> Huid. rewrite bool_decide_eq_false_2 by (by intros ?).
      split; [done|].
      apply (doSchedule_places k now p task), (getTask_object k taskId p task Hg).
    + intros [Huid|[Hl|Hst]].
      * destruct (podtask.State task); try by eexists.
        rewrite bool_decide_eq_true_2 by done. by eexists.
      * destruct (podtask.State task); try by eexists.
        case_bool_decide; [by eexists|]. rewrite Hl. by eexists.
      * destruct (podtask.State task); try done; by eexists.
  - intros taskId Htp Hg. rewrite Htp, Hg. by eexists.
Qed.

Lemma C3_Schedule_by_registered_task_witness :
  (∃ k', scheduler.Schedule (H := samples.schedulerCollaborators) 1 "task2"
           samples.pod1 samples.scheduler0Deleted
         = Returns (("", Some noSuchPodErr), k')
         ∧ scheduler.tasks k' = scheduler.tasks samples.scheduler0Deleted)
  ∧ (∃ res k', scheduler.Schedule (H := samples.schedulerCollaborators) 3 "task2"
                 samples.pod1 samples.scheduled1
               = Returns (res, k')
               ∧ scheduler.placed k' = scheduler.placed samples.scheduled1 ++ [0])
  ∧ (∃ e, scheduler.Schedule (H := samples.schedulerCollaborators) 3 "task2"
            samples.pod1 samples.launched1
          = Returns (("", Some e), samples.launched1)).
Proof.
  split; [|split].
  - pose proof (C3_Schedule_by_registered_task (H := samples.schedulerCollaborators)
                  1 "task2" samples.pod1 samples.scheduler0Deleted
                  "/pods/default/web" eq_refl) as Hs.
    cbv zeta in Hs. destruct Hs as (Hdeleted & _).
    destruct Hdeleted as (k' & Hr & Htasks & _).
    + vm_compute. reflexivity.
    + intros podName Hname. vm_compute in Hname.
      injection Hname as <-. vm_compute. reflexivity.
    + exists k'. split; [exact Hr|exact Htasks].
  - pose proof (C3_Schedule_by_registered_task (H := samples.schedulerCollaborators)
                  3 "task2" samples.pod1 samples.scheduled1
                  "/pods/default/web" eq_refl) as Hs.
    cbv zeta in Hs. destruct Hs as (_ & Htask & _).
    destruct (Htask "task1" 0 samples.task1Scheduled) as (Hagain & _).
    + vm_compute. reflexivity.
    + vm_compute. reflexivity.
    + destruct Hagain as (_ & res & k' & Hr & Hplaced & _).
      * reflexivity.
      * vm_compute. reflexivity.
      * reflexivity.
      * exists res, k'. split; [exact Hr|exact Hplaced].
  - pose proof (C3_Schedule_by_registered_task (H := samples.schedulerCollaborators)
                  3 "task2" samples.pod1 samples.launched1
                  "/pods/default/web" eq_refl) as Hs.
    cbv zeta in Hs. destruct Hs as (_ & Htask & _).
    destruct (Htask "task1" 0 samples.task1Launched) as (_ & Hrefused).
    + vm_compute. reflexivity.
    + vm_compute. reflexivity.
    + apply Hrefused. right. left. vm_compute. reflexivity.
Defined.

(** C4, as the code has it.  The error handler does nothing for noSuchPod
  and nothing when the pod key cannot be built.  Otherwise the pod is
  dropped, with no requeue and no listener, when no task maps to the key,
  when the mapped task is Pending with the Launched flag set, or when it
  is not Pending.  In the remaining case the pod is added to podQueue
  with the KeepExisting policy, carrying the back-off delay, and a
  listener on the offer registry is registered exactly when the error is
  noSuitableOffers; its channel is the break-out channel of the requeued
  pod.  The filter of that listener, asked later, answers
  not Launched and AcceptOffer(offer) while the task is Pending, and
  answers true whenever the task is no longer Pending or no longer
  registered. *)
Theorem C4_handleSchedulingError_requeue `{scheduler.Collaborators}
    (now : Z) (pod : podtask.Pod) (err : error)
    (k : scheduler.KubernetesScheduler) :
  let k' := scheduler.handleSchedulingError now pod err k in
  (err = noSuchPodErr → k' = k)
  ∧ (∀ e, scheduler.MakePodKey (podtask.Namespace pod) (podtask.Name pod) = inl e →
          k' = k)
  ∧ (∀ key,
       scheduler.MakePodKey (podtask.Namespace pod) (podtask.Name pod) = inr key →
       err ≠ noSuchPodErr →
       let dropped :=
         scheduler.podQueue k' = scheduler.podQueue k
         ∧ scheduler.offerReg k' = scheduler.offerReg k
         ∧ scheduler.tasks k' = scheduler.tasks k in
       (scheduler.taskForPod k key = None → dropped)
       ∧ (∀ taskId,
            scheduler.taskForPod k key = Some taskId →
            (scheduler.getTask k taskId = None → dropped)
            ∧ (∀ p task,
                 scheduler.getTask k taskId = Some (p, task) →
                 (podtask.State task ≠ podtask.StatePending → dropped)
                 ∧ (podtask.State task = podtask.StatePending →
                    podtask.Has podtask.Launched task = true → dropped)
                 ∧ (podtask.State task = podtask.StatePending →
                    podtask.Has podtask.Launched task = false →
                    ∃ delay breakout,
                      scheduler.podQueue k' =
                        queue.Add scheduler.QueuedPod_GetUID
                          {| scheduler.qp_Pod := pod; scheduler.qp_deadline := None;
                             scheduler.qp_delay := Some delay;
                             scheduler.qp_notify := breakout |}
                          queue.KeepExisting (scheduler.podQueue k)
                      ∧ scheduler.tasks k' = scheduler.tasks k
                      ∧ (err = noSuitableOffersErr →
                         offers.Listen now key
                           (Some (scheduler.breakoutFilter taskId)) (scheduler.offerReg k)
                         = (breakout, scheduler.offerReg k')
                         ∧ ∃ ch l, breakout = Some ch
                             ∧ offers.chans (scheduler.offerReg k) !! ch = None
                             ∧ offers.listeners (scheduler.offerReg k') !! key = Some l
                             ∧ offers.accepts l = scheduler.breakoutFilter taskId
                             ∧ offers.notify l = ch)
                      ∧ (err ≠ noSuitableOffersErr →
                         breakout = None
                         ∧ scheduler.offerReg k' = scheduler.offerReg k)))))
  ∧ (∀ taskId (w : podtask.Registry) (offer : offers.Offer),
       (∀ p t, podtask.Get w taskId = Some (p, t) →
               podtask.State t = podtask.StatePending →
               scheduler.breakoutFilter taskId w offer
               = negb (podtask.Has podtask.Launched t) && scheduler.AcceptOffer t offer)
       ∧ (∀ p t, podtask.Get w taskId = Some (p, t) →
                 podtask.State t ≠ podtask.StatePending →
                 scheduler.breakoutFilter taskId w offer = true)
       ∧ (podtask.Get w taskId = None →
          scheduler.breakoutFilter taskId w offer = true)).
Proof.
  intros k'. subst k'. unfold scheduler.handleSchedulingError.
  split; [|split; [|split]].
  - intros ->. by rewrite decide_True.
  - intros e ->. by case_decide.
  - intros key -> Herr. rewrite decide_False by done. cbn zeta.
    set (k1 := scheduler.with_backoff _ k).
    change (scheduler.taskForPod k1 key) with (scheduler.taskForPod k key).
    split; [by intros ->|].
    intros taskId ->.
    change (scheduler.getTask k1 taskId) with (scheduler.getTask k taskId).
    split; [by intros ->|].
    intros p task ->. split; [|split].
    + intros Hst. by destruct (podtask.State task).
    + intros -> ->. done.
    + intros -> ->. destruct (decide (err = noSuitableOffersErr)) as [->|Hne].
      * pose proof (Offer_replace (A := offers.offerListener podtask.Registry)
                      offers.GetUID) as Hreplace.
        unfold offers.Listen. cbn -[queue.Offer].
        destruct (scheduler.getBackoff now _ key) as [delay b] eqn:Hb.
        eexists delay, (Some _). split; [done|]. split; [done|].
        split; [|by intros ?].
        intros _. split; [done|]. eexists _, _. split; [done|].
        split; [apply not_elem_of_dom, is_fresh|].
        cbn -[queue.Offer]. rewrite Hreplace. cbn.
        split; [apply lookup_insert_eq|done].
      * destruct (scheduler.getBackoff now _ key) as [delay b] eqn:Hb.
        eexists delay, None. split; [done|]. split; [done|].
        split; [by intros ?|done].
  - intros taskId w offer. unfold scheduler.breakoutFilter. split; [|split].
    + by intros p t -> ->.
    + intros p t -> Hst. by destruct (podtask.State t).
    + by intros ->.
Qed.

Lemma C4_filter_counterexample :
  ¬ (∀ (taskId : string) (w : podtask.Registry) (offer : offers.Offer),
       scheduler.breakoutFilter (H := samples.schedulerCollaborators) taskId w offer = true
       ↔ ∃ p t, podtask.Get w taskId = Some (p, t)
                ∧ podtask.State t = podtask.StatePending
                ∧ podtask.Has podtask.Launched t = false
                ∧ scheduler.AcceptOffer (Collaborators := samples.schedulerCollaborators)
                    t offer = true).
Proof.
  intros Hclaim.
  destruct (Hclaim "task1" samples.runningRegistry samples.o1) as [Hfwd _].
  destruct Hfwd as (p & t & Hg & Hst & _); [vm_compute; reflexivity|].
  vm_compute in Hg. injection Hg as <- <-. discriminate Hst.
Qed.

Lemma C4_handleSchedulingError_requeue_witness :
  scheduler.handleSchedulingError (H := samples.schedulerCollaborators) 3
    samples.pod1 noSuchPodErr samples.scheduled1 = samples.scheduled1
  ∧ (∃ l, offers.listeners
            (scheduler.offerReg
               (scheduler.handleSchedulingError (H := samples.schedulerCollaborators) 3
                  samples.pod1 noSuitableOffersErr samples.scheduled1))
          !! "/pods/default/web" = Some l
          ∧ offers.accepts l
            = scheduler.breakoutFilter (H := samples.schedulerCollaborators) "task1")
  ∧ scheduler.offerReg
      (scheduler.handleSchedulingError (H := samples.schedulerCollaborators) 3
         samples.pod1 (Errorf "slave disappeared") samples.scheduled1)
    = scheduler.offerReg samples.scheduled1
  ∧ scheduler.podQueue
      (scheduler.handleSchedulingError (H := samples.schedulerCollaborators) 3
         samples.pod1 noSuitableOffersErr samples.launched1)
    = scheduler.podQueue samples.launched1
  ∧ scheduler.breakoutFilter (H := samples.schedulerCollaborators) "task1"
      samples.runningRegistry samples.o1 = true.
Proof.
  split; [|split; [|split; [|split]]].
  - apply (C4_handleSchedulingError_requeue (H := samples.schedulerCollaborators)
             3 samples.pod1 noSuchPodErr samples.scheduled1). reflexivity.
  - pose proof (C4_handleSchedulingError_requeue (H := samples.schedulerCollaborators)
                  3 samples.pod1 noSuitableOffersErr samples.scheduled1) as Hh.
    cbv zeta in Hh. destruct Hh as (_ & _ & Hkey & _).
    destruct (Hkey "/pods/default/web" eq_refl) as (_ & Htask); [discriminate|].
    destruct (Htask "task1") as (_ & Hpending); [vm_compute; reflexivity|].
    destruct (Hpending 0 samples.task1Scheduled) as (_ & _ & Hrequeue);
      [vm_compute; reflexivity|].
    destruct Hrequeue as (delay & breakout & _ & _ & Hlisten & _);
      [reflexivity | vm_compute; reflexivity |].
    destruct (Hlisten eq_refl) as (_ & ch & l & _ & _ & Hl & Haccepts & _).
    exists l. split; [exact Hl|exact Haccepts].
  - pose proof (C4_handleSchedulingError_requeue (H := samples.schedulerCollaborators)
                  3 samples.pod1 (Errorf "slave disappeared") samples.scheduled1) as Hh.
    cbv zeta in Hh. destruct Hh as (_ & _ & Hkey & _).
    destruct (Hkey "/pods/default/web" eq_refl) as (_ & Htask); [discriminate|].
    destruct (Htask "task1") as (_ & Hpending); [vm_compute; reflexivity|].
    destruct (Hpending 0 samples.task1Scheduled) as (_ & _ & Hrequeue);
      [vm_compute; reflexivity|].
    destruct Hrequeue as (delay & breakout & _ & _ & _ & Hplain);
      [reflexivity | vm_compute; reflexivity |].
    apply Hplain. discriminate.
  - pose proof (C4_handleSchedulingError_requeue (H := samples.schedulerCollaborators)
                  3 samples.pod1 noSuitableOffersErr samples.launched1) as Hh.
    cbv zeta in Hh. destruct Hh as (_ & _ & Hkey & _).
    destruct (Hkey "/pods/default/web" eq_refl) as (_ & Htask); [discriminate|].
    destruct (Htask "task1") as (_ & Hpending); [vm_compute; reflexivity|].
    destruct (Hpending 0 samples.task1Launched) as (_ & Hlaunched & _);
      [vm_compute; reflexivity|].
    apply Hlaunched; [reflexivity | vm_compute; reflexivity].
  - pose proof (C4_handleSchedulingError_requeue (H := samples.schedulerCollaborators)
                  3 samples.pod1 noSuitableOffersErr samples.launched1) as Hh.
    cbv zeta in Hh. destruct Hh as (_ & _ & _ & Hfilter).
    destruct (Hfilter "task1" samples.runningRegistry samples.o1) as (_ & Hgone & _).
    apply (Hgone 0 samples.task1Running); [vm_compute; reflexivity | discriminate].
Defined.

(** ** Invalidation of offers *)
Section invalidate_facts.
Import offers.
Context {World : Type}.
Implicit Types s : offerStorage World.

(** What [offer.Acquire(); s.expireOffer(offer)] does to the storage. *)
Lemma invalidate_cases s now q :
  let s' := expireOffer now q (offer_Acquire q s).2 in
  (s' = s ∧ ∀ to, objects s !! q ≠ Some (PLive to))
  ∨ (∃ to, objects s !! q = Some (PLive to) ∧ (LingerTTL s ≤ 0)%Z
           ∧ s' = with_objects <[q := PLive (liveOffer_Acquire to).2]> s)
  ∨ (∃ to e x, objects s !! q = Some (PLive to) ∧ (0 < LingerTTL s)%Z
           ∧ objects s !! e = None ∧ e ≠ q
           ∧ objects s' = <[e := PExpired x]> (<[q := PLive (liveOffer_Acquire to).2]> (objects s))
           ∧ offers s' = <[Id (lo_Offer to) := e]> (offers s)
           ∧ LingerTTL s' = LingerTTL s).
Proof.
  cbn zeta. destruct (objects s !! q) as [[to|x]|] eqn:Hq.
  - rewrite (offer_Acquire_live s q to Hq). cbn [snd].
    set (s1 := with_objects _ s).
    assert (objects s1 !! q = Some (PLive (liveOffer_Acquire to).2)) as Hq1
      by (cbn; apply lookup_insert_eq).
    right. destruct (Z_lt_le_dec 0 (LingerTTL s1)) as [Hl|Hl].
    + right. rewrite (expireOffer_linger s1 now q _ Hq1 Hl). cbn zeta.
      pose proof (is_fresh (dom (objects s1))) as Hfresh.
      apply not_elem_of_dom in Hfresh.
      exists to, (fresh (dom (objects s1))). eexists.
      split; [done|]. split; [done|].
      assert (fresh (dom (objects s1)) ≠ q) as Hne by (intros Heq; congruence).
      split; [|split; [done|]].
      * cbn in Hfresh. apply lookup_insert_None in Hfresh. tauto.
      * cbn. by rewrite liveOffer_Acquire_Offer.
    + left. rewrite (expireOffer_stays s1 now q Hl). by exists to.
  - left. rewrite (offer_Acquire_expired s q x Hq). cbn [snd].
    rewrite (expireOffer_expired s now q x Hq). split; [done|]. by intros to.
  - left. unfold offer_Acquire. rewrite Hq. cbn [snd].
    unfold expireOffer, offer_Details. rewrite Hq. split; [done|]. by intros to.
Qed.

Lemma expired_but_step s now q ps :
  (0 < LingerTTL s)%Z →
  expired_but (q :: ps) s →
  expired_but ps (expireOffer now q (offer_Acquire q s).2)
  ∧ (0 < LingerTTL (expireOffer now q (offer_Acquire q s).2))%Z.
Proof.
  intros Hlinger Hinv.
  destruct (invalidate_cases s now q)
    as [[-> Hnl]|[(to & Hq & Hl & _)|(to & e & x & Hq & _ & He & Hne & Hobj & Hoff & Hsame)]];
    [|lia|].
  - split; [|done].
    intros id q' Hid. destruct (Hinv id q' Hid) as [Hx|[Hin (to & Hto & Hi)]]; [by left|].
    right. apply elem_of_cons in Hin as [->|Hin]; [by destruct (Hnl to)|].
    split; [done|by exists to].
  - split; [|by rewrite Hsame].
    intros id q' Hid. rewrite Hoff in Hid. rewrite Hobj.
    apply lookup_insert_Some in Hid as [[<- <-]|[Hne' Hid]].
    + left. exists x. apply lookup_insert_eq.
    + destruct (Hinv id q' Hid) as [[y Hy]|[Hin (to' & Hto' & Hi)]].
      * left. exists y.
        rewrite lookup_insert_ne by (intros <-; congruence).
        rewrite lookup_insert_ne; [done|]. intros <-. congruence.
      * assert (q' ≠ q) as Hqq by (intros ->; congruence).
        right. apply elem_of_cons in Hin as [->|Hin]; [done|].
        split; [done|]. exists to'.
        rewrite lookup_insert_ne by (intros <-; congruence).
        by rewrite lookup_insert_ne.
Qed.

Lemma expired_but_fold s now ps :
  (0 < LingerTTL s)%Z →
  expired_but ps s →
  expired_but [] (foldl (λ s q, expireOffer now q (offer_Acquire q s).2) s ps).
Proof.
  revert s. induction ps as [|q ps IH]; intros s Hl Hinv; [done|].
  cbn. destruct (expired_but_step s now q ps Hl Hinv). by apply IH.
Qed.

(** With lingering, after [Invalidate(offerId)] the id is not stored (it
  was not stored before) or names an expired, lingering entry. *)
Lemma Invalidate_expires s now offerId :
  keyed_by_uid s → (0 < LingerTTL s)%Z →
  Get (Invalidate now offerId s) offerId = None
  ∨ ∃ q x, Get (Invalidate now offerId s) offerId = Some q
           ∧ objects (Invalidate now offerId s) !! q = Some (PExpired x).
Proof.
  intros Hkeyed Hlinger. unfold Invalidate. case_decide as Hid.
  - unfold invalidateOne, Get.
    destruct (offers s !! offerId) as [q|] eqn:Hg; [|by left; rewrite Hg].
    destruct (Hkeyed _ _ Hg) as (o & Ho & Hu).
    destruct (invalidate_cases s now q)
      as [[-> Hnl]|[(to & Hq & Hl & _)|(to & e & x & Hq & _ & He & Hne & Hobj & Hoff & _)]];
      [|lia|].
    + right. destruct o as [to|x]; [by destruct (Hnl to)|]. by exists q, x.
    + right. exists e, x. rewrite Hoff, Hobj.
      assert (o = PLive to) as -> by congruence. cbn in Hu. rewrite Hu.
      split; apply lookup_insert_eq.
  - assert (expired_but (map_to_list (offers s)).*2 s) as Hinv.
    { intros id q Hg. destruct (Hkeyed _ _ Hg) as ([to|x] & Ho & Hu).
      - right. split; [|by exists to].
        apply list_elem_of_fmap. exists (id, q). split; [done|].
        by apply elem_of_map_to_list.
      - left. by exists x. }
    apply (expired_but_fold s now _ Hlinger) in Hinv.
    unfold Get.
    destruct (offers (foldl _ s _) !! offerId) as [q|] eqn:Hg; [|by left].
    right. destruct (Hinv _ _ Hg) as [[x Hx]|[Hin _]]; [by exists q, x|].
    by apply elem_of_nil in Hin.
Qed.

(** An offer that was acquired cannot be acquired. *)
Lemma Acquire_twice to : (liveOffer_Acquire (liveOffer_Acquire to).2).1 = false.
Proof.
  unfold liveOffer_Acquire, CompareAndSwapInt32.
  destruct (Z.eqb_spec (acquired to) 0) as [E|E]; cbn; [done|].
  by destruct (Z.eqb_spec (acquired to) 0).
Qed.

Lemma blocked_but_step s now q ps :
  blocked_but (q :: ps) s →
  blocked_but ps (expireOffer now q (offer_Acquire q s).2).
Proof.
  intros Hinv.
  destruct (invalidate_cases s now q)
    as [[-> Hnl]|[(to & Hq & _ & ->)|(to & e & x & Hq & _ & He & Hne & Hobj & Hoff & _)]].
  - intros id q' Hid. destruct (Hinv id q' Hid) as [Hx|[Hin (to & Hto)]]; [by left|].
    right. apply elem_of_cons in Hin as [->|Hin]; [by destruct (Hnl to)|].
    split; [done|by exists to].
  - intros id q' Hid. cbn in Hid. unfold blocked. cbn.
    destruct (decide (q' = q)) as [->|Hqq].
    + left. eexists. split; [apply lookup_insert_eq|]. cbn.
      destruct (liveOffer_Acquire (liveOffer_Acquire to).2) as [b to'] eqn:Ha.
      cbn. by rewrite <- (Acquire_twice to), Ha.
    + rewrite lookup_insert_ne by done.
      destruct (Hinv id q' Hid) as [Hb|[Hin Hlive]]; [by left|].
      right. apply elem_of_cons in Hin as [->|Hin]; [done|]. done.
  - intros id q' Hid. rewrite Hoff in Hid. unfold blocked. rewrite Hobj.
    apply lookup_insert_Some in Hid as [[<- <-]|[Hne' Hid]].
    + left. exists (PExpired x). split; [apply lookup_insert_eq|done].
    + assert (q' ≠ e) as Hqe.
      { intros ->. destruct (Hinv id e Hid) as [(o & Ho & _)|[_ (to' & Hto')]]; congruence. }
      rewrite lookup_insert_ne by done.
      destruct (decide (q' = q)) as [->|Hqq].
      * left. eexists. split; [apply lookup_insert_eq|]. cbn.
        destruct (liveOffer_Acquire (liveOffer_Acquire to).2) as [b to'] eqn:Ha.
        cbn. by rewrite <- (Acquire_twice to), Ha.
      * rewrite lookup_insert_ne by done.
        destruct (Hinv id q' Hid) as [Hb|[Hin Hlive]]; [by left|].
        right. apply elem_of_cons in Hin as [->|Hin]; [done|]. done.
Qed.

Lemma blocked_but_fold s now ps :
  blocked_but ps s →
  blocked_but [] (foldl (λ s q, expireOffer now q (offer_Acquire q s).2) s ps).
Proof.
  revert s. induction ps as [|q ps IH]; intros s Hinv; [done|].
  cbn. by apply IH, blocked_but_step.
Qed.

(** After [invalidateOne(offerId)] nobody can acquire the entry of the id. *)
Lemma invalidateOne_blocks s now offerId q :
  keyed_by_uid s →
  Get (invalidateOne now offerId s) offerId = Some q →
  blocked (invalidateOne now offerId s) q.
Proof.
  intros Hkeyed. unfold invalidateOne, Get.
  destruct (offers s !! offerId) as [q0|] eqn:Hg; [|by rewrite Hg].
  destruct (Hkeyed _ _ Hg) as (o & Ho & Hu).
  destruct (invalidate_cases s now q0)
    as [[-> Hnl]|[(to & Hq & _ & ->)|(to & e & x & Hq & _ & He & Hne & Hobj & Hoff & _)]].
  - rewrite Hg. intros [= <-]. exists o. split; [done|].
    destruct o as [to|x]; [by destruct (Hnl to)|done].
  - cbn. rewrite Hg. intros [= <-]. unfold blocked. cbn.
    eexists. split; [apply lookup_insert_eq|]. cbn.
    destruct (liveOffer_Acquire (liveOffer_Acquire to).2) as [b to'] eqn:Ha.
    cbn. by rewrite <- (Acquire_twice to), Ha.
  - rewrite Hoff. assert (o = PLive to) as -> by congruence. cbn in Hu.
    rewrite Hu, lookup_insert_eq. intros [= <-]. unfold blocked. rewrite Hobj.
    exists (PExpired x). split; [apply lookup_insert_eq|done].
Qed.

(** After [Invalidate(offerId)] nobody can acquire the entry of the id;
  after [Invalidate("")] nobody can acquire any entry. *)
Lemma Invalidate_blocks s now offerId :
  keyed_by_uid s →
  ∀ id q, (offerId = "" ∨ id = offerId) →
          Get (Invalidate now offerId s) id = Some q →
          blocked (Invalidate now offerId s) q.
Proof.
  intros Hkeyed id q Hwhich. unfold Invalidate. case_decide as Hid.
  - destruct Hwhich as [->| ->]; [done|]. by apply invalidateOne_blocks.
  - assert (blocked_but (map_to_list (offers s)).*2 s) as Hinv.
    { intros id' q' Hg. destruct (Hkeyed _ _ Hg) as ([to|x] & Ho & Hu).
      - right. split; [|by exists to].
        apply list_elem_of_fmap. exists (id', q'). split; [done|].
        by apply elem_of_map_to_list.
      - left. by exists (PExpired x). }
    apply (blocked_but_fold s now) in Hinv. unfold Get. intros Hg.
    destruct (Hinv _ _ Hg) as [Hb|[Hin _]]; [done|]. by apply elem_of_nil in Hin.
Qed.

(** No id leaves the storage by an invalidation. *)
Lemma Invalidate_keeps_ids s now offerId id :
  is_Some (Get s id) → is_Some (Get (Invalidate now offerId s) id).
Proof.
  assert (∀ s0 q, is_Some (offers s0 !! id) →
            is_Some (offers (expireOffer now q (offer_Acquire q s0).2) !! id)) as Hstep.
  { intros s0 q Hsome.
    destruct (invalidate_cases s0 now q)
      as [[-> _]|[(to & _ & _ & ->)|(to & e & x & _ & _ & _ & _ & _ & -> & _)]];
      [done|done|].
    destruct (decide (Id (lo_Offer to) = id)) as [->|Hne].
    - rewrite lookup_insert_eq. by eexists.
    - by rewrite lookup_insert_ne. }
  unfold Invalidate, invalidateOne, Get. case_decide.
  - destruct (offers s !! offerId); [apply Hstep|done].
  - generalize ((map_to_list (offers s)).*2). intros ps. revert s.
    induction ps as [|q ps IH]; intros s Hsome; [done|].
    cbn. by apply IH, Hstep.
Qed.
Lemma invalidate_frame s now q :
  let s' := expireOffer now q (offer_Acquire q s).2 in
  declined s' = declined s ∧ timers s' = timers s
  ∧ TTL s' = TTL s ∧ LingerTTL s' = LingerTTL s.
Proof.
  cbn zeta.
  assert (∀ s1, declined (expireOffer now q s1) = declined s1
                ∧ timers (expireOffer now q s1) = timers s1
                ∧ TTL (expireOffer now q s1) = TTL s1
                ∧ LingerTTL (expireOffer now q s1) = LingerTTL s1) as Hexp.
  { intros s1. unfold expireOffer. destruct (offer_Details s1 q); [|done].
    by destruct (0 <? LingerTTL s1)%Z. }
  destruct (Hexp (offer_Acquire q s).2) as (-> & -> & -> & ->).
  unfold offer_Acquire. destruct (objects s !! q) as [o|]; [|done].
  by destruct (Acquire o).
Qed.

Lemma Invalidate_frame s now offerId :
  declined (Invalidate now offerId s) = declined s
  ∧ timers (Invalidate now offerId s) = timers s
  ∧ TTL (Invalidate now offerId s) = TTL s
  ∧ LingerTTL (Invalidate now offerId s) = LingerTTL s.
Proof.
  unfold Invalidate, invalidateOne. case_decide.
  - destruct (Get s offerId); [apply invalidate_frame|done].
  - generalize ((map_to_list (offers s)).*2). intros ps. revert s.
    induction ps as [|q ps IH]; intros s; [done|].
    cbn. destruct (IH (expireOffer now q (offer_Acquire q s).2)) as (-> & -> & -> & ->).
    apply invalidate_frame.
Qed.

Lemma blocked_Acquire s q : blocked s q → (offer_Acquire q s).1 = false.
Proof.
  intros (o & Ho & Ha). unfold offer_Acquire. rewrite Ho.
  by destruct (Acquire o).
Qed.
End invalidate_facts.

(** ** Bind *)
Section bind_facts.
Import podtask scheduler.
Context `{Collaborators}.
Implicit Types k : KubernetesScheduler.

Lemma prepareTaskForLaunch_frame k a ns machine p offerId e k1 :
  prepareTaskForLaunch a ns machine p offerId k = Returns (e, k1) →
  (k1 = k ∧ is_Some e)
  ∨ ∃ d, k1 = with_tasks (update p (with_Data d)) k ∧ (e = None → is_Some d).
Proof.
  unfold prepareTaskForLaunch. intros Hp.
  repeat case_match; simplify_eq; try (left; split; [done|by eexists]).
  - right. exists None. split; [done|]. by intros ?.
  - right. eexists (Some _). split; [done|]. by intros _; eexists.
Qed.


End bind_facts.




(** ** More on the offer registry *)
Section storage_facts.
Import offers.
Context {World : Type}.
Implicit Types s : offerStorage World.

(** The storage after [offer.Acquire(); s.expireOffer(offer)], in full. *)
Lemma invalidate_store s now q :
  let s' := expireOffer now q (offer_Acquire q s).2 in
  match objects s !! q with
  | Some (PLive to) =>
      let objs1 := <[q := PLive (liveOffer_Acquire to).2]> (objects s) in
      if (0 <? LingerTTL s)%Z then
        objects s' =
          <[fresh (dom objs1) :=
              PExpired (Expired (Id (lo_Offer to)) (Hostname (lo_Offer to))
                          (LingerTTL s) now)]> objs1
        ∧ offers s' = <[Id (lo_Offer to) := fresh (dom objs1)]> (offers s)
      else objects s' = objs1 ∧ offers s' = offers s
  | _ => s' = s
  end.
Proof.
  cbn zeta. destruct (objects s !! q) as [[to|x]|] eqn:Hq.
  - rewrite (offer_Acquire_live s q to Hq). cbn [snd].
    set (s1 := with_objects _ s).
    assert (objects s1 !! q = Some (PLive (liveOffer_Acquire to).2)) as Hq1
      by (cbn; apply lookup_insert_eq).
    change (LingerTTL s) with (LingerTTL s1).
    destruct (Z.ltb_spec 0 (LingerTTL s1)) as [Hl|Hl].
    + rewrite (expireOffer_linger s1 now q _ Hq1 Hl). cbn.
      by rewrite liveOffer_Acquire_Offer.
    + by rewrite (expireOffer_stays s1 now q Hl).
  - rewrite (offer_Acquire_expired s q x Hq). cbn [snd].
    by rewrite (expireOffer_expired s now q x Hq).
  - unfold offer_Acquire. rewrite Hq. cbn [snd].
    unfold expireOffer, offer_Details. by rewrite Hq.
Qed.

Lemma keyed_insert_object s q to to' :
  keyed_by_uid s → objects s !! q = Some (PLive to) →
  lo_Offer to' = lo_Offer to →
  ∀ id p, offers s !! id = Some p →
          ∃ o, <[q := PLive to']> (objects s) !! p = Some o ∧ uid o = id.
Proof.
  intros Hkeyed Hq Hsame id p Hid. destruct (Hkeyed _ _ Hid) as (o & Ho & Hu).
  destruct (decide (p = q)) as [->|Hpq].
  - rewrite lookup_insert_eq. eexists. split; [done|].
    assert (o = PLive to) as -> by congruence. cbn in *. by rewrite Hsame.
  - rewrite lookup_insert_ne by done. by exists o.
Qed.

Lemma keyed_invalidate s now q :
  keyed_by_uid s → keyed_by_uid (expireOffer now q (offer_Acquire q s).2).
Proof.
  intros Hkeyed. pose proof (invalidate_store s now q) as Hst. cbn zeta in Hst.
  destruct (objects s !! q) as [[to|x]|] eqn:Hq; [|by rewrite Hst..].
  pose proof (keyed_insert_object s q to (liveOffer_Acquire to).2
                Hkeyed Hq (liveOffer_Acquire_Offer to)) as Hk1.
  destruct (0 <? LingerTTL s)%Z; destruct Hst as [Hobj Hoff];
    intros id p Hid; rewrite Hoff in Hid; rewrite Hobj.
  - apply lookup_insert_Some in Hid as [[<- <-]|[Hne Hid]].
    + rewrite lookup_insert_eq. by eexists.
    + destruct (Hk1 _ _ Hid) as (o & Ho & Hu). exists o. split; [|done].
      rewrite lookup_insert_ne; [done|].
      intros <-. pose proof (is_fresh (dom (<[q:=PLive (liveOffer_Acquire to).2]> (objects s)))) as Hf.
      apply Hf, elem_of_dom. by eexists.
  - by apply Hk1.
Qed.

(** [Delete] and [invalidateOne] do the same to the stored objects and to
    the entries; they differ in what is declined and scheduled. *)
Lemma Delete_store s now offerId :
  objects (Delete now offerId s) = objects (invalidateOne now offerId s)
  ∧ offers (Delete now offerId s) = offers (invalidateOne now offerId s).
Proof.
  unfold Delete, invalidateOne. destruct (Get s offerId) as [p|]; [|done].
  destruct (offer_Acquire p s) as [won s1]. cbn [snd].
  assert (∀ s2, objects s2 = objects s1 → offers s2 = offers s1 →
                LingerTTL s2 = LingerTTL s1 →
                objects (expireOffer now p s2) = objects (expireOffer now p s1)
                ∧ offers (expireOffer now p s2) = offers (expireOffer now p s1)) as Hsame.
  { intros s2 Ho Hf Hl. unfold expireOffer, offer_Details, new, offer_host.
    rewrite Ho, Hl. destruct (objects s1 !! p ≫= Details); [|done].
    destruct (0 <? LingerTTL s1)%Z; cbn; by rewrite Ho, Hf. }
  destruct (offer_Details s1 p); [|done]. by destruct won; apply Hsame.
Qed.

Lemma keyed_Delete s now offerId : keyed_by_uid s → keyed_by_uid (Delete now offerId s).
Proof.
  intros Hkeyed. destruct (Delete_store s now offerId) as [Hobj Hoff].
  assert (keyed_by_uid (invalidateOne now offerId s)) as Hk.
  { unfold invalidateOne. destruct (Get s offerId); [by apply keyed_invalidate|done]. }
  intros id p Hid. rewrite Hoff in Hid. rewrite Hobj. by apply Hk.
Qed.

Lemma keyed_Invalidate s now offerId :
  keyed_by_uid s → keyed_by_uid (Invalidate now offerId s).
Proof.
  intros Hkeyed. unfold Invalidate, invalidateOne. case_decide.
  - destruct (Get s offerId); [by apply keyed_invalidate|done].
  - generalize ((map_to_list (offers s)).*2). intros ps. revert s Hkeyed.
    induction ps as [|p ps IH]; intros s Hkeyed; [done|].
    cbn. by apply IH, keyed_invalidate.
Qed.

Lemma Add_cons s now o offs :
  Add now (o :: offs) s =
    Add now offs
      (with_delayed (λ d, d ++ [fresh (dom (objects s))])
         (with_offers <[Id o := fresh (dom (objects s))]>
            (with_objects <[fresh (dom (objects s)) := PLive (newLiveOffer now (TTL s) o)]> s))).
Proof. done. Qed.

Lemma keyed_Add s now offs : keyed_by_uid s → keyed_by_uid (Add now offs s).
Proof.
  revert s. induction offs as [|o offs IH]; intros s Hkeyed; [done|].
  rewrite Add_cons. apply IH. intros id p Hid. cbn in *.
  apply lookup_insert_Some in Hid as [[<- <-]|[Hne Hid]].
  - rewrite lookup_insert_eq. by eexists.
  - destruct (Hkeyed _ _ Hid) as (x & Hx & Hu). exists x. split; [|done].
    rewrite lookup_insert_ne; [done|].
    intros <-. apply (is_fresh (dom (objects s))), elem_of_dom. by eexists.
Qed.

Lemma invalidateOne_expires s now offerId :
  keyed_by_uid s → (0 < LingerTTL s)%Z →
  Get (invalidateOne now offerId s) offerId = None
  ∨ ∃ q x, Get (invalidateOne now offerId s) offerId = Some q
           ∧ objects (invalidateOne now offerId s) !! q = Some (PExpired x).
Proof.
  intros Hkeyed Hlinger. unfold invalidateOne, Get.
  destruct (offers s !! offerId) as [q|] eqn:Hg; [|by left; rewrite Hg].
  destruct (Hkeyed _ _ Hg) as (o & Ho & Hu).
  pose proof (invalidate_store s now q) as Hst. cbn zeta in Hst. rewrite Ho in Hst.
  destruct o as [to|x]; [|right; rewrite Hst; by exists q, x].
  cbn in Hu. destruct (Z.ltb_spec 0 (LingerTTL s)); [|lia].
  destruct Hst as [-> ->]; rewrite Hu.
  right. eexists _, _. split; apply lookup_insert_eq.
Qed.

Lemma Add_frame s now offs :
  TTL (Add now offs s) = TTL s
  ∧ declined (Add now offs s) = declined s
  ∧ (∀ p x, objects s !! p = Some x → objects (Add now offs s) !! p = Some x)
  ∧ (∀ id, (∀ o', o' ∈ offs → Id o' ≠ id) →
           offers (Add now offs s) !! id = offers s !! id).
Proof.
  revert s. induction offs as [|o offs IH]; intros s; [done|].
  rewrite Add_cons. set (s1 := with_delayed _ _).
  destruct (IH s1) as (Httl & Hdecl & Hobj & Hoff).
  split; [by rewrite Httl|]. split; [by rewrite Hdecl|]. split.
  - intros p x Hp. apply Hobj. cbn.
    rewrite lookup_insert_ne; [done|].
    intros <-. apply (is_fresh (dom (objects s))), elem_of_dom. by eexists.
  - intros id Hid. rewrite Hoff by (intros o' Ho'; apply Hid; by apply elem_of_cons; right).
    cbn. rewrite lookup_insert_ne; [done|]. apply Hid. by apply elem_of_cons; left.
Qed.

Lemma notifyListeners_store (w : World) now ids version s s' :
  notifyListeners w now ids version s = Returns s' →
  objects s' = objects s ∧ offers s' = offers s.
Proof.
  unfold notifyListeners, notifyListener, close.
  intros Hn. repeat case_match; by simplify_eq.
Qed.

Lemma keyed_acts (history : list (action World)) s s' :
  keyed_by_uid s → acts history s = Returns s' → keyed_by_uid s'.
Proof.
  revert s. induction history as [|a history IH]; intros s Hkeyed Hacts.
  - cbn in Hacts. by simplify_eq.
  - cbn in Hacts. destruct (act a s) as [s1| |] eqn:Ha; [|done..].
    apply (IH s1); [|done].
    destruct a as [now offs|now offerId|now offerId|now id f|w now ids v];
      cbn in Ha.
    + simplify_eq. by apply keyed_Add.
    + simplify_eq. by apply keyed_Delete.
    + simplify_eq. by apply keyed_Invalidate.
    + simplify_eq. by destruct f.
    + destruct (notifyListeners w now ids v s) as [s2| |] eqn:Hn; simplify_eq; [|done].
      apply notifyListeners_store in Hn as [Hobj Hoff].
      intros id p Hid. rewrite Hoff in Hid. rewrite Hobj. by apply Hkeyed.
Qed.
End storage_facts.

Section sample_facts.
Lemma keyed_oneOffer lingerTTL : offers.keyed_by_uid (samples.oneOffer lingerTTL).
Proof.
  apply keyed_Add. intros id p Hg. cbn in Hg. by rewrite lookup_empty in Hg.
Qed.

Lemma keyed_scheduled1 : offers.keyed_by_uid (scheduler.offerReg samples.scheduled1).
Proof.
  intros id q Hq.
  change (offers.offers (scheduler.offerReg samples.scheduled1))
    with ({[ "o1" := 0 ]} : gmap string loc) in Hq.
  apply lookup_singleton_Some in Hq as [<- <-].
  eexists. split; [vm_compute; reflexivity | reflexivity].
Qed.

Lemma visitAll_keeps_expiry now p (s0 : offers.offerStorage unit) q :
  offers.offer_HasExpired now (samples.visitAll p s0).2 q
  = offers.offer_HasExpired now s0 q.
Proof. done. Qed.
End sample_facts.

(** X1.  Add files each offer under its id as a new live offer that is free
    and expires at now + TTL; of two offers with the same id in one batch
    the later one is kept.  Ids that the batch does not mention keep their
    entries, objects that existed stay as they are, and nothing is
    declined. *)
Theorem X1_Add_then_Get {World : Type} (s : offers.offerStorage World)
    (now : Z) (offs1 : list offers.Offer) (o : offers.Offer)
    (offs2 : list offers.Offer) :
  (∀ o', o' ∈ offs2 → offers.Id o' ≠ offers.Id o) →
  let s' := offers.Add now (offs1 ++ o :: offs2) s in
  (∃ p, offers.Get s' (offers.Id o) = Some p
        ∧ offers.objects s' !! p
          = Some (offers.PLive {| offers.lo_Offer := o;
                                  offers.expiration := (now + offers.TTL s)%Z;
                                  offers.acquired := 0 |})
        ∧ offers.objects s !! p = None)
  ∧ (∀ id, (∀ o', o' ∈ offs1 ++ o :: offs2 → offers.Id o' ≠ id) →
           offers.Get s' id = offers.Get s id)
  ∧ (∀ p x, offers.objects s !! p = Some x → offers.objects s' !! p = Some x)
  ∧ offers.declined s' = offers.declined s.
Proof.
  intros Hlater s'. split; [|split; [|split]].
  - subst s'. unfold offers.Add. rewrite foldl_app.
    fold (offers.Add now offs1 s). set (s1 := offers.Add now offs1 s).
    fold (offers.Add now (o :: offs2) s1). rewrite Add_cons.
    set (p := fresh (dom (offers.objects s1))). set (s2 := offers.with_delayed _ _).
    destruct (Add_frame s now offs1) as (Httl1 & _ & Hobj1 & _).
    destruct (Add_frame s2 now offs2) as (_ & _ & Hobj2 & Hoff2).
    assert (offers.objects s1 !! p = None) as Hfresh
      by apply not_elem_of_dom, is_fresh.
    exists p. split; [|split].
    + unfold offers.Get. rewrite Hoff2 by done. cbn. apply lookup_insert_eq.
    + apply Hobj2. cbn. rewrite lookup_insert_eq. unfold offers.newLiveOffer.
      subst s1. by rewrite Httl1.
    + destruct (offers.objects s !! p) as [x|] eqn:Hp; [|done].
      apply Hobj1 in Hp. fold s1 in Hp. rewrite Hfresh in Hp. discriminate Hp.
  - intros id Hid. by apply Add_frame.
  - apply Add_frame.
  - apply Add_frame.
Qed.

Lemma X1_Add_then_Get_witness :
  (∃ p, offers.Get (samples.oneOffer 5) "o1" = Some p
        ∧ offers.objects (samples.oneOffer 5) !! p
          = Some (offers.PLive (offers.newLiveOffer 0 10 samples.o1)))
  ∧ offers.declined (samples.oneOffer 5) = [].
Proof.
  pose proof (X1_Add_then_Get (offers.CreateRegistry (World := unit) 10 5 0) 0 []
                samples.o1 []) as Hadd.
  cbv zeta in Hadd. destruct Hadd as ((p & Hg & Ho & _) & _ & _ & Hd).
  - intros o' Ho'. by apply elem_of_nil in Ho'.
  - split; [|exact Hd]. exists p. split; [exact Hg|exact Ho].
Defined.

(** X2.  Delete of an id that is not stored changes nothing.  One Delete
    declines at most one offer, the one it names, and a Delete that follows
    it for the same id declines nothing.  In a registry with LingerTTL > 0
    the second Delete changes nothing at all. *)
Theorem X2_Delete_is_idempotent {World : Type} (s : offers.offerStorage World)
    (now now' : Z) (offerId : string) :
  offers.keyed_by_uid s →
  (offers.Get s offerId = None → offers.Delete now offerId s = s)
  ∧ ((0 < offers.LingerTTL s)%Z →
     offers.Delete now' offerId (offers.Delete now offerId s)
     = offers.Delete now offerId s)
  ∧ (offers.declined (offers.Delete now offerId s) = offers.declined s
     ∨ offers.declined (offers.Delete now offerId s) = offers.declined s ++ [offerId])
  ∧ offers.declined (offers.Delete now' offerId (offers.Delete now offerId s))
    = offers.declined (offers.Delete now offerId s).
Proof.
  intros Hkeyed.
  assert (∀ (s2 : offers.offerStorage World) t p,
            offers.declined (offers.expireOffer t p s2) = offers.declined s2) as He.
  { intros s2 t p. unfold offers.expireOffer. destruct (offers.offer_Details s2 p); [|done].
    by destruct (0 <? offers.LingerTTL s2)%Z. }
  split; [|split; [|split]].
  - intros Hg. unfold offers.Delete. by rewrite Hg.
  - intros Hlinger. destruct (Delete_store s now offerId) as [Hobj Hoff].
    destruct (invalidateOne_expires s now offerId Hkeyed Hlinger)
      as [Hg|(q & x & Hg & Hq)].
    + unfold offers.Delete at 1. unfold offers.Get in *. by rewrite Hoff, Hg.
    + apply Delete_lingering with q x; unfold offers.Get in *; [by rewrite Hoff|].
      by rewrite Hobj.
  - unfold offers.Delete. destruct (offers.Get s offerId) as [p|]; [|by left].
    destruct (offers.offer_Acquire p s) as [won s1] eqn:Ha.
    assert (offers.declined s1 = offers.declined s) as Hd.
    { unfold offers.offer_Acquire in Ha. destruct (offers.objects s !! p) as [o|].
      - destruct (offers.Acquire o). by simplify_eq.
      - by simplify_eq. }
    rewrite He. destruct (offers.offer_Details s1 p); [|by left].
    destruct won; cbn; rewrite Hd; [by right|by left].
  - set (s1 := offers.Delete now offerId s).
    unfold offers.Delete at 1.
    destruct (offers.Get s1 offerId) as [q|] eqn:Hg; [|done].
    assert (offers.blocked s1 q) as (o & Ho & Hlost).
    { destruct (Delete_store s now offerId) as [Hobj Hoff].
      assert (offers.Get (offers.invalidateOne now offerId s) offerId = Some q) as Hg'
        by (unfold offers.Get in *; by rewrite <- Hoff).
      destruct (invalidateOne_blocks s now offerId q Hkeyed Hg') as (o & Ho & Hlost).
      exists o. split; [|done]. subst s1. by rewrite Hobj. }
    unfold offers.offer_Acquire. rewrite Ho.
    destruct (offers.Acquire o) as [won o'] eqn:Ha. cbn in Hlost. subst won.
    rewrite He. by destruct (offers.offer_Details _ q).
Qed.

Lemma X2_Delete_is_idempotent_witness :
  offers.Delete 100 "o1" (offers.Delete 1 "o1" (samples.oneOffer 5))
  = offers.Delete 1 "o1" (samples.oneOffer 5)
  ∧ offers.declined (offers.Delete 100 "o1" (offers.Delete 1 "o1" (samples.oneOffer 0)))
    = ["o1"].
Proof.
  destruct (X2_Delete_is_idempotent (samples.oneOffer 5) 1 100 "o1" (keyed_oneOffer 5))
    as (_ & Hsame & _).
  destruct (X2_Delete_is_idempotent (samples.oneOffer 0) 1 100 "o1" (keyed_oneOffer 0))
    as (_ & _ & _ & Hdeclined).
  split; [apply Hsame; vm_compute; reflexivity|].
  etransitivity; [exact Hdeclined|]. vm_compute. reflexivity.
Defined.

(** X3.  Invalidate declines nothing and schedules nothing, and it removes
    no id from the storage.  After Invalidate of an id nobody can acquire
    the entry of that id, and every other id has the entry it had; after
    Invalidate of the empty id nobody can acquire any entry.  In a registry
    with LingerTTL > 0 the entries in question are expired ones. *)
Theorem X3_Invalidate_blocks_without_declining {World : Type}
    (s : offers.offerStorage World) (now : Z) (offerId : string) :
  offers.keyed_by_uid s →
  let s' := offers.Invalidate now offerId s in
  offers.declined s' = offers.declined s
  ∧ offers.timers s' = offers.timers s
  ∧ (∀ id, is_Some (offers.Get s id) → is_Some (offers.Get s' id))
  ∧ (∀ id q, offerId = "" ∨ id = offerId → offers.Get s' id = Some q →
             (offers.offer_Acquire q s').1 = false)
  ∧ (offerId ≠ "" → ∀ id, id ≠ offerId → offers.Get s' id = offers.Get s id)
  ∧ ((0 < offers.LingerTTL s)%Z →
     ∀ id q, offerId = "" ∨ id = offerId → offers.Get s' id = Some q →
             ∃ x, offers.objects s' !! q = Some (offers.PExpired x)).
Proof.
  intros Hkeyed s'.
  destruct (Invalidate_frame s now offerId) as (Hd & Ht & _).
  split; [done|]. split; [done|].
  split; [intros id; apply Invalidate_keeps_ids|].
  split.
  { intros id q Hwhich Hg. apply blocked_Acquire.
    by apply (Invalidate_blocks s now offerId Hkeyed id q). }
  split.
  - intros Hne id Hid. subst s'. unfold offers.Invalidate.
    rewrite decide_True by done. unfold offers.invalidateOne, offers.Get.
    destruct (offers.offers s !! offerId) as [q|] eqn:Hg; [|done].
    destruct (Hkeyed _ _ Hg) as (o & Ho & Hu).
    pose proof (invalidate_store s now q) as Hst. cbn zeta in Hst. rewrite Ho in Hst.
    destruct o as [to|x]; [|by rewrite Hst]. cbn in Hu.
    destruct (0 <? offers.LingerTTL s)%Z; destruct Hst as [_ ->]; [|done].
    rewrite Hu. by rewrite lookup_insert_ne.
  - intros Hlinger id q [->| ->] Hg.
    + subst s'. unfold offers.Invalidate in *.
      rewrite decide_False in * by (by intros ?).
      assert (offers.expired_but (map_to_list (offers.offers s)).*2 s) as Hinv.
      { intros id' q' Hg'. destruct (Hkeyed _ _ Hg') as ([to|x] & Ho & Hu).
        - right. split; [|by exists to].
          apply list_elem_of_fmap. exists (id', q'). split; [done|].
          by apply elem_of_map_to_list.
        - left. by exists x. }
      apply (expired_but_fold s now _ Hlinger) in Hinv.
      destruct (Hinv _ _ Hg) as [Hx|[Hin _]]; [done|]. by apply elem_of_nil in Hin.
    + destruct (Invalidate_expires s now offerId Hkeyed Hlinger)
        as [Hnone|(q' & x & Hq' & Hx)]; fold s' in Hnone || fold s' in Hq', Hx.
      * congruence.
      * exists x. congruence.
Qed.

Lemma X3_Invalidate_blocks_without_declining_witness :
  offers.declined (offers.Invalidate 1 "o1" (samples.oneOffer 5)) = []
  ∧ (∃ q x, offers.Get (offers.Invalidate 1 "o1" (samples.oneOffer 5)) "o1" = Some q
            ∧ offers.objects (offers.Invalidate 1 "o1" (samples.oneOffer 5)) !! q
              = Some (offers.PExpired x))
  ∧ (∃ q, offers.Get (offers.Invalidate 1 "o1" (samples.oneOffer 0)) "o1" = Some q
          ∧ (offers.offer_Acquire q (offers.Invalidate 1 "o1" (samples.oneOffer 0))).1
            = false).
Proof.
  pose proof (X3_Invalidate_blocks_without_declining (samples.oneOffer 5) 1 "o1"
                (keyed_oneOffer 5)) as Hlinger.
  pose proof (X3_Invalidate_blocks_without_declining (samples.oneOffer 0) 1 "o1"
                (keyed_oneOffer 0)) as Hstays.
  cbv zeta in Hlinger, Hstays.
  destruct Hlinger as (Hd & _ & _ & _ & _ & Hexpired).
  destruct Hstays as (_ & _ & _ & Hblocked & _).
  split; [exact Hd|]. split.
  - exists 1. destruct (Hexpired eq_refl "o1" 1) as [x Hx];
      [by right|vm_compute; reflexivity|].
    exists x. split; [vm_compute; reflexivity|exact Hx].
  - exists 0. split; [vm_compute; reflexivity|].
    apply (Hblocked "o1" 0); [by right|vm_compute; reflexivity].
Defined.

(** X4.  Whatever offers are added, deleted and invalidated and whatever
    listeners are registered and notified, every entry of the storage names
    an object that exists and whose uid is the key of the entry. *)
Theorem X4_storage_keyed_by_uid {World : Type} (ttl lingerTTL listenerDelay : Z)
    (history : list (offers.action World)) :
  ∃ s', offers.acts history (offers.CreateRegistry ttl lingerTTL listenerDelay)
        = Returns s'
        ∧ ∀ id p, offers.Get s' id = Some p →
                  ∃ o, offers.objects s' !! p = Some o ∧ offers.uid o = id.
Proof.
  destruct (listeners_ok_acts history (offers.CreateRegistry ttl lingerTTL listenerDelay)
              (listeners_ok_CreateRegistry ttl lingerTTL listenerDelay))
    as (s' & Hs' & _).
  exists s'. split; [done|].
  apply (keyed_acts history (offers.CreateRegistry ttl lingerTTL listenerDelay) s');
    [|done].
  intros id p Hid. cbn in Hid. by rewrite lookup_empty in Hid.
Qed.

Section walk_facts.
Import offers.
Context {World : Type}.
Implicit Types s : offerStorage World.

Lemma walk_visits now (w : Walker (World := World)) snapshot s visited0 :
  (∀ p s0 q, offer_HasExpired now (w p s0).2 q = offer_HasExpired now s0 q) →
  ∃ v, (walk now w snapshot s visited0).2 = visited0 ++ v
       ∧ sublist v snapshot
       ∧ ∀ p, p ∈ v → offer_HasExpired now s p = false.
Proof.
  intros Hw. revert s visited0.
  induction snapshot as [|offer rest IH]; intros s visited0; cbn.
  - exists []. split; [by rewrite app_nil_r|]. split; [done|].
    intros p Hp. by apply elem_of_nil in Hp.
  - destruct (offer_HasExpired now s offer) eqn:He.
    + destruct (IH s visited0) as (v & Hv & Hsub & Hlive).
      exists v. split; [done|]. split; [by apply sublist_cons|done].
    + pose proof (Hw offer s) as Hkeep.
      destruct (w offer s) as [[stop err] s1]. cbn in Hkeep.
      assert (∃ v, v = [offer] ∧ sublist v (offer :: rest)
                   ∧ ∀ p, p ∈ v → offer_HasExpired now s p = false) as Hone.
      { exists [offer]. split; [done|].
        split; [apply sublist_skip, sublist_nil_l|].
        intros p Hp. by apply list_elem_of_singleton in Hp as ->. }
      destruct err as [e|].
      { destruct Hone as (v & -> & Hsub & Hlive). by exists [offer]. }
      destruct stop.
      { destruct Hone as (v & -> & Hsub & Hlive). by exists [offer]. }
      destruct (IH s1 (visited0 ++ [offer])) as (v & Hv & Hsub & Hlive).
      exists (offer :: v). split; [by rewrite Hv, <- app_assoc|].
      split; [by apply sublist_skip|].
      intros p Hp. apply elem_of_cons in Hp as [->|Hp]; [done|].
      rewrite <- Hkeep. by apply Hlive.
Qed.

Lemma walk_nothing_live now (w : Walker (World := World)) snapshot s visited0 :
  (∀ p, p ∈ snapshot → offer_HasExpired now s p = true) →
  walk now w snapshot s visited0 = (None, s, visited0).
Proof.
  induction snapshot as [|offer rest IH]; intros Hall; [done|].
  cbn. rewrite Hall by (by apply elem_of_cons; left).
  apply IH. intros p Hp. apply Hall. by apply elem_of_cons; right.
Qed.

Lemma snapshot_stored s p :
  p ∈ (map_to_list (offers s)).*2 ↔ ∃ id, Get s id = Some p.
Proof.
  unfold Get. rewrite list_elem_of_fmap. split.
  - intros ([id q] & -> & Hin). exists id. by apply elem_of_map_to_list in Hin.
  - intros (id & Hid). exists (id, p). split; [done|]. by apply elem_of_map_to_list.
Qed.

Lemma not_expired_live now s p :
  offer_HasExpired now s p = false →
  ∃ to, objects s !! p = Some (PLive to) ∧ (now ≤ expiration to)%Z.
Proof.
  unfold offer_HasExpired. destruct (objects s !! p) as [[to|x]|]; [|done..].
  cbn. unfold liveOffer_HasExpired. intros Hlt. exists to. split; [done|].
  apply Z.ltb_ge in Hlt. lia.
Qed.

Lemma Delete_keeps_object s now offerId p to :
  Get s offerId = Some p → objects s !! p = Some (PLive to) →
  objects (Delete now offerId s) !! p = Some (PLive (liveOffer_Acquire to).2).
Proof.
  intros Hg Hp. destruct (Delete_store s now offerId) as [-> _].
  unfold invalidateOne. rewrite Hg.
  pose proof (invalidate_store s now p) as Hst. cbn zeta in Hst. rewrite Hp in Hst.
  destruct (0 <? LingerTTL s)%Z; destruct Hst as [-> _].
  - rewrite lookup_insert_ne; [apply lookup_insert_eq|].
    intros Heq.
    pose proof (is_fresh (dom (<[p:=PLive (liveOffer_Acquire to).2]> (objects s)))) as Hf.
    rewrite Heq in Hf. apply Hf, elem_of_dom. rewrite lookup_insert_eq. by eexists.
  - apply lookup_insert_eq.
Qed.
End walk_facts.

(** X5.  Walk hands the walker stored offers only, each at most once, and
    only offers that are live and not past their expiration; a walker that
    leaves expirations alone (it may acquire and release) therefore never
    sees an expired or lingering offer.  When the storage holds nothing that
    is live, Walk answers nil without calling the walker. *)
Theorem X5_Walk_visits_live_offers_only {World : Type}
    (now : Z) (w : offers.Walker (World := World)) (s : offers.offerStorage World) :
  ((∀ id p, offers.Get s id = Some p → offers.offer_HasExpired now s p = true) →
   offers.Walk now w s = (None, s, []))
  ∧ ((∀ p s0 q, offers.offer_HasExpired now (w p s0).2 q
                = offers.offer_HasExpired now s0 q) →
     let visited := (offers.Walk now w s).2 in
     sublist visited (map_to_list (offers.offers s)).*2
     ∧ ∀ p, p ∈ visited →
            (∃ id, offers.Get s id = Some p)
            ∧ ∃ to, offers.objects s !! p = Some (offers.PLive to)
                    ∧ (now ≤ offers.expiration to)%Z).
Proof.
  split.
  - intros Hall. apply walk_nothing_live.
    intros p Hp. apply snapshot_stored in Hp as (id & Hid). by apply (Hall id).
  - intros Hw visited. subst visited. unfold offers.Walk.
    destruct (walk_visits now w (map_to_list (offers.offers s)).*2 s [] Hw)
      as (v & -> & Hsub & Hlive).
    split; [done|]. intros p Hp. cbn in Hp. split.
    + apply snapshot_stored. by apply (elem_of_sublist v).
    + by apply not_expired_live, Hlive.
Qed.

Lemma X5_Walk_visits_live_offers_only_witness :
  offers.Walk 7 samples.visitAll samples.oneLingeringOffer
  = (None, samples.oneLingeringOffer, [])
  ∧ sublist (offers.Walk 1 samples.visitAll (samples.oneOffer 5)).2 [0].
Proof.
  destruct (X5_Walk_visits_live_offers_only 7 samples.visitAll samples.oneLingeringOffer)
    as [Hnone _].
  destruct (X5_Walk_visits_live_offers_only 1 samples.visitAll (samples.oneOffer 5))
    as [_ Hlive].
  cbv zeta in Hlive. split.
  - apply Hnone. intros id p Hg.
    change (offers.offers samples.oneLingeringOffer !! id = Some p) in Hg.
    change (offers.offers samples.oneLingeringOffer)
      with ({[ "o1" := 1 ]} : gmap string loc) in Hg.
    apply lookup_singleton_Some in Hg as [<- <-]. vm_compute. reflexivity.
  - exact (proj1 (Hlive (visitAll_keeps_expiry 1))).
Defined.



Section ageing_facts.
Import offers.
Context {World : Type}.
Implicit Types s : offerStorage World.

Lemma Add_one s now o :
  let p := fresh (dom (objects s)) in
  let s1 := Add now [o] s in
  Get s1 (Id o) = Some p
  ∧ objects s1 !! p = Some (PLive (newLiveOffer now (TTL s) o))
  ∧ TTL s1 = TTL s ∧ LingerTTL s1 = LingerTTL s
  ∧ declined s1 = declined s ∧ timers s1 = timers s
  ∧ delayed s1 = delayed s ++ [p].
Proof.
  cbn zeta. rewrite Add_cons. cbn. unfold Get. cbn.
  by rewrite !lookup_insert_eq.
Qed.

(** An expired offer hands its id, a string, to the FIFO, whose key
  function refuses it. *)
Lemma ageOffer_lingering s now e x :
  objects s !! e = Some (PExpired x) → ageOffer now e s = s.
Proof.
  intros He. unfold ageOffer, offer_age.
  by rewrite (offer_Details_expired s e x He), He.
Qed.

Lemma ageOffer_live s now p to :
  objects s !! p = Some (PLive to) →
  ageOffer now p s =
    if (expiration to <? now)%Z then Delete now (Id (lo_Offer to)) s
    else offer_addTo p s.
Proof.
  intros Hp. unfold ageOffer, offer_age, offer_HasExpired.
  rewrite (offer_Details_live s p to Hp), Hp. cbn.
  unfold liveOffer_HasExpired. by destruct (expiration to <? now)%Z.
Qed.
End ageing_facts.

(** X7.  The life of an offer that nobody claims.  While its expiration
    (receipt + TTL) has not passed, an early pop of the ageing loop puts it
    back into the delay queue and changes nothing else; this includes the
    instant of the expiration itself.  After that the ageing loop declines
    it once, schedules nothing and leaves the offer claimed.  With
    LingerTTL > 0 an expired entry with deadline now + LingerTTL takes its
    place in the storage.  The id is never removed, though: with
    LingerTTL <= 0 the claimed live offer stays stored under its id, and
    when the ageing loop pops a lingering entry it changes nothing.  In
    both places the code hands the id, a string, to the Delete of the
    FIFO, whose key function refuses it. *)
Theorem X7_unclaimed_offer_ages_out {World : Type} (s : offers.offerStorage World)
    (t0 now now' : Z) (o : offers.Offer) :
  let p := fresh (dom (offers.objects s)) in
  let s1 := offers.Add t0 [o] s in
  ((now ≤ t0 + offers.TTL s)%Z → offers.ageOffer now p s1 = offers.offer_addTo p s1)
  ∧ ((t0 + offers.TTL s < now)%Z →
     let s2 := offers.ageOffer now p s1 in
     offers.declined s2 = offers.declined s ++ [offers.Id o]
     ∧ offers.timers s2 = offers.timers s
     ∧ offers.objects s2 !! p
       = Some (offers.PLive {| offers.lo_Offer := o;
                               offers.expiration := (t0 + offers.TTL s)%Z;
                               offers.acquired := 1 |})
     ∧ ((offers.LingerTTL s ≤ 0)%Z → offers.Get s2 (offers.Id o) = Some p)
     ∧ ((0 < offers.LingerTTL s)%Z →
        ∃ e, offers.Get s2 (offers.Id o) = Some e
             ∧ offers.objects s2 !! e
               = Some (offers.PExpired
                         {| offers.id := offers.Id o;
                            offers.hostname := offers.Hostname o;
                            offers.deadline := (now + offers.LingerTTL s)%Z |})
             ∧ offers.ageOffer now' e s2 = s2)).
Proof.
  intros p s1.
  destruct (Add_one s t0 o) as (Hg & Hp & Httl & Hl & Hd & Ht & _).
  fold p s1 in Hg, Hp, Httl, Hl, Hd, Ht.
  rewrite (ageOffer_live s1 now p _ Hp). cbn [offers.expiration offers.newLiveOffer
                                               offers.lo_Offer].
  split.
  - intros Hearly. destruct (Z.ltb_spec (t0 + offers.TTL s) now); [lia|done].
  - intros Hlate. destruct (Z.ltb_spec (t0 + offers.TTL s) now); [|lia].
    cbn zeta. rewrite (Delete_live s1 now (offers.Id o) p _ Hg Hp). cbn zeta.
    rewrite liveOffer_Acquire_won, bool_decide_eq_true_2 by done.
    set (s1d := offers.DeclineOffer _ _).
    assert (offers.objects s1d !! p
            = Some (offers.PLive {| offers.lo_Offer := o;
                                    offers.expiration := (t0 + offers.TTL s)%Z;
                                    offers.acquired := 1 |})) as Hp1
      by (cbn; apply lookup_insert_eq).
    assert (offers.LingerTTL s1d = offers.LingerTTL s) as Hl1 by exact Hl.
    destruct (Z_lt_le_dec 0 (offers.LingerTTL s)) as [Hlinger|Hgone].
    + rewrite (expireOffer_linger s1d now p _ Hp1) by lia. cbn zeta.
      set (e := fresh (dom (offers.objects s1d))).
      assert (e ≠ p) as Hne.
      { intros Heq. pose proof (is_fresh (dom (offers.objects s1d))) as Hf.
        fold e in Hf. rewrite Heq in Hf. apply Hf, elem_of_dom. by eexists. }
      split; [exact (f_equal (λ l, l ++ [offers.Id o]) Hd)|]. split; [exact Ht|].
      split.
      { cbn [offers.objects offers.with_delayed offers.with_offers offers.with_objects].
        by rewrite lookup_insert_ne. }
      split; [lia|]. intros _. exists e.
      cbn [offers.lo_Offer].
      split; [unfold offers.Get; cbn; apply lookup_insert_eq|].
      split; [cbn [offers.objects offers.with_delayed offers.with_offers offers.with_objects];
              rewrite lookup_insert_eq, Hl1; done|].
      set (s2 := offers.with_delayed _ _).
      assert (offers.objects s2 !! e
              = Some (offers.PExpired
                        (offers.Expired (offers.Id o) (offers.Hostname o)
                           (offers.LingerTTL s1d) now))) as He
        by (cbn; apply lookup_insert_eq).
      exact (ageOffer_lingering s2 now' e _ He).
    + rewrite (expireOffer_stays s1d now p) by lia.
      split; [exact (f_equal (λ l, l ++ [offers.Id o]) Hd)|]. split; [exact Ht|].
      split; [exact Hp1|]. split; [|lia]. intros _. exact Hg.
Qed.

Lemma X7_unclaimed_offer_ages_out_witness :
  offers.ageOffer 10 0 (samples.oneOffer 5) = offers.offer_addTo 0 (samples.oneOffer 5)
  ∧ offers.declined (offers.ageOffer 11 0 (samples.oneOffer 5)) = ["o1"]
  ∧ offers.Get (offers.ageOffer 11 0 (samples.oneOffer 0)) "o1" = Some 0.
Proof.
  pose proof (X7_unclaimed_offer_ages_out (offers.CreateRegistry (World := unit) 10 5 0)
                0 10 20 samples.o1) as Hfresh.
  pose proof (X7_unclaimed_offer_ages_out (offers.CreateRegistry (World := unit) 10 5 0)
                0 11 20 samples.o1) as Hold.
  pose proof (X7_unclaimed_offer_ages_out (offers.CreateRegistry (World := unit) 10 0 0)
                0 11 20 samples.o1) as Hstays.
  cbv zeta in Hfresh, Hold, Hstays.
  destruct Hfresh as [Hfresh _]. destruct Hold as [_ Hold]. destruct Hstays as [_ Hstays].
  split; [|split].
  - apply Hfresh. vm_compute. discriminate.
  - apply Hold. vm_compute. reflexivity.
  - destruct Hstays as (_ & _ & _ & Hstored & _); [vm_compute; reflexivity|].
    apply Hstored. vm_compute. discriminate.
Defined.

(** X8.  The cache of offer ids.  Until its expiration it answers what it
    holds and the version it has, whatever the storage became meanwhile.
    After its expiration it takes the fresh set, lives for another ttl and
    raises the version by one (modulo 2^64) exactly when the set differs
    from the one it held, a first fill of an unfilled cache included; a
    refresh that finds the same set keeps the version. *)
Theorem X8_Strings_versions_changes (now : Z) (refilled : option (gset string))
    (c : offers.stringsCache) :
  ((now ≤ offers.expiresAt c)%Z →
   offers.Strings now refilled c = ((offers.cached c, offers.version c), c))
  ∧ ((offers.expiresAt c < now)%Z →
     let '((ids, v), c') := offers.Strings now refilled c in
     ids = refilled
     ∧ offers.cached c' = refilled
     ∧ offers.version c' = v
     ∧ offers.expiresAt c' = (now + offers.ttl c)%Z
     ∧ offers.ttl c' = offers.ttl c
     ∧ (offers.cached c = refilled → v = offers.version c)
     ∧ (offers.cached c ≠ refilled → v = ((offers.version c + 1) mod 2 ^ 64)%N)
     ∧ (offers.cached c = None → is_Some refilled →
        v = ((offers.version c + 1) mod 2 ^ 64)%N)
     ∧ ∀ now2 refilled2, (now2 ≤ now + offers.ttl c)%Z →
         (offers.Strings now2 refilled2 c').1 = (refilled, v)).
Proof.
  unfold offers.Strings. split.
  - intros Hfresh. destruct (Z.ltb_spec (offers.expiresAt c) now); [lia|done].
  - intros Hstale. destruct (Z.ltb_spec (offers.expiresAt c) now); [|lia].
    split; [done|]. split; [done|]. split; [done|]. split; [done|]. split; [done|].
    split; [by intros ->; rewrite decide_True|].
    split; [by intros Hne; rewrite decide_False|].
    split.
    + intros Hnil [ids ->]. by rewrite decide_False by (rewrite Hnil; done).
    + intros now2 refilled2 Hsoon. cbn.
      destruct (Z.ltb_spec (now + offers.ttl c) now2); [lia|done].
Qed.

Lemma X8_Strings_versions_changes_witness :
  offers.Strings 5 (Some {[ "o1" ]}) samples.aCache = ((None, 0%N), samples.aCache)
  ∧ (offers.Strings 6 (Some {[ "o1" ]}) samples.aCache).1 = (Some {[ "o1" ]}, 1%N).
Proof.
  destruct (X8_Strings_versions_changes 5 (Some {[ "o1" ]}) samples.aCache) as [Hgood _].
  destruct (X8_Strings_versions_changes 6 (Some {[ "o1" ]}) samples.aCache) as [_ Hstale].
  split.
  - apply Hgood. vm_compute. discriminate.
  - assert (offers.expiresAt samples.aCache < 6)%Z as Hlt by (vm_compute; reflexivity).
    specialize (Hstale Hlt).
    destruct (offers.Strings 6 (Some {[ "o1" ]}) samples.aCache) as [[ids v] c'].
    destruct Hstale as (-> & _ & _ & _ & _ & _ & _ & Hv & _).
    cbn. f_equal. apply Hv; [reflexivity|]. eexists. reflexivity.
Defined.

(** X9.  The id set that the notification loop refills its cache with is
    the set of ids stored in the registry. *)
Theorem X9_refill_is_domain {World : Type} (s : offers.offerStorage World) :
  offers.keyed_by_uid s → offers.refill s = dom (offers.offers s).
Proof.
  intros Hkeyed. unfold offers.refill. apply set_eq. intros id.
  rewrite elem_of_list_to_set, list_elem_of_omap, elem_of_dom. split.
  - intros (p & Hp & Hu). apply snapshot_stored in Hp as (id' & Hid').
    destruct (Hkeyed _ _ Hid') as (o & Ho & Huid).
    rewrite Ho in Hu. cbn in Hu. injection Hu as <-. rewrite Huid. by exists p.
  - intros [p Hp]. exists p. split; [apply snapshot_stored; by exists id|].
    destruct (Hkeyed _ _ Hp) as (o & -> & Huid). cbn. by rewrite Huid.
Qed.

Lemma X9_refill_is_domain_witness :
  offers.refill (samples.oneOffer 5) = dom (offers.offers (samples.oneOffer 5)).
Proof.
  exact (X9_refill_is_domain (samples.oneOffer 5) (keyed_oneOffer 5)).
Defined.

(** X10.  A listener that was registered anew (Listen under the same id)
    after the notification loop popped its predecessor is not displaced
    when the loop puts the predecessor back: the re-queue uses KeepExisting,
    the stale listener is dropped, its channel is never closed, and the
    registry is left exactly as it was. *)
Theorem X10_stale_listener_does_not_displace {World : Type} (w : World) (now : Z)
    (offerIds : list string) (version : N) (s : offers.offerStorage World)
    (stale : offers.offerListener World) :
  is_Some (offers.listeners s !! offers.l_id stale) →
  (offers.sawVersion stale = version
   ∨ ¬ ∃ id p d, id ∈ offerIds ∧ offers.Get s id = Some p
                 ∧ offers.offer_HasExpired now s p = false
                 ∧ offers.offer_Details s p = Some d
                 ∧ offers.accepts stale w d = true) →
  offers.notifyListener w now offerIds version stale s = Returns s.
Proof.
  intros [current Hcur] Hcase.
  assert (∀ l', offers.l_id l' = offers.l_id stale → offers.requeue l' s = s) as Hkeep.
  { intros l' Hid. unfold offers.requeue, queue.Offer, offers.GetUID.
    destruct s. unfold offers.with_listeners. cbn in *. by rewrite Hid, Hcur. }
  unfold offers.notifyListener. case_decide as Hv.
  - by rewrite Hkeep.
  - destruct Hcase as [?|Hnone]; [done|].
    destruct (offers.findAcceptable w now s _ offerIds) eqn:Hf.
    + exfalso. apply Hnone. by apply findAcceptable_true in Hf.
    + case_match; [by rewrite Hkeep|done].
Qed.

Lemma X10_stale_listener_does_not_displace_witness :
  offers.notifyListener tt 1 ["o1"] 0 samples.theListener samples.oneListener
  = Returns samples.oneListener.
Proof.
  apply (X10_stale_listener_does_not_displace tt 1 ["o1"] 0 samples.oneListener
           samples.theListener).
  - vm_compute. eexists. reflexivity.
  - left. reflexivity.
Defined.

(** X11.  Deleting an offer that a claimant holds declines nothing at once
    and schedules one deferred decline at now + 2 TTL.  If the claimant
    still holds the offer when the timer fires (its launch went through),
    nothing is ever declined.  If the claimant released the offer before
    (its launch failed), the timer declines the offer once and takes the
    claim itself, so that a second firing would decline nothing. *)
Theorem X11_deferred_decline_after_release {World : Type}
    (s : offers.offerStorage World) (now : Z) (offerId : string) (p : loc)
    (to : offers.liveOffer) :
  offers.Get s offerId = Some p →
  offers.objects s !! p = Some (offers.PLive to) →
  offers.acquired to = 1%Z →
  let s1 := offers.Delete now offerId s in
  let d := {| offers.fireAt := (now + 2 * offers.TTL s)%Z;
              offers.d_offer := p; offers.d_offerId := offerId |} in
  offers.declined s1 = offers.declined s
  ∧ offers.timers s1 = offers.timers s ++ [d]
  ∧ offers.deferredDecline d s1 = s1
  ∧ (let s2 := offers.deferredDecline d (offers.offer_Release p s1) in
     offers.declined s2 = offers.declined s ++ [offerId]
     ∧ offers.objects s2 !! p = Some (offers.PLive to)
     ∧ offers.deferredDecline d s2 = s2).
Proof.
  intros Hg Hp Hacq s1 d.
  assert ((offers.liveOffer_Acquire to).2 = to) as Hsame.
  { unfold offers.liveOffer_Acquire, offers.CompareAndSwapInt32. rewrite Hacq.
    cbn. destruct to. cbn in *. by subst. }
  assert (offers.liveOffer_Acquire to = (false, to)) as Hlost.
  { rewrite <- Hsame at 2. rewrite surjective_pairing at 1. f_equal.
    by rewrite liveOffer_Acquire_won, bool_decide_eq_false_2 by (rewrite Hacq; done). }
  pose proof (Delete_keeps_object s now offerId p to Hg Hp) as Hp1.
  rewrite Hsame in Hp1. fold s1 in Hp1.
  assert (offers.declined s1 = offers.declined s
          ∧ offers.timers s1 = offers.timers s ++ [d]) as [Hd Ht].
  { subst s1. rewrite (Delete_live s now offerId p to Hg Hp). cbn zeta.
    rewrite Hlost. cbn [fst snd].
    set (s0 := offers.with_timers _ _).
    assert (offers.objects s0 !! p = Some (offers.PLive to)) as Hp0
      by (cbn; apply lookup_insert_eq).
    destruct (Z_lt_le_dec 0 (offers.LingerTTL s0)).
    - by rewrite (expireOffer_linger s0 now p _ Hp0).
    - by rewrite (expireOffer_stays s0 now p). }
  assert (∀ s' : offers.offerStorage World,
            offers.objects s' !! p = Some (offers.PLive to) →
            offers.deferredDecline d s' = s') as Hheld.
  { intros s' Hp'. unfold offers.deferredDecline. cbn [offers.d_offer d].
    rewrite (offer_Acquire_live s' p to Hp'), Hlost. cbn.
    destruct s'; unfold offers.with_objects; cbn in *. f_equal. by apply insert_id. }
  split; [done|]. split; [done|]. split; [by apply Hheld|].
  cbn zeta.
  set (released := {| offers.lo_Offer := offers.lo_Offer to;
                      offers.expiration := offers.expiration to;
                      offers.acquired := 0 |}).
  assert (offers.objects (offers.offer_Release p s1) !! p = Some (offers.PLive released))
    as Hrel.
  { cbn. rewrite lookup_alter_eq, Hp1. cbn.
    unfold offers.liveOffer_Release, offers.CompareAndSwapInt32. by rewrite Hacq. }
  assert (offers.liveOffer_Acquire released = (true, to)) as Hwon.
  { unfold offers.liveOffer_Acquire, offers.CompareAndSwapInt32. cbn.
    destruct to. cbn in *. by subst. }
  assert (offers.deferredDecline d (offers.offer_Release p s1)
          = offers.DeclineOffer offerId
              (offers.with_objects <[p := offers.PLive to]> (offers.offer_Release p s1)))
    as Hfire.
  { unfold offers.deferredDecline. cbn [offers.d_offer offers.d_offerId d].
    by rewrite (offer_Acquire_live _ p released Hrel), Hwon. }
  rewrite Hfire.
  split; [cbn; by rewrite Hd|]. split; [cbn; apply lookup_insert_eq|].
  apply Hheld. cbn. apply lookup_insert_eq.
Qed.

Lemma X11_deferred_decline_after_release_witness :
  offers.declined (offers.Delete 1 "o1" (samples.oneClaimedOffer 5)) = []
  ∧ offers.deferredDecline
      {| offers.fireAt := 21; offers.d_offer := 0; offers.d_offerId := "o1" |}
      (offers.Delete 1 "o1" (samples.oneClaimedOffer 5))
    = offers.Delete 1 "o1" (samples.oneClaimedOffer 5).
Proof.
  pose proof (X11_deferred_decline_after_release (samples.oneClaimedOffer 5) 1 "o1" 0
                {| offers.lo_Offer := samples.o1; offers.expiration := 10;
                   offers.acquired := 1 |} eq_refl eq_refl eq_refl) as Hdel.
  cbv zeta in Hdel. destruct Hdel as (Hd & _ & Hfire & _).
  split; [exact Hd|exact Hfire].
Defined.

(** X12.  Placement that finds an offer on a known slave: doSchedule answers
    the host name of the slave and records the offer in the task, which has
    accepted an offer from then on; nothing is registered or unregistered
    and the offer registry is the one the placement function left.  This
    needs the task to hold no offer yet, or this very offer. *)
Theorem X12_doSchedule_records_offer `{scheduler.Collaborators}
    (now : Z) (k : scheduler.KubernetesScheduler) (p : loc) (t : podtask.T)
    (offer : loc) (reg : offers.offerStorage podtask.Registry)
    (details : offers.Offer) (slave : scheduler.Slave) :
  podtask.taskObjects (scheduler.tasks k) !! p = Some t →
  scheduler.scheduleFunc (scheduler.offerReg k) (scheduler.slaves k)
    (scheduler.tasks k) p = (inr offer, reg) →
  offers.offer_Details reg offer = Some details →
  scheduler.slaveFor k (offers.SlaveId details) = Some slave →
  podtask.Offer t = None ∨ podtask.Offer t = Some offer →
  ∃ k' t', scheduler.doSchedule now (Some p) None k
           = Returns ((scheduler.HostName slave, None), k')
    ∧ podtask.taskObjects (scheduler.tasks k') !! p = Some t'
    ∧ podtask.Offer t' = Some offer
    ∧ podtask.HasAcceptedOffer t' = true
    ∧ podtask.State t' = podtask.State t
    ∧ podtask.Flags t' = podtask.Flags t
    ∧ podtask.Pod_ t' = podtask.Pod_ t
    ∧ scheduler.offerReg k' = reg
    ∧ podtask.taskRegistry (scheduler.tasks k') = podtask.taskRegistry (scheduler.tasks k)
    ∧ podtask.podToTask (scheduler.tasks k') = podtask.podToTask (scheduler.tasks k).
Proof.
  intros Ht Hplace Hdetails Hslave Hoffer. unfold scheduler.doSchedule.
  rewrite Hplace. cbn [scheduler.offerReg scheduler.with_placed scheduler.with_offerReg].
  rewrite Hdetails. unfold scheduler.slaveFor in *.
  cbn [scheduler.slaves scheduler.tasks scheduler.with_placed scheduler.with_offerReg].
  rewrite Hslave, Ht.
  rewrite bool_decide_eq_false_2
    by (intros [Hsome Hother]; destruct Hoffer; congruence).
  eexists _, (podtask.FillFromDetails details (podtask.with_Offer (Some offer) t)).
  split; [done|]. split; [|done].
  cbn. by rewrite !lookup_alter_eq, Ht.
Qed.

Lemma X12_doSchedule_records_offer_witness :
  ∃ k', scheduler.doSchedule (H := samples.schedulerCollaborators) 1 (Some 0) None
          samples.registered1
        = Returns (("h1", None), k')
        ∧ scheduler.offerReg k'
          = (offers.offer_Acquire 0 (scheduler.offerReg samples.scheduler0)).2.
Proof.
  destruct (X12_doSchedule_records_offer (H := samples.schedulerCollaborators) 1
              samples.registered1 0 (podtask.New "task1" "/pods/default/web" samples.pod1)
              0 (offers.offer_Acquire 0 (scheduler.offerReg samples.scheduler0)).2
              samples.o1 {| scheduler.HostName := "h1" |})
    as (k' & t' & Hs & _ & _ & _ & _ & _ & _ & Hreg & _).
  - vm_compute. reflexivity.
  - vm_compute. reflexivity.
  - vm_compute. reflexivity.
  - vm_compute. reflexivity.
  - left. reflexivity.
  - exists k'. split; [exact Hs|exact Hreg].
Defined.

(** X13.  Placement that does not end in an assignment.  An error of the
    placement function is passed on and an offer without details is
    refused, in both cases without a change to the tasks.  When the slave of
    the offer is unknown, the offer is released and invalidated (not
    declined) and the offer and task info of the task are cleared.  When the
    task already holds a different offer, doSchedule answers an error and
    leaves task and registry as placement left them: the offer that
    placement picked is not released. *)
Theorem X13_doSchedule_failures `{scheduler.Collaborators}
    (now : Z) (k : scheduler.KubernetesScheduler) (p : loc) (t : podtask.T) :
  podtask.taskObjects (scheduler.tasks k) !! p = Some t →
  let placement := scheduler.scheduleFunc (scheduler.offerReg k) (scheduler.slaves k)
                     (scheduler.tasks k) p in
  let r := scheduler.doSchedule now (Some p) None k in
  (∀ e reg, placement = (inl e, reg) →
     ∃ k', r = Returns (("", Some e), k')
       ∧ scheduler.tasks k' = scheduler.tasks k ∧ scheduler.offerReg k' = reg)
  ∧ (∀ offer reg, placement = (inr offer, reg) →
     offers.offer_Details reg offer = None →
     ∃ e k', r = Returns (("", Some e), k')
       ∧ scheduler.tasks k' = scheduler.tasks k ∧ scheduler.offerReg k' = reg)
  ∧ (∀ offer reg details, placement = (inr offer, reg) →
     offers.offer_Details reg offer = Some details →
     scheduler.slaveFor k (offers.SlaveId details) = None →
     ∃ e k' t', r = Returns (("", Some e), k')
       ∧ scheduler.offerReg k'
         = offers.Invalidate now (offers.Id details) (offers.offer_Release offer reg)
       ∧ offers.declined (scheduler.offerReg k') = offers.declined reg
       ∧ podtask.taskObjects (scheduler.tasks k') !! p = Some t'
       ∧ podtask.Offer t' = None
       ∧ podtask.HasAcceptedOffer t' = false)
  ∧ (∀ offer reg details slave other, placement = (inr offer, reg) →
     offers.offer_Details reg offer = Some details →
     scheduler.slaveFor k (offers.SlaveId details) = Some slave →
     podtask.Offer t = Some other → other ≠ offer →
     ∃ e k', r = Returns (("", Some e), k')
       ∧ scheduler.tasks k' = scheduler.tasks k ∧ scheduler.offerReg k' = reg).
Proof.
  intros Ht placement r. subst placement r. unfold scheduler.doSchedule.
  split; [|split; [|split]].
  - intros e reg ->. by eexists.
  - intros offer reg -> Hd.
    cbn [scheduler.offerReg scheduler.with_placed scheduler.with_offerReg].
    rewrite Hd. by eexists _, _.
  - intros offer reg details -> Hd Hs.
    cbn [scheduler.offerReg scheduler.with_placed scheduler.with_offerReg].
    rewrite Hd. unfold scheduler.slaveFor in *.
    cbn [scheduler.slaves scheduler.with_placed scheduler.with_offerReg].
    rewrite Hs. eexists _, _, (podtask.ClearTaskInfo t). split; [done|].
    split; [done|]. split.
    + cbn [scheduler.offerReg scheduler.with_tasks scheduler.with_offerReg
           scheduler.with_placed].
      assert (∀ s : offers.offerStorage podtask.Registry,
                offers.declined (offers.Invalidate now (offers.Id details) s)
                = offers.declined s) as Hdecl.
      { intros s. unfold offers.Invalidate, offers.invalidateOne. case_decide.
        - destruct (offers.Get s _) as [q|]; [|done].
          by destruct (invalidate_frame s now q) as (-> & _).
        - generalize ((map_to_list (offers.offers s)).*2). intros ps. revert s.
          induction ps as [|q ps IH]; intros s; [done|]. cbn. rewrite IH.
          by destruct (invalidate_frame s now q) as (-> & _). }
      by rewrite Hdecl.
    + split; [|done]. cbn. by rewrite lookup_alter_eq, Ht.
  - intros offer reg details slave other -> Hd Hs Ho Hne.
    cbn [scheduler.offerReg scheduler.with_placed scheduler.with_offerReg].
    rewrite Hd. unfold scheduler.slaveFor in *.
    cbn [scheduler.slaves scheduler.tasks scheduler.with_placed scheduler.with_offerReg].
    rewrite Hs, Ht.
    rewrite bool_decide_eq_true_2 by (rewrite Ho; split; congruence).
    by eexists _, _.
Qed.

Lemma X13_doSchedule_failures_witness :
  ∃ k', scheduler.doSchedule (H := samples.schedulerCollaborators) 3 (Some 0) None
          samples.scheduled1
        = Returns (("", Some noSuitableOffersErr), k')
        ∧ scheduler.tasks k' = scheduler.tasks samples.scheduled1.
Proof.
  pose proof (X13_doSchedule_failures (H := samples.schedulerCollaborators) 3
                samples.scheduled1 0 samples.task1Scheduled) as Hfail.
  cbv zeta in Hfail. destruct Hfail as (Herr & _).
  - vm_compute. reflexivity.
  - destruct (Herr noSuitableOffersErr (scheduler.offerReg samples.scheduled1))
      as (k' & Hs & Ht & _).
    + vm_compute. reflexivity.
    + exists k'. split; [exact Hs|exact Ht].
Defined.

Section plugin_more_facts.
Import podtask scheduler.
Context `{Collaborators}.
Implicit Types k : KubernetesScheduler.

Lemma doSchedule_task k now p t :
  taskObjects (tasks k) !! p = Some t →
  ∃ res k' t', doSchedule now (Some p) None k = Returns (res, k')
    ∧ taskObjects (tasks k') !! p = Some t'
    ∧ ID t' = ID t ∧ podKey t' = podKey t ∧ Pod_ t' = Pod_ t
    ∧ State t' = State t ∧ Flags t' = Flags t
    ∧ placed k' = placed k ++ [p]
    ∧ taskRegistry (tasks k') = taskRegistry (tasks k)
    ∧ podToTask (tasks k') = podToTask (tasks k)
    ∧ launched k' = launched k ∧ killed k' = killed k
    ∧ podQueue k' = podQueue k.
Proof.
  intros Ht. unfold doSchedule.
  destruct (scheduleFunc (offerReg k) (slaves k) (tasks k) p) as [[e|offer] reg].
  - by eexists _, _, t.
  - destruct (offers.offer_Details _ offer) as [details|]; [|by eexists _, _, t].
    destruct (slaveFor _ (offers.SlaveId details)) as [slave|].
    + cbn [tasks with_placed with_offerReg]. rewrite Ht.
      case_bool_decide; [by eexists _, _, t|].
      eexists _, _, (FillFromDetails details (with_Offer (Some offer) t)).
      split; [done|]. split; [|done]. cbn. by rewrite !lookup_alter_eq, Ht.
    + eexists _, _, (ClearTaskInfo t).
      split; [done|]. split; [|done]. cbn. by rewrite lookup_alter_eq, Ht.
Qed.

Lemma launchTask_call k a p e k2 :
  launchTask a p k = Returns (e, k2) →
  ∃ t ti details,
    taskObjects (tasks k) !! p = Some t ∧ TaskInfo_ t = Some ti
    ∧ Offer t ≫= offers.offer_Details (offerReg k) = Some details
    ∧ e = driver_LaunchTasks a [offers.Id details] [ti]
    ∧ k2 = with_launched (λ l, l ++ [([offers.Id details], [ti])]) k.
Proof.
  unfold launchTask. intros Hl.
  destruct (taskObjects (tasks k) !! p) as [t|]; [|done].
  destruct (TaskInfo_ t) as [ti|] eqn:Hti; [|done].
  destruct (Offer t ≫= offers.offer_Details (offerReg k)) as [details|] eqn:Hd; [|done].
  simplify_eq. by exists t, ti, details.
Qed.

(** What [bind] can do to the scheduler. *)
Lemma bind_inv k now a binding p task e k' :
  taskObjects (tasks k) !! p = Some task →
  bind now a binding p k = Returns (e, k') →
  taskRegistry (tasks k') = taskRegistry (tasks k)
  ∧ podToTask (tasks k') = podToTask (tasks k)
  ∧ podQueue k' = podQueue k ∧ killed k' = killed k ∧ placed k' = placed k
  ∧ (launched k' = launched k ∧ is_Some e
     ∨ ∃ d ti details,
         TaskInfo_ task = Some ti
         ∧ Offer task ≫= offers.offer_Details (offerReg k) = Some details
         ∧ HasAcceptedOffer task = true
         ∧ launched k' = launched k ++
             [([offers.Id details], [{| ti_SlaveId := ti_SlaveId ti; ti_Data := Some d |}])]
         ∧ (e = None ↔
            driver_LaunchTasks a [offers.Id details]
              [{| ti_SlaveId := ti_SlaveId ti; ti_Data := Some d |}] = None)
         ∧ (e = None →
            taskObjects (tasks k') !! p
            = Some (Set_ Launched
                      (with_Pod (with_Host (b_Host binding)) (with_Data (Some d) task)))
            ∧ offerReg k' = offers.Invalidate now (GetOfferId k task) (offerReg k))).
Proof.
  intros Ht. unfold bind. rewrite Ht.
  destruct (HasAcceptedOffer task) eqn:Hacc; cbn [negb];
    [|intros [= <- <-]; repeat split; left; split; [done|by eexists]].
  assert (∀ k1 kk,
            releaseAndClear p k1 = Returns kk →
            taskRegistry (tasks kk) = taskRegistry (tasks k1)
            ∧ podToTask (tasks kk) = podToTask (tasks k1)
            ∧ podQueue kk = podQueue k1 ∧ killed kk = killed k1
            ∧ placed kk = placed k1 ∧ launched kk = launched k1) as Hrc.
  { intros k1 kk. unfold releaseAndClear, releaseOffer.
    destruct (taskObjects (tasks k1) !! p) as [t1|]; [|done].
    destruct (Offer t1); [|done]. by intros [= <-]. }
  destruct (match offers.Get (offerReg k) (GetOfferId k task) with
            | Some offer => offers.offer_HasExpired now (offerReg k) offer
            | None => true
            end).
  { destruct (releaseAndClear p k) as [kk| |] eqn:Hr; [|done..].
    intros [= <- <-]. destruct (Hrc k kk) as (-> & -> & -> & -> & -> & ->);
      [done|].
    repeat split. left. split; [done|by eexists]. }
  destruct (prepareTaskForLaunch a (b_Namespace binding) (b_Host binding) p
              (GetOfferId k task) k) as [[e1 k1]| |] eqn:Hp; [|done..].
  destruct (prepareTaskForLaunch_frame _ _ _ _ _ _ _ _ Hp) as [[-> He1]|(d & -> & Hd)].
  { destruct e1 as [e1|]; [|by destruct He1].
    destruct (releaseAndClear p k) as [kk| |] eqn:Hr; [|done..].
    intros [= <- <-]. destruct (Hrc k kk) as (-> & -> & -> & -> & -> & ->);
      [done|].
    repeat split. left. split; [done|by eexists]. }
  set (k1 := with_tasks (update p (with_Data d)) k) in *.
  assert (taskObjects (tasks k1) !! p = Some (with_Data d task)) as Ht1
    by (by apply update_lookup).
  destruct e1 as [e1|].
  { destruct (releaseAndClear p k1) as [kk| |] eqn:Hr; [|done..].
    intros [= <- <-]. destruct (Hrc k1 kk) as (-> & -> & -> & -> & -> & ->);
      [done|].
    repeat split. left. split; [done|by eexists]. }
  destruct (Hd eq_refl) as [data ->].
  destruct (launchTask a p k1) as [[e2 k2]| |] eqn:Hl; [|done..].
  destruct (launchTask_call _ _ _ _ _ Hl)
    as (t1 & ti1 & details & Ht1' & Hti1 & Hdet & He2 & ->).
  assert (t1 = with_Data (Some data) task) as -> by congruence.
  unfold with_Data in Hti1, Hdet. cbn in Hti1, Hdet.
  destruct (TaskInfo_ task) as [ti|] eqn:Hti; [|done].
  cbn in Hti1. injection Hti1 as <-.
  destruct e2 as [e2|].
  - set (k2 := with_launched _ k1) in *.
    destruct (releaseAndClear p k2) as [kk| |] eqn:Hr; [|done..].
    intros [= <- <-]. destruct (Hrc k2 kk) as (-> & -> & -> & -> & -> & ->);
      [done|].
    repeat split. right.
    exists data, ti, details. split; [done|]. split; [exact Hdet|]. split; [done|].
    split; [done|]. split; [|done]. split; [done|]. intros Hn.
    cbn in He2. rewrite Hn in He2. done.
  - intros [= <- <-]. repeat split. right.
    exists data, ti, details. split; [done|]. split; [exact Hdet|]. split; [done|].
    split; [done|]. split; [by split|]. intros _. split; [|done].
    cbn. by rewrite !lookup_alter_eq, Ht.
Qed.

(** [Bind] either answers an error without looking at the task, or hands
  a Pending task to [bind]. *)
Lemma Bind_inv k now a binding e k' :
  Bind now a binding k = Returns (e, k') →
  (k' = k ∧ is_Some e)
  ∨ ∃ key taskId p task,
      MakePodKey (b_Namespace binding) (PodID binding) = inr key
      ∧ taskForPod k key = Some taskId
      ∧ getTask k taskId = Some (p, task)
      ∧ State task = StatePending
      ∧ bind now a binding p k = Returns (e, k').
Proof.
  unfold Bind. intros Hb.
  destruct (MakePodKey _ _) as [err|key] eqn:Hk;
    [left; by simplify_eq; split; [|eexists]|].
  destruct (taskForPod k key) as [taskId|] eqn:Htp;
    [|left; by simplify_eq; split; [|eexists]].
  destruct (getTask k taskId) as [[p task]|] eqn:Hg;
    [|left; by simplify_eq; split; [|eexists]].
  destruct (State task) eqn:Hs;
    try (left; by simplify_eq; split; [|eexists]).
  right. by exists key, taskId, p, task.
Qed.

(** Invalidation leaves every offer object in place, with its id. *)
Lemma invalidate_uid {World} (s : offers.offerStorage World) now q o ob :
  offers.objects s !! o = Some ob →
  ∃ ob', offers.objects (offers.expireOffer now q (offers.offer_Acquire q s).2) !! o
         = Some ob' ∧ offers.uid ob' = offers.uid ob.
Proof.
  intros Ho. pose proof (invalidate_store s now q) as Hst. cbn zeta in Hst.
  destruct (offers.objects s !! q) as [[to|x]|] eqn:Hq;
    [|rewrite Hst; by exists ob..].
  set (objs1 := <[q := offers.PLive (offers.liveOffer_Acquire to).2]> (offers.objects s)) in *.
  assert (∃ ob', objs1 !! o = Some ob' ∧ offers.uid ob' = offers.uid ob) as (ob1 & Ho1 & Hu1).
  { unfold objs1. destruct (decide (o = q)) as [->|Hne].
    - rewrite lookup_insert_eq. eexists. split; [done|].
      assert (ob = offers.PLive to) as -> by congruence.
      unfold offers.liveOffer_Acquire, offers.CompareAndSwapInt32. cbn.
      by destruct (offers.acquired to =? 0)%Z.
    - rewrite lookup_insert_ne by done. by exists ob. }
  destruct (0 <? offers.LingerTTL s)%Z; destruct Hst as [-> _]; [|by exists ob1].
  exists ob1. split; [|done]. rewrite lookup_insert_ne; [done|].
  intros <-. pose proof (is_fresh (dom objs1)) as Hf.
  apply Hf, elem_of_dom. by eexists.
Qed.

Lemma Invalidate_uid {World} (s : offers.offerStorage World) now offerId o ob :
  offers.objects s !! o = Some ob →
  ∃ ob', offers.objects (offers.Invalidate now offerId s) !! o = Some ob'
         ∧ offers.uid ob' = offers.uid ob.
Proof.
  unfold offers.Invalidate, offers.invalidateOne. case_decide.
  - destruct (offers.Get s offerId); [apply invalidate_uid|by exists ob].
  - generalize ((map_to_list (offers.offers s)).*2). intros ps. revert s ob.
    induction ps as [|q ps IH]; intros s ob Ho; [by exists ob|].
    cbn. destruct (invalidate_uid s now q o ob Ho) as (ob1 & Ho1 & Hu1).
    destruct (IH _ ob1 Ho1) as (ob2 & Ho2 & Hu2). exists ob2. split; [done|congruence].
Qed.
End plugin_more_facts.

(** X14.  Schedule of a pod that has no task and no pending deletion
    registers a fresh Pending task without flags: it is found from then on
    under the pod key and under its task id, and placement is attempted for
    it exactly once.  The task stays registered whatever placement
    answers; no other pod key changes its task. *)
Theorem X14_Schedule_registers_fresh_pod `{scheduler.Collaborators}
    (now : Z) (newTaskId : string) (pod : podtask.Pod)
    (k : scheduler.KubernetesScheduler) (key podName : string)
    (u : scheduler.Updates) :
  scheduler.MakePodKey (podtask.Namespace pod) (podtask.Name pod) = inr key →
  scheduler.taskForPod k key = None →
  scheduler.MetaNamespaceKeyFunc pod = inr podName →
  scheduler.Poll (scheduler.podUpdates k) podName queue.DELETE_EVENT = (false, u) →
  ∃ res k' t',
    scheduler.Schedule now newTaskId pod k = Returns (res, k')
    ∧ scheduler.taskForPod k' key = Some newTaskId
    ∧ scheduler.getTask k' newTaskId
      = Some (fresh (dom (podtask.taskObjects (scheduler.tasks k))), t')
    ∧ podtask.ID t' = newTaskId ∧ podtask.podKey t' = key
    ∧ podtask.Pod_ t' = pod
    ∧ podtask.State t' = podtask.StatePending ∧ podtask.Flags t' = ∅
    ∧ scheduler.placed k'
      = scheduler.placed k ++ [fresh (dom (podtask.taskObjects (scheduler.tasks k)))]
    ∧ scheduler.launched k' = scheduler.launched k
    ∧ (∀ key', key' ≠ key → scheduler.taskForPod k' key' = scheduler.taskForPod k key').
Proof.
  intros Hkey Hnone Hname Hpoll. unfold scheduler.Schedule.
  rewrite Hkey, Hnone, Hname, Hpoll. cbn iota.
  unfold scheduler.createPodTask. rewrite Hkey. unfold podtask.alloc.
  set (p := fresh (dom (podtask.taskObjects (scheduler.tasks k)))).
  cbn -[scheduler.doSchedule fresh podtask.Register].
  fold p.
  set (k2 := scheduler.with_tasks (podtask.Register p None) _).
  assert (scheduler.tasks k2
          = {| podtask.taskObjects :=
                 <[p := podtask.New newTaskId key pod]>
                   (podtask.taskObjects (scheduler.tasks k));
               podtask.taskRegistry :=
                 <[newTaskId := p]> (podtask.taskRegistry (scheduler.tasks k));
               podtask.podToTask :=
                 <[key := newTaskId]> (podtask.podToTask (scheduler.tasks k)) |})
    as Htasks.
  { unfold k2. cbn -[fresh]. unfold podtask.Register. cbn -[fresh]. fold p.
    by rewrite lookup_insert_eq. }
  assert (podtask.taskObjects (scheduler.tasks k2) !! p
          = Some (podtask.New newTaskId key pod)) as Ht
    by (rewrite Htasks; cbn; apply lookup_insert_eq).
  destruct (doSchedule_task k2 now p _ Ht)
    as (res & k' & t' & Hs & Ht' & Hid & Hpk & Hpod & Hst & Hfl & Hpl & Hreg & Hidx & Hl & _).
  exists res, k', t'. split; [exact Hs|].
  unfold scheduler.taskForPod, scheduler.getTask, podtask.TaskForPod in *.
  rewrite Hidx, Htasks. split; [cbn; apply lookup_insert_eq|].
  split; [apply Get_Some; split; [rewrite Hreg, Htasks; cbn; apply lookup_insert_eq|exact Ht']|].
  repeat split; try done.
  intros key' Hne. cbn. by rewrite lookup_insert_ne.
Qed.

Lemma X14_Schedule_registers_fresh_pod_witness :
  ∃ res k', scheduler.Schedule (H := samples.schedulerCollaborators) 1 "task1"
              samples.pod1 samples.scheduler0
            = Returns (res, k')
            ∧ scheduler.taskForPod k' "/pods/default/web" = Some "task1"
            ∧ scheduler.placed k' = [0].
Proof.
  destruct (X14_Schedule_registers_fresh_pod (H := samples.schedulerCollaborators) 1
              "task1" samples.pod1 samples.scheduler0 "/pods/default/web" "default/web"
              (∅ : gmap string queue.EventType))
    as (res & k' & t' & Hs & Htp & _ & _ & _ & _ & _ & _ & Hpl & _).
  - vm_compute. reflexivity.
  - vm_compute. reflexivity.
  - vm_compute. reflexivity.
  - vm_compute. reflexivity.
  - exists res, k'. split; [exact Hs|]. split; [exact Htp|exact Hpl].
Defined.

(** X15.  What Bind does to the outside.  It never touches the pod queue,
    never kills a task and never registers or unregisters one.  It calls
    LaunchTasks at most once, and only for a Pending task that has accepted
    an offer: the call names the id of that offer and carries the task info
    with its payload filled in.  Bind answers nil exactly when that call
    was made and the driver answered nil. *)
Theorem X15_Bind_launch_discipline `{scheduler.Collaborators}
    (now : Z) (a : scheduler.answers) (binding : scheduler.Binding)
    (k k' : scheduler.KubernetesScheduler) (e : option error) :
  scheduler.Bind now a binding k = Returns (e, k') →
  scheduler.podQueue k' = scheduler.podQueue k
  ∧ scheduler.killed k' = scheduler.killed k
  ∧ podtask.taskRegistry (scheduler.tasks k') = podtask.taskRegistry (scheduler.tasks k)
  ∧ podtask.podToTask (scheduler.tasks k') = podtask.podToTask (scheduler.tasks k)
  ∧ (scheduler.launched k' = scheduler.launched k ∧ is_Some e
     ∨ ∃ key taskId p task ti details d,
         scheduler.MakePodKey (scheduler.b_Namespace binding) (scheduler.PodID binding)
         = inr key
         ∧ scheduler.taskForPod k key = Some taskId
         ∧ scheduler.getTask k taskId = Some (p, task)
         ∧ podtask.State task = podtask.StatePending
         ∧ podtask.HasAcceptedOffer task = true
         ∧ podtask.TaskInfo_ task = Some ti
         ∧ podtask.Offer task ≫= offers.offer_Details (scheduler.offerReg k)
           = Some details
         ∧ scheduler.launched k' = scheduler.launched k ++
             [([offers.Id details],
               [{| podtask.ti_SlaveId := podtask.ti_SlaveId ti;
                   podtask.ti_Data := Some d |}])]
         ∧ (e = None ↔
            scheduler.driver_LaunchTasks a [offers.Id details]
              [{| podtask.ti_SlaveId := podtask.ti_SlaveId ti;
                  podtask.ti_Data := Some d |}] = None)).
Proof.
  intros Hb.
  destruct (Bind_inv _ _ _ _ _ _ Hb)
    as [[-> He]|(key & taskId & p & task & Hkey & Htp & Hg & Hst & Hbind)].
  { repeat split. by left. }
  destruct (bind_inv _ _ _ _ _ _ _ _ (getTask_object _ _ _ _ Hg) Hbind)
    as (Hreg & Hidx & Hq & Hkill & _ & Hl).
  split; [done|]. split; [done|]. split; [done|]. split; [done|].
  destruct Hl as [Hl|(d & ti & details & Hti & Hdet & Hacc & Hl & He & _)]; [by left|].
  right. by exists key, taskId, p, task, ti, details, d.
Qed.

Lemma X15_Bind_launch_discipline_witness :
  scheduler.podQueue samples.launched1 = scheduler.podQueue samples.scheduled1
  ∧ scheduler.killed samples.launched1 = scheduler.killed samples.scheduled1.
Proof.
  destruct (X15_Bind_launch_discipline (H := samples.schedulerCollaborators) 2
              samples.answersOk samples.binding1 samples.scheduled1 samples.launched1 None)
    as (Hq & Hk & _).
  - vm_compute. reflexivity.
  - split; [exact Hq|exact Hk].
Defined.

(** X16.  With lingering offers a pod is launched at most once.  In an
    offer registry with LingerTTL > 0 whose entries are stored under their
    own ids, after a Bind that answered nil any later Bind for the same
    binding answers an error and calls LaunchTasks no more: the first Bind
    left an expired entry under the offer id of the task.  (With
    LingerTTL <= 0 the entry of the offer stays as it is, and nothing is
    stated.) *)
Theorem X16_Bind_again_launches_nothing `{scheduler.Collaborators}
    (now now' : Z) (a a' : scheduler.answers) (binding : scheduler.Binding)
    (k k' : scheduler.KubernetesScheduler) :
  offers.keyed_by_uid (scheduler.offerReg k) →
  (0 < offers.LingerTTL (scheduler.offerReg k))%Z →
  scheduler.Bind now a binding k = Returns (None, k') →
  ∃ e k'', scheduler.Bind now' a' binding k' = Returns (Some e, k'')
    ∧ e ≠ noSuchPodErr
    ∧ scheduler.launched k'' = scheduler.launched k'.
Proof.
  intros Hkeyed Hlinger Hb.
  destruct (Bind_inv _ _ _ _ _ _ Hb)
    as [[_ [? [=]]]|(key & taskId & p & task & Hkey & Htp & Hg & Hst & Hbind)].
  pose proof (getTask_object _ _ _ _ Hg) as Ht.
  destruct (bind_inv _ _ _ _ _ _ _ _ Ht Hbind)
    as (Hreg & Hidx & _ & _ & _ & [[_ [? [=]]]|(d & ti & details & Hti & Hdet & Hacc & _ & _ & Hok)]).
  destruct (Hok eq_refl) as [Ht' Hoff]. clear Hok.
  set (t' := podtask.Set_ podtask.Launched _) in Ht'.
  destruct (podtask.Offer task) as [o|] eqn:Ho; [|done]. cbn in Hdet.
  unfold offers.offer_Details in Hdet.
  destruct (offers.objects (scheduler.offerReg k) !! o) as [ob|] eqn:Hob; [|done].
  set (oid := scheduler.GetOfferId k task) in *.
  assert (oid = offers.uid ob) as Hoid
    by (unfold oid, scheduler.GetOfferId; rewrite Ho; cbn; by rewrite Hob).
  destruct (Invalidate_uid (scheduler.offerReg k) now oid o ob Hob) as (ob' & Hob' & Hu).
  rewrite <- Hoff in Hob'.
  assert (scheduler.GetOfferId k' t' = oid) as Hoid'.
  { unfold scheduler.GetOfferId. replace (podtask.Offer t') with (Some o) by done.
    cbn. rewrite Hob'. congruence. }
  assert (scheduler.getTask k' taskId = Some (p, t')) as Hg'.
  { unfold scheduler.getTask in *. apply Get_Some in Hg as [Hr _].
    apply Get_Some. by rewrite Hreg. }
  unfold scheduler.Bind. rewrite Hkey. unfold scheduler.taskForPod, podtask.TaskForPod in *.
  rewrite Hidx, Htp, Hg'.
  replace (podtask.State t') with podtask.StatePending by done.
  unfold scheduler.bind. rewrite Ht'.
  replace (podtask.HasAcceptedOffer t') with true
    by (unfold podtask.HasAcceptedOffer; cbn; by rewrite Hti).
  cbn [negb]. rewrite Hoid', Hoff.
  assert (match offers.Get (offers.Invalidate now oid (scheduler.offerReg k)) oid with
          | Some offer =>
              offers.offer_HasExpired now'
                (offers.Invalidate now oid (scheduler.offerReg k)) offer
          | None => true
          end = true) as ->.
  { destruct (Invalidate_expires (scheduler.offerReg k) now oid Hkeyed Hlinger)
      as [->|(q & x & -> & Hq)]; [done|].
    unfold offers.offer_HasExpired. by rewrite Hq. }
  rewrite (releaseAndClear_Returns k' p t' o Ht' Ho).
  eexists _, _. split; [done|]. split; [done|]. done.
Qed.

Lemma X16_Bind_again_launches_nothing_witness :
  ∃ e k'', scheduler.Bind (H := samples.schedulerCollaborators) 3 samples.answersOk
             samples.binding1 samples.launched1
           = Returns (Some e, k'')
           ∧ scheduler.launched k'' = scheduler.launched samples.launched1.
Proof.
  destruct (X16_Bind_again_launches_nothing (H := samples.schedulerCollaborators) 2 3
              samples.answersOk samples.answersOk samples.binding1
              samples.scheduled1 samples.launched1 keyed_scheduled1)
    as (e & k'' & Hb & _ & Hl).
  - vm_compute. reflexivity.
  - vm_compute. reflexivity.
  - exists e, k''. split; [exact Hb|exact Hl].
Defined.

(** X17.  A pod that is deleted before it was launched is never launched.
    For a Pending task without the Launched flag deleteOne answers nil and
    unregisters the task; a Bind that arrives afterwards for the same pod
    key answers noSuchPod and changes nothing.  Neither LaunchTasks nor
    KillTask is called.  A task that has accepted an offer must hold one. *)
Theorem X17_deleteOne_then_Bind `{scheduler.Collaborators}
    (now : Z) (a a' : scheduler.answers) (pod : scheduler.QueuedPod)
    (binding : scheduler.Binding) (k : scheduler.KubernetesScheduler)
    (key taskId : string) (p : loc) (task : podtask.T) :
  scheduler.MakePodKey (podtask.Namespace (scheduler.qp_Pod pod))
    (podtask.Name (scheduler.qp_Pod pod)) = inr key →
  scheduler.MakePodKey (scheduler.b_Namespace binding) (scheduler.PodID binding)
  = inr key →
  scheduler.taskForPod k key = Some taskId →
  scheduler.getTask k taskId = Some (p, task) →
  podtask.podKey task = key →
  podtask.State task = podtask.StatePending →
  podtask.Has podtask.Launched task = false →
  (podtask.HasAcceptedOffer task = true → is_Some (podtask.Offer task)) →
  ∃ k1, scheduler.deleteOne a pod k = Returns (None, k1)
    ∧ scheduler.Bind now a' binding k1 = Returns (Some noSuchPodErr, k1)
    ∧ scheduler.launched k1 = scheduler.launched k
    ∧ scheduler.killed k1 = scheduler.killed k.
Proof.
  intros Hpk Hbk Htp Hg Hkey Hst Hfl Hheld.
  pose proof (getTask_object _ _ _ _ Hg) as Ht.
  unfold scheduler.deleteOne. rewrite Hpk.
  set (k0 := scheduler.dequeue _ k).
  change (scheduler.taskForPod k0 key) with (scheduler.taskForPod k key).
  rewrite Htp.
  change (scheduler.getTask k0 taskId) with (scheduler.getTask k taskId).
  rewrite Hg, Hst, Hfl. cbn [negb].
  assert (∃ k1, (if podtask.HasAcceptedOffer task
                 then scheduler.releaseAndClear p k0 else Returns k0) = Returns k1
                ∧ podtask.podToTask (scheduler.tasks k1)
                  = podtask.podToTask (scheduler.tasks k)
                ∧ (∃ t1, podtask.taskObjects (scheduler.tasks k1) !! p = Some t1
                         ∧ podtask.podKey t1 = key)
                ∧ scheduler.launched k1 = scheduler.launched k
                ∧ scheduler.killed k1 = scheduler.killed k)
    as (k1 & -> & Hidx & (t1 & Ht1 & Hk1) & Hl & Hkl).
  { destruct (podtask.HasAcceptedOffer task).
    - destruct (Hheld eq_refl) as [o Ho].
      rewrite (releaseAndClear_Returns k0 p task o Ht Ho).
      eexists. split; [done|]. split; [done|]. split; [|done].
      exists (podtask.ClearTaskInfo task). split; [|done].
      cbn. by rewrite lookup_alter_eq, Ht.
    - exists k0. split; [done|]. split; [done|]. split; [|done]. by exists task. }
  eexists. split; [done|].
  unfold scheduler.Bind. rewrite Hbk.
  unfold scheduler.taskForPod, scheduler.unregisterPodTask.
  cbn [scheduler.tasks scheduler.with_tasks].
  destruct (Get_Unregister (scheduler.tasks k1) p t1 Ht1) as (Hgone & _ & _).
  rewrite Hk1 in Hgone. rewrite Hgone. done.
Qed.

Lemma X17_deleteOne_then_Bind_witness :
  ∃ k1, scheduler.deleteOne (H := samples.schedulerCollaborators) samples.answersOk
          samples.queuedPod1 samples.scheduled1
        = Returns (None, k1)
        ∧ scheduler.Bind (H := samples.schedulerCollaborators) 2 samples.answersOk
            samples.binding1 k1
          = Returns (Some noSuchPodErr, k1).
Proof.
  destruct (X17_deleteOne_then_Bind (H := samples.schedulerCollaborators) 2
              samples.answersOk samples.answersOk samples.queuedPod1 samples.binding1
              samples.scheduled1 "/pods/default/web" "task1" 0 samples.task1Scheduled)
    as (k1 & Hd & Hb & _).
  - vm_compute. reflexivity.
  - vm_compute. reflexivity.
  - vm_compute. reflexivity.
  - vm_compute. reflexivity.
  - reflexivity.
  - reflexivity.
  - vm_compute. reflexivity.
  - intros _. eexists. reflexivity.
  - exists k1. split; [exact Hd|exact Hb].
Defined.

(** X18.  Once Bind has answered nil for a pod, the scheduler does not
    place that pod again.  Schedule answers an error without calling the
    placement function and without changing anything, and the error handler
    that is given this error neither requeues the pod nor registers a
    listener for offers. *)
Theorem X18_launched_pod_is_not_rescheduled `{scheduler.Collaborators}
    (now now' : Z) (a : scheduler.answers) (binding : scheduler.Binding)
    (newTaskId : string) (pod : podtask.Pod)
    (k k' : scheduler.KubernetesScheduler) :
  scheduler.MakePodKey (podtask.Namespace pod) (podtask.Name pod)
  = scheduler.MakePodKey (scheduler.b_Namespace binding) (scheduler.PodID binding) →
  scheduler.Bind now a binding k = Returns (None, k') →
  ∃ e, scheduler.Schedule now' newTaskId pod k' = Returns (("", Some e), k')
    ∧ scheduler.podQueue (scheduler.handleSchedulingError now' pod e k')
      = scheduler.podQueue k'
    ∧ scheduler.offerReg (scheduler.handleSchedulingError now' pod e k')
      = scheduler.offerReg k'
    ∧ scheduler.tasks (scheduler.handleSchedulingError now' pod e k')
      = scheduler.tasks k'.
Proof.
  intros Hsame Hb.
  destruct (Bind_inv _ _ _ _ _ _ Hb)
    as [[_ [? [=]]]|(key & taskId & p & task & Hkey & Htp & Hg & Hst & Hbind)].
  pose proof (getTask_object _ _ _ _ Hg) as Ht.
  destruct (bind_inv _ _ _ _ _ _ _ _ Ht Hbind)
    as (Hreg & Hidx & _ & _ & _ & [[_ [? [=]]]|(d & ti & details & _ & _ & _ & _ & _ & Hok)]).
  destruct (Hok eq_refl) as [Ht' _]. clear Hok.
  set (t' := podtask.Set_ podtask.Launched _) in Ht'.
  assert (scheduler.getTask k' taskId = Some (p, t')) as Hg'.
  { unfold scheduler.getTask in *. apply Get_Some in Hg as [Hr _].
    apply Get_Some. by rewrite Hreg. }
  assert (scheduler.taskForPod k' key = Some taskId) as Htp'
    by (unfold scheduler.taskForPod, podtask.TaskForPod in *; by rewrite Hidx).
  assert (podtask.Has podtask.Launched t' = true) as Hlaunched.
  { unfold podtask.Has. apply bool_decide_eq_true_2. cbn.
    apply elem_of_union. left. by apply elem_of_singleton. }
  assert (∀ e, e ≠ noSuchPodErr →
               scheduler.podQueue (scheduler.handleSchedulingError now' pod e k')
               = scheduler.podQueue k'
               ∧ scheduler.offerReg (scheduler.handleSchedulingError now' pod e k')
                 = scheduler.offerReg k'
               ∧ scheduler.tasks (scheduler.handleSchedulingError now' pod e k')
                 = scheduler.tasks k') as Hhandler.
  { intros e He. unfold scheduler.handleSchedulingError.
    rewrite decide_False by done. rewrite Hsame, Hkey.
    set (kb := scheduler.with_backoff _ k').
    cbn zeta.
    change (scheduler.taskForPod kb key) with (scheduler.taskForPod k' key).
    rewrite Htp'.
    change (scheduler.getTask kb taskId) with (scheduler.getTask k' taskId).
    rewrite Hg'.
    replace (podtask.State t') with podtask.StatePending by done.
    by rewrite Hlaunched. }
  unfold scheduler.Schedule. rewrite Hsame, Hkey, Htp', Hg'.
  replace (podtask.State t') with podtask.StatePending by done.
  case_bool_decide.
  - eexists. split; [done|]. by apply Hhandler.
  - rewrite Hlaunched. eexists. split; [done|]. by apply Hhandler.
Qed.

Lemma X18_launched_pod_is_not_rescheduled_witness :
  ∃ e, scheduler.Schedule (H := samples.schedulerCollaborators) 3 "task2" samples.pod1
         samples.launched1
       = Returns (("", Some e), samples.launched1)
       ∧ scheduler.podQueue
           (scheduler.handleSchedulingError (H := samples.schedulerCollaborators) 3
              samples.pod1 e samples.launched1)
         = scheduler.podQueue samples.launched1.
Proof.
  destruct (X18_launched_pod_is_not_rescheduled (H := samples.schedulerCollaborators) 2 3
              samples.answersOk samples.binding1 "task2" samples.pod1
              samples.scheduled1 samples.launched1)
    as (e & Hs & Hq & _).
  - vm_compute. reflexivity.
  - vm_compute. reflexivity.
  - exists e. split; [exact Hs|exact Hq].
Defined.

Section ports_facts.
Import podtask scheduler.

(** The test that the loop of [prepareTaskForLaunch] passes for a mapping
  only depends on the shape of the containers. *)
Lemma setHostPorts_step_shape (cs : list Container) ci c pi port i :
  cs !! ci = Some c →
  let cs1 := <[ci := {| Env := Env c; HostPorts := <[pi := port]> (HostPorts c) |}]> cs in
  length cs1 = length cs
  ∧ ∀ x, cs !! i = Some x →
         ∃ x1, cs1 !! i = Some x1 ∧ Env x1 = Env x
               ∧ length (HostPorts x1) = length (HostPorts x)
               ∧ ∀ j, ¬ (ci = i ∧ pi = j) → HostPorts x1 !! j = HostPorts x !! j.
Proof.
  intros Hc cs1. split; [apply length_insert|].
  intros x Hx. unfold cs1. destruct (decide (ci = i)) as [->|Hne].
  - assert (x = c) as -> by congruence.
    eexists. split; [apply list_lookup_insert_eq; by eapply lookup_lt_Some|].
    cbn. split; [done|]. split; [apply length_insert|].
    intros j Hj. apply list_lookup_insert_ne. intros ->. by apply Hj.
  - exists x. by rewrite list_lookup_insert_ne.
Qed.

Lemma setHostPorts_spec (ports : list PortMapping) : ∀ cs : list Container,
  (Forall (λ e, ∃ c, cs !! ContainerIdx e = Some c
                       ∧ PortIdx e < length (HostPorts c)) ports →
   is_Some (setHostPorts ports cs))
  ∧ ∀ cs', setHostPorts ports cs = Some cs' →
      Forall (λ e, ∃ c, cs !! ContainerIdx e = Some c
                        ∧ PortIdx e < length (HostPorts c)) ports
      ∧ length cs' = length cs
      ∧ ∀ i c, cs !! i = Some c →
          ∃ c', cs' !! i = Some c' ∧ Env c' = Env c
                ∧ length (HostPorts c') = length (HostPorts c)
                ∧ ∀ j, Forall (λ e, ¬ (ContainerIdx e = i ∧ PortIdx e = j)) ports →
                       HostPorts c' !! j = HostPorts c !! j.
Proof.
  induction ports as [|e rest IH]; intros cs.
  { split; [by eexists|]. intros cs' [= <-]. split; [done|]. split; [done|].
    intros i c Hc. by exists c. }
  cbn [setHostPorts]. split.
  - intros Hall. apply Forall_cons in Hall as [(c & Hc & Hlt) Hrest].
    rewrite Hc. rewrite decide_True by done. apply IH.
    eapply Forall_impl; [exact Hrest|]. intros x (cx & Hcx & Hx). cbn in *.
    destruct (setHostPorts_step_shape cs (ContainerIdx e) c (PortIdx e) (OfferPort e)
                (ContainerIdx x) Hc) as [_ Hshape].
    destruct (Hshape cx Hcx) as (x1 & Hx1 & _ & Hlen & _).
    exists x1. split; [exact Hx1|]. by rewrite Hlen.
  - intros cs' Hs. destruct (cs !! ContainerIdx e) as [c|] eqn:Hc; [|done].
    case_decide as Hlt; [|done].
    match type of Hs with
    | setHostPorts rest ?cs1 = _ => destruct (IH cs1) as [_ IH2]
    end.
    destruct (IH2 cs' Hs) as (Hrest & Hlen & Hkeep).
    split; [|split].
    + apply Forall_cons. split; [by exists c|].
      eapply Forall_impl; [exact Hrest|]. intros x (cx & Hcx & Hx). cbn in *.
      destruct (decide (ContainerIdx e = ContainerIdx x)) as [Heq|Hne].
      * rewrite <- Heq in *. exists c. split; [done|].
        rewrite list_lookup_insert_eq in Hcx by (by eapply lookup_lt_Some).
        injection Hcx as <-. cbn in Hx. by rewrite length_insert in Hx.
      * exists cx. split; [|done]. by rewrite list_lookup_insert_ne in Hcx.
    + by rewrite Hlen, length_insert.
    + intros i x Hx.
      destruct (setHostPorts_step_shape cs (ContainerIdx e) c (PortIdx e) (OfferPort e)
                  i Hc) as [_ Hshape].
      destruct (Hshape x Hx) as (x1 & Hx1 & Henv1 & Hlen1 & Hport1).
      destruct (Hkeep i x1 Hx1) as (c' & Hc' & Henv & Hlen' & Hport).
      exists c'. split; [done|]. split; [congruence|]. split; [congruence|].
      intros j Hj. apply Forall_cons in Hj as [Hje Hjrest].
      rewrite (Hport j Hjrest). by apply Hport1.
Qed.
End ports_facts.

(** X19.  The host ports that Bind writes into the containers.  The loop
    over the port mappings of a task finishes exactly when every mapping
    names a container and a port that exist (it panics otherwise).  When it
    finishes, the containers are as many as before, each with its
    environment and its number of ports, and every port that no mapping
    names keeps its host port. *)
Theorem X19_setHostPorts_in_range (ports : list podtask.PortMapping)
    (cs : list scheduler.Container) :
  (is_Some (scheduler.setHostPorts ports cs)
   ↔ Forall (λ e, ∃ c, cs !! podtask.ContainerIdx e = Some c
                       ∧ podtask.PortIdx e < length (scheduler.HostPorts c)) ports)
  ∧ ∀ cs', scheduler.setHostPorts ports cs = Some cs' →
      length cs' = length cs
      ∧ ∀ i c, cs !! i = Some c →
          ∃ c', cs' !! i = Some c'
                ∧ scheduler.Env c' = scheduler.Env c
                ∧ length (scheduler.HostPorts c') = length (scheduler.HostPorts c)
                ∧ ∀ j, Forall (λ e, ¬ (podtask.ContainerIdx e = i
                                       ∧ podtask.PortIdx e = j)) ports →
                       scheduler.HostPorts c' !! j = scheduler.HostPorts c !! j.
Proof.
  destruct (setHostPorts_spec ports cs) as [Hsome Hspec]. split.
  - split; [|exact Hsome]. intros [cs' Hs]. by destruct (Hspec cs' Hs).
  - intros cs' Hs. by destruct (Hspec cs' Hs) as (_ & ? & ?).
Qed.

(** X20.  A pod update beats the error handler.  When the queuer has
    queued the latest state of an unscheduled pod, it is in the queue with
    the time of queuing as its deadline, whatever was queued for it
    before; and the error handler, whatever error it is given for that
    pod, leaves the queue as it is: its requeue does not overwrite the
    entry.  The uid of a queue entry must be that of its pod. *)
Theorem X20_update_survives_error_handler `{scheduler.Collaborators}
    (now now' : Z) (qp : scheduler.QueuedPod) (pod : podtask.Pod) (e : error)
    (k : scheduler.KubernetesScheduler) :
  podtask.Host (scheduler.qp_Pod qp) = "" →
  (∀ x, scheduler.qp_Pod x = pod →
        scheduler.QueuedPod_GetUID x = scheduler.QueuedPod_GetUID qp) →
  (∀ x, scheduler.qp_Pod x = scheduler.qp_Pod qp →
        scheduler.QueuedPod_GetUID x = scheduler.QueuedPod_GetUID qp) →
  let k1 := scheduler.enqueue now qp k in
  scheduler.podQueue k1 !! scheduler.QueuedPod_GetUID qp
  = Some {| scheduler.qp_Pod := scheduler.qp_Pod qp;
            scheduler.qp_deadline := Some now;
            scheduler.qp_delay := scheduler.qp_delay qp;
            scheduler.qp_notify := scheduler.qp_notify qp |}
  ∧ scheduler.podQueue (scheduler.handleSchedulingError now' pod e k1)
    = scheduler.podQueue k1.
Proof.
  intros Hhost Hpod Hself k1.
  assert (scheduler.podQueue k1 !! scheduler.QueuedPod_GetUID qp
          = Some {| scheduler.qp_Pod := scheduler.qp_Pod qp;
                    scheduler.qp_deadline := Some now;
                    scheduler.qp_delay := scheduler.qp_delay qp;
                    scheduler.qp_notify := scheduler.qp_notify qp |}) as Hin.
  { unfold k1, scheduler.enqueue. rewrite Hhost.
    rewrite bool_decide_eq_false_2 by (by intros ?).
    cbn. unfold queue.Offer.
    rewrite (Hself {| scheduler.qp_Pod := scheduler.qp_Pod qp;
                      scheduler.qp_deadline := Some now;
                      scheduler.qp_delay := scheduler.qp_delay qp;
                      scheduler.qp_notify := scheduler.qp_notify qp |} eq_refl).
    destruct (scheduler.podQueue k !! _); cbn; apply lookup_insert_eq. }
  split; [exact Hin|].
  assert (∀ k2 x, scheduler.podQueue k2 = scheduler.podQueue k1 →
                  scheduler.qp_Pod x = pod →
                  scheduler.podQueue (scheduler.requeue x k2) = scheduler.podQueue k1)
    as Hrequeue.
  { intros k2 x Hq Hx. unfold scheduler.requeue, queue.Add, queue.Offer. cbn.
    rewrite (Hpod x Hx), Hq, Hin. done. }
  unfold scheduler.handleSchedulingError.
  case_decide; [done|].
  destruct (scheduler.MakePodKey _ _) as [?|key]; [done|].
  cbn zeta.
  set (kb := scheduler.with_backoff _ k1).
  destruct (scheduler.taskForPod kb key) as [taskId|]; [|done].
  destruct (scheduler.getTask kb taskId) as [[p task]|]; [|done].
  destruct (podtask.State task); try done.
  destruct (podtask.Has podtask.Launched task); [done|].
  case_decide.
  - destruct (offers.Listen _ _ _ _) as [ch reg].
    destruct (scheduler.getBackoff _ _ _) as [delay b]. by apply Hrequeue.
  - destruct (scheduler.getBackoff _ _ _) as [delay b]. by apply Hrequeue.
Qed.

Lemma X20_update_survives_error_handler_witness :
  let k1 := scheduler.enqueue (H := samples.schedulerCollaborators) 4 samples.queuedPod1
              samples.scheduled1 in
  scheduler.podQueue
    (scheduler.handleSchedulingError (H := samples.schedulerCollaborators) 5
       samples.pod1 noSuitableOffersErr k1)
  = scheduler.podQueue k1.
Proof.
  pose proof (X20_update_survives_error_handler (H := samples.schedulerCollaborators)
                4 5 samples.queuedPod1 samples.pod1 noSuitableOffersErr
                samples.scheduled1 eq_refl) as Hkeep.
  cbv zeta in Hkeep. cbv zeta. apply Hkeep.
  - intros x Hx. cbn. by rewrite Hx.
  - intros x Hx. cbn. by rewrite Hx.
Defined.

(** X21.  Reconciliation of a pod that the API server still knows only
    ever adds that pod to the queue.  It leaves tasks, offers and the
    driver alone, never replaces or removes a queue entry, and queues the
    pod only when the pod lost its host and no task is registered for it:
    a pod whose task is still registered is not queued again. *)
Theorem X21_reconcilePod_only_reoffers `{scheduler.Collaborators}
    (now : Z) (a : scheduler.answers) (IsNotFound : error → bool)
    (oldPod pod : podtask.Pod) (k : scheduler.KubernetesScheduler) :
  scheduler.pods_Get a (podtask.Namespace oldPod) (podtask.Name oldPod) = inr pod →
  ∃ k', scheduler.reconcilePod now a IsNotFound oldPod k = Returns k'
    ∧ scheduler.tasks k' = scheduler.tasks k
    ∧ scheduler.offerReg k' = scheduler.offerReg k
    ∧ scheduler.launched k' = scheduler.launched k
    ∧ scheduler.killed k' = scheduler.killed k
    ∧ (scheduler.podQueue k' = scheduler.podQueue k
       ∨ ∃ key entry,
           podtask.Host pod = "" ∧ podtask.Host oldPod ≠ ""
           ∧ scheduler.MakePodKey (podtask.Namespace oldPod) (podtask.Name pod) = inr key
           ∧ scheduler.taskForPod k key = None
           ∧ scheduler.qp_Pod entry = pod
           ∧ scheduler.qp_deadline entry = Some now
           ∧ scheduler.podQueue k !! scheduler.QueuedPod_GetUID entry = None
           ∧ scheduler.podQueue k'
             = <[scheduler.QueuedPod_GetUID entry := entry]> (scheduler.podQueue k)).
Proof.
  intros Hget. unfold scheduler.reconcilePod. rewrite Hget.
  case_bool_decide as Hdiff; [|exists k; by repeat split; try left].
  case_bool_decide as Hempty; [|exists k; by repeat split; try left].
  destruct (scheduler.MakePodKey _ _) as [?|key] eqn:Hkey;
    [exists k; by repeat split; try left|].
  destruct (scheduler.taskForPod k key) eqn:Htp; [exists k; by repeat split; try left|].
  eexists. split; [done|]. split; [done|]. split; [done|]. split; [done|].
  split; [done|].
  unfold scheduler.reoffer, queue.Offer. cbn.
  set (entry := {| scheduler.qp_Pod := pod; scheduler.qp_deadline := Some now;
                   scheduler.qp_delay := None; scheduler.qp_notify := None |}).
  destruct (scheduler.podQueue k !! scheduler.QueuedPod_GetUID entry) eqn:Hq;
    [by left|].
  right. exists key, entry. repeat split; try done. congruence.
Qed.

Lemma X21_reconcilePod_only_reoffers_witness :
  ∃ k', scheduler.reconcilePod (H := samples.schedulerCollaborators) 4 samples.answersOk
          (λ _, false) (podtask.with_Host "h1" samples.pod1) samples.launched1
        = Returns k'
        ∧ scheduler.tasks k' = scheduler.tasks samples.launched1
        ∧ scheduler.launched k' = scheduler.launched samples.launched1.
Proof.
  destruct (X21_reconcilePod_only_reoffers (H := samples.schedulerCollaborators) 4
              samples.answersOk (λ _, false) (podtask.with_Host "h1" samples.pod1)
              samples.pod1 samples.launched1 eq_refl)
    as (k' & Hr & Ht & _ & Hl & _).
  exists k'. split; [exact Hr|]. split; [exact Ht|exact Hl].
Defined.

Section executor_more_facts.
Import executor.
Context `{Collaborators}.
Implicit Types k : KubernetesExecutor.

Lemma LaunchTask_fresh k taskInfo pod :
  done k = false → state k = connectedState →
  yaml_Unmarshal (Data taskInfo) = Some pod →
  tasks k !! TaskId taskInfo = None →
  LaunchTask taskInfo k
  = go (go_launchTask (TaskId taskInfo) pod)
       (with_tasks <[TaskId taskInfo := {| mesosTaskInfo := taskInfo; podName := "" |}]> k).
Proof.
  intros Hd Hs Hy Ht. unfold LaunchTask, isDone, isConnected, getState.
  by rewrite Hd, Hs, Hy, Ht.
Qed.

Lemma removePodTask_gone k tid reason st :
  tasks (removePodTask tid reason st k) !! tid = None.
Proof.
  unfold removePodTask. destruct (tasks k !! tid) as [task|] eqn:Ht; [|done].
  assert (∀ k2 status, tasks (sendStatus status k2) = tasks k2) as Hsend
    by (intros k2 status; unfold sendStatus; by destruct (done k2)).
  rewrite Hsend. cbn. destruct (pods k !! podName task); cbn; apply lookup_delete_eq.
Qed.

Lemma removePodTask_unknown k tid reason st :
  tasks k !! tid = None → removePodTask tid reason st k = k.
Proof. intros Ht. unfold removePodTask. by rewrite Ht. Qed.

(** The three ways a run of [_launchTask] ends. *)
Lemma _launchTask_cases start polls tid pfn k :
  _launchTask start polls tid pfn k = None
  ∨ _launchTask start polls tid pfn k = Some (reportLostTask tid LaunchTaskFailed k)
  ∨ ∃ data task,
      tasks k !! tid = Some task
      ∧ _launchTask start polls tid pfn k
        = Some (go (go___launchTask tid pfn)
                  (sendStatus {| ts_TaskId := tid; ts_State := TASK_RUNNING;
                                 ts_Message := Text ("pod-running:" +:+ pfn);
                                 ts_Data := Some data |} k)).
Proof.
  unfold _launchTask. destruct (waitForRunningPod _ _ _ _ _) as [| |data].
  - by left.
  - right. by left.
  - destruct (tasks k !! tid) as [task|] eqn:Ht.
    + right. right. by exists data, task.
    + right. by left.
Qed.

(** The wait ends once its rounds take longer than up to [expiredAt]. *)
Lemma waitForRunningPod_ends expiredAt t polls tid k :
  Forall (λ q, (0 ≤ took q)%Z) polls → polls ≠ [] →
  (expiredAt < t + Z.of_nat (length polls) * containerPollTime)%Z →
  waitForRunningPod expiredAt t polls tid k ≠ StillWaiting.
Proof.
  revert t. induction polls as [|q rest IH]; intros t Hpos Hne Hlen; [done|].
  apply Forall_cons in Hpos as [Hq Hrest]. cbn [waitForRunningPod]. cbn zeta.
  destruct (expiredClosed expiredAt (t + containerPollTime) q) eqn:Hwoke; [done|].
  assert (t + containerPollTime ≤ expiredAt)%Z as Hlate.
  { unfold expiredClosed in Hwoke. apply orb_false_iff in Hwoke as [Hlt _].
    by apply Z.ltb_ge in Hlt. }
  assert (rest ≠ []) as Hne'.
  { intros ->. cbn in Hlen. unfold containerPollTime in *. lia. }
  assert (waitForRunningPod expiredAt (t + containerPollTime + took q) rest tid k
          ≠ StillWaiting) as Hrec.
  { apply IH; [done..|]. cbn [length] in Hlen. unfold containerPollTime in *. lia. }
  destruct (pidInfo q) as [running|]; [|done].
  destruct (expiredClosed expiredAt (t + containerPollTime + took q) q); [done|].
  destruct (tasks k !! tid); [|done].
  destruct running; cbn; [|done]. by destruct (marshalled q).
Qed.

(** The wait reports a running pod only on a poll that saw it running. *)
Lemma waitForRunningPod_running expiredAt t polls tid k data :
  waitForRunningPod expiredAt t polls tid k = PodRunning data →
  ∃ q, q ∈ polls ∧ pidInfo q = Some true ∧ marshalled q = Some data.
Proof.
  revert t. induction polls as [|q rest IH]; intros t; [done|].
  cbn [waitForRunningPod]. cbn zeta.
  assert (∀ t', waitForRunningPod expiredAt t' rest tid k = PodRunning data →
                ∃ q', q' ∈ q :: rest ∧ pidInfo q' = Some true
                      ∧ marshalled q' = Some data) as Hrec.
  { intros t' Hw. destruct (IH t' Hw) as (q' & Hin & Hq'). exists q'.
    split; [apply elem_of_cons; by right|done]. }
  destruct (expiredClosed expiredAt (t + containerPollTime) q); [done|].
  destruct (pidInfo q) as [running|] eqn:Hp; [|apply Hrec].
  destruct (expiredClosed expiredAt (t + containerPollTime + took q) q); [done|].
  destruct (tasks k !! tid); [|done].
  destruct running; cbn; [|apply Hrec].
  destruct (marshalled q) as [d|] eqn:Hm; [|apply Hrec].
  intros [= <-]. exists q. split; [apply elem_of_cons; by left|done].
Qed.

(** A step of an executor that has shut down. *)
Lemma handle_done k ev :
  done k = true → tasks k = ∅ →
  ∃ k', handle ev k = Returns k'
    ∧ done k' = true ∧ tasks k' = ∅ ∧ state k' = state k ∧ pods k' = pods k
    ∧ outgoing k' = outgoing k ∧ updateChan k' = updateChan k
    ∧ spawned k' = spawned k.
Proof.
  intros Hd Ht.
  destruct ev as [| | |ti|tid|m|c|postErr marshalled tid pod|start polls tid pfn|tid b];
    cbn;
    unfold Registered, Reregistered, Disconnected, LaunchTask, KillTask,
      FrameworkMessage, Shutdown, checkForLostPodTask, isDone;
    rewrite ?Hd; try (by exists k).
  - unfold launchTask. set (k1 := with_posted _ k).
    assert (∀ status, sendStatus status k1 = k1) as Hsend
      by (intros status; unfold sendStatus; cbn; by rewrite Hd).
    eexists. split; [done|].
    destruct postErr; [by rewrite Hsend|].
    destruct marshalled; [by rewrite Hsend|].
    cbn. rewrite Ht, lookup_empty. unfold reportLostTask, removePodTask.
    cbn. by rewrite Ht, lookup_empty.
  - destruct (_launchTask_cases start polls tid pfn k)
      as [->|[->|(data & task & Hk & _)]].
    + by exists k.
    + unfold reportLostTask. rewrite removePodTask_unknown
        by (by rewrite Ht, lookup_empty).
      by exists k.
    + by rewrite Ht, lookup_empty in Hk.
  - rewrite Ht, lookup_empty. by exists k.
Qed.

Lemma sendStatus_frame k status :
  pods (sendStatus status k) = pods k
  ∧ updateChan (sendStatus status k) = updateChan k
  ∧ done (sendStatus status k) = done k.
Proof. unfold sendStatus. by destruct (done k) eqn:Hd; cbn; rewrite ?Hd. Qed.

Lemma in_sync_sendStatus k status : in_sync k → in_sync (sendStatus status k).
Proof.
  unfold in_sync, lastUpdate. destruct (sendStatus_frame k status) as (-> & -> & _).
  done.
Qed.

Lemma in_sync_sendPods k : in_sync (sendPods k).
Proof. unfold in_sync, lastUpdate, sendPods. cbn. by rewrite last_snoc. Qed.

Lemma in_sync_removePodTask k tid reason st :
  in_sync k → in_sync (removePodTask tid reason st k).
Proof.
  intros Hs. unfold removePodTask. destruct (tasks k !! tid) as [task|]; [|done].
  apply in_sync_sendStatus. cbn. destruct (pods k !! podName task).
  - apply in_sync_sendPods.
  - exact Hs.
Qed.

(** One step keeps the kubelet in sync, unless it shuts the executor down;
    and no step reopens the channel [done]. *)
Lemma handle_in_sync k ev k' :
  handle ev k = Returns k' →
  (done k' = false → done k = false) ∧ (done k' = false → in_sync k → in_sync k').
Proof.
  assert (∀ k0 tid reason st, done (removePodTask tid reason st k0) = done k0) as Hrm.
  { intros k0 tid reason st. unfold removePodTask.
    destruct (tasks k0 !! tid) as [task|]; [|done].
    destruct (sendStatus_frame
                (match pods (with_tasks (delete tid) k0) !! podName task with
                 | Some _ => sendPods (with_pods (delete (podName task))
                                         (with_tasks (delete tid) k0))
                 | None => with_tasks (delete tid) k0
                 end) (newStatus tid st reason)) as (_ & _ & Hd).
    cbn zeta. rewrite Hd. by destruct (pods _ !! _). }
  assert (∀ k0 status,
            (done (sendStatus status k0) = false → done k0 = false)
            ∧ (done (sendStatus status k0) = false → in_sync k0
               → in_sync (sendStatus status k0))) as Hsend.
  { intros k0 status. destruct (sendStatus_frame k0 status) as (_ & _ & ->).
    split; [done|]. intros _. apply in_sync_sendStatus. }
  assert (∀ k0 tid reason st,
            (done (removePodTask tid reason st k0) = false → done k0 = false)
            ∧ (done (removePodTask tid reason st k0) = false → in_sync k0
               → in_sync (removePodTask tid reason st k0))) as Hremove.
  { intros k0 tid reason st. rewrite Hrm. split; [done|]. intros _.
    apply in_sync_removePodTask. }
  assert (∀ from to,
            (let '(swapped, k1) := swapState from to k in
             if negb swapped then Panics else Returns k1) = Returns k' →
            (done k' = false → done k = false)
            ∧ (done k' = false → in_sync k → in_sync k')) as Hswap.
  { intros from to. unfold swapState. case_decide; cbn; [|done]. by intros [= <-]. }
  destruct ev as [| | |ti|tid|m|c|postErr marshalled tid pod|start polls tid pfn|tid b];
    cbn.
  - unfold Registered. destruct (isDone k); [by intros [= <-]|]. apply Hswap.
  - unfold Reregistered. destruct (isDone k); [by intros [= <-]|]. apply Hswap.
  - unfold Disconnected. destruct (isDone k); [by intros [= <-]|]. apply Hswap.
  - intros [= <-]. unfold LaunchTask. destruct (isDone k); [done|].
    destruct (negb (isConnected k)); [apply Hsend|].
    destruct (yaml_Unmarshal (Data ti)); [|apply Hsend].
    by destruct (tasks k !! TaskId ti).
  - intros [= <-]. unfold KillTask, killPodForTask.
    destruct (isDone k); [done|]. destruct (negb (isConnected k)); [done|].
    apply Hremove.
  - intros [= <-]. unfold FrameworkMessage, reportLostTask.
    destruct (isDone k); [done|]. destruct (negb (isConnected k)); [done|].
    destruct (taskLostGuard m); [|done]. case_bool_decide; [|done].
    apply Hremove.
  - intros [= <-]. unfold Shutdown. destruct (isDone k); [done|].
    unfold swapState. cbn. rewrite decide_True by done. done.
  - intros [= <-]. unfold launchTask. set (k1 := with_posted _ k).
    assert (in_sync k → in_sync k1) as Hk1 by done.
    change (done k) with (done k1).
    destruct postErr.
    { destruct (Hsend k1 (newStatus tid TASK_FAILED CreateBindingFailure)) as [? Hs].
      split; [done|]. intros ??. by apply Hs, Hk1. }
    destruct marshalled.
    { destruct (Hsend k1 (newStatus tid TASK_FAILED (Text "json: error"))) as [? Hs].
      split; [done|]. intros ??. by apply Hs, Hk1. }
    destruct (tasks k1 !! tid).
    + cbn -[sendStatus sendPods].
      match goal with
      | |- context [sendStatus ?st ?kk] =>
          destruct (sendStatus_frame kk st) as (Hp & Hu & Hd);
          unfold go, in_sync, lastUpdate; cbn [done pods updateChan];
          rewrite Hp, Hu, Hd
      end.
      split; [done|]. intros _ _. cbn. by rewrite last_snoc.
    + unfold reportLostTask. destruct (Hremove k1 tid LaunchTaskFailed TASK_LOST) as [? Hs].
      split; [done|]. intros ??. by apply Hs, Hk1.
  - intros [= <-].
    destruct (_launchTask_cases start polls tid pfn k)
      as [->|[->|(data & task & _ & ->)]]; cbn [default].
    + done.
    + unfold reportLostTask. apply Hremove.
    + match goal with
      | |- context [sendStatus ?st k] => destruct (Hsend k st) as [Hd Hs]
      end.
      split; [exact Hd|]. intros Hd' Hk. exact (Hs Hd' Hk).
  - intros [= <-]. unfold checkForLostPodTask. destruct (tasks k !! tid); [|done].
    destruct b; [done|]. cbn. apply Hremove.
Qed.
End executor_more_facts.

(** X22.  Launching a task and then killing it leaves no trace in the
    tables.  For a connected executor, a LaunchTask for a new task id,
    its continuation with a successful POST, and a KillTask for the id
    bring the task table and the pod table back to what they were.  The
    kubelet is told the pod set with the pod and then the pod set without
    it, and the statuses sent are TASK_STARTING followed by TASK_KILLED.
    The full name of the pod must not be that of a pod already on record. *)
Theorem X22_launch_then_kill_round_trip `{executor.Collaborators}
    (taskInfo : executor.TaskInfo) (pod : executor.BoundPod) (data : string)
    (k : executor.KubernetesExecutor) :
  executor.done k = false →
  executor.state k = executor.connectedState →
  executor.yaml_Unmarshal (executor.Data taskInfo) = Some pod →
  executor.tasks k !! executor.TaskId taskInfo = None →
  executor.pods k !! executor.GetPodFullName (executor.Name pod)
                       (executor.Namespace pod) (executor.sourcename k) = None →
  let tid := executor.TaskId taskInfo in
  let pfn := executor.GetPodFullName (executor.Name pod) (executor.Namespace pod)
               (executor.sourcename k) in
  let k1 := executor.LaunchTask taskInfo k in
  let k2 := executor.launchTask None (inr data) tid pod k1 in
  let k3 := executor.KillTask tid k2 in
  executor.tasks k3 = executor.tasks k
  ∧ executor.pods k3 = executor.pods k
  ∧ executor.outgoing k3 = executor.outgoing k ++
      [{| executor.ts_TaskId := tid; executor.ts_State := executor.TASK_STARTING;
          executor.ts_Message := executor.CreateBindingSuccess;
          executor.ts_Data := Some data |};
       executor.newStatus tid executor.TASK_KILLED executor.TaskKilled]
  ∧ executor.updateChan k3 = executor.updateChan k ++
      [(map_to_list (<[pfn := pod]> (executor.pods k))).*2;
       (map_to_list (executor.pods k)).*2]
  ∧ executor.spawned k3 = executor.spawned k ++
      [executor.go_launchTask tid pod; executor.go__launchTask tid pfn].
Proof.
  intros Hd Hs Hy Ht Hp tid pfn k1 k2 k3.
  unfold k3, k2, k1. rewrite (LaunchTask_fresh k taskInfo pod Hd Hs Hy Ht).
  unfold executor.launchTask, executor.KillTask, executor.killPodForTask,
    executor.removePodTask, executor.sendStatus, executor.isDone,
    executor.isConnected, executor.getState.
  fold tid. cbn. fold tid pfn.
  repeat (progress (rewrite ?Hd, ?Hs, ?lookup_insert_eq; cbn)).
  rewrite bool_decide_eq_true_2 by done. cbn.
  repeat (progress (rewrite ?Hd, ?Hs, ?lookup_insert_eq; cbn)).
  rewrite ?insert_insert_eq, !delete_insert_id by done.
  rewrite <- !app_assoc. done.
Qed.

Lemma X22_launch_then_kill_round_trip_witness :
  let k := samples.anExecutor executor.connectedState in
  let k3 := executor.KillTask "t1"
              (executor.launchTask (H := samples.executorCollaborators) None
                 (inr "status") "t1" samples.aPod
                 (executor.LaunchTask (H := samples.executorCollaborators)
                    (samples.aTaskInfo "pod") k)) in
  executor.tasks k3 = ∅ ∧ executor.pods k3 = ∅
  ∧ executor.updateChan k3 = [[samples.aPod]; []].
Proof.
  pose proof (X22_launch_then_kill_round_trip (H := samples.executorCollaborators)
                (samples.aTaskInfo "pod") samples.aPod "status"
                (samples.anExecutor executor.connectedState)
                eq_refl eq_refl eq_refl eq_refl eq_refl) as Hround.
  cbv zeta in Hround. destruct Hround as (Ht & Hp & _ & Hu & _).
  cbv zeta. split; [exact Ht|]. split; [exact Hp|].
  etransitivity; [exact Hu|]. vm_compute. reflexivity.
Defined.

(** X23.  A binding that cannot be created leaves the task on record.
    When the POST of the continuation fails, TASK_FAILED is sent but the
    record that LaunchTask made stays in the task table, so a later
    LaunchTask for the same task id with well-formed data is ignored: it
    sends no status and starts no continuation. *)
Theorem X23_failed_binding_blocks_relaunch `{executor.Collaborators}
    (taskInfo : executor.TaskInfo) (pod : executor.BoundPod) (err : error)
    (marshalled : error + string) (k : executor.KubernetesExecutor) :
  executor.done k = false →
  executor.state k = executor.connectedState →
  executor.yaml_Unmarshal (executor.Data taskInfo) = Some pod →
  executor.tasks k !! executor.TaskId taskInfo = None →
  let tid := executor.TaskId taskInfo in
  let k1 := executor.LaunchTask taskInfo k in
  let k2 := executor.launchTask (Some err) marshalled tid pod k1 in
  executor.outgoing k2 = executor.outgoing k ++
    [executor.newStatus tid executor.TASK_FAILED executor.CreateBindingFailure]
  ∧ executor.tasks k2 !! tid
    = Some {| executor.mesosTaskInfo := taskInfo; executor.podName := "" |}
  ∧ executor.pods k2 = executor.pods k
  ∧ executor.updateChan k2 = executor.updateChan k
  ∧ ∀ again, executor.TaskId again = tid →
             is_Some (executor.yaml_Unmarshal (executor.Data again)) →
             executor.LaunchTask again k2 = k2.
Proof.
  intros Hd Hs Hy Ht tid k1 k2.
  unfold k2, k1. rewrite (LaunchTask_fresh k taskInfo pod Hd Hs Hy Ht).
  unfold executor.launchTask, executor.sendStatus. cbn. rewrite Hd.
  split; [done|]. fold tid. split; [cbn; apply lookup_insert_eq|].
  split; [done|]. split; [done|].
  intros again Hid [pod' Hy']. unfold executor.LaunchTask, executor.isDone,
    executor.isConnected, executor.getState. cbn.
  rewrite Hd, Hs, Hy', Hid. rewrite bool_decide_eq_true_2 by done. cbn.
  fold tid. by rewrite lookup_insert_eq.
Qed.

Lemma X23_failed_binding_blocks_relaunch_witness :
  let k2 := executor.launchTask (H := samples.executorCollaborators)
              (Some (foreignErr 1)) (inr "status") "t1" samples.aPod
              (executor.LaunchTask (H := samples.executorCollaborators)
                 (samples.aTaskInfo "pod")
                 (samples.anExecutor executor.connectedState)) in
  executor.outgoing k2
  = [executor.newStatus "t1" executor.TASK_FAILED executor.CreateBindingFailure]
  ∧ executor.LaunchTask (H := samples.executorCollaborators) (samples.aTaskInfo "pod") k2
    = k2.
Proof.
  pose proof (X23_failed_binding_blocks_relaunch (H := samples.executorCollaborators)
                (samples.aTaskInfo "pod") samples.aPod (foreignErr 1) (inr "status")
                (samples.anExecutor executor.connectedState)
                eq_refl eq_refl eq_refl eq_refl) as Hfail.
  cbv zeta in Hfail. destruct Hfail as (Ho & _ & _ & _ & Hagain).
  cbv zeta. split; [exact Ho|].
  apply Hagain; [reflexivity|]. eexists. vm_compute. reflexivity.
Defined.

(** X24.  A task that is killed before its launch continuation runs is
    never started.  KillTask removes the record and sends TASK_KILLED; the
    continuation then still POSTs the binding, finds no record and stops:
    it hands no pod to the kubelet and sends no status at all, not even the
    TASK_LOST that it means to report.  The tables end as they began.  No
    pod may be on record under the empty name. *)
Theorem X24_kill_before_continuation `{executor.Collaborators}
    (taskInfo : executor.TaskInfo) (pod : executor.BoundPod) (data : string)
    (k : executor.KubernetesExecutor) :
  executor.done k = false →
  executor.state k = executor.connectedState →
  executor.yaml_Unmarshal (executor.Data taskInfo) = Some pod →
  executor.tasks k !! executor.TaskId taskInfo = None →
  executor.pods k !! "" = None →
  let tid := executor.TaskId taskInfo in
  let k1 := executor.LaunchTask taskInfo k in
  let k2 := executor.KillTask tid k1 in
  let k3 := executor.launchTask None (inr data) tid pod k2 in
  executor.tasks k3 = executor.tasks k
  ∧ executor.pods k3 = executor.pods k
  ∧ executor.outgoing k3 = executor.outgoing k ++
      [executor.newStatus tid executor.TASK_KILLED executor.TaskKilled]
  ∧ executor.updateChan k3 = executor.updateChan k
  ∧ executor.posted k3 = executor.posted k ++
      [{| executor.b_Namespace := executor.Namespace pod;
          executor.b_Annotations := executor.Annotations pod;
          executor.PodID := executor.Name pod;
          executor.Host :=
            default "" (executor.Annotations pod !! executor.BindingHostKey) |}]
  ∧ executor.spawned k3 = executor.spawned k ++ [executor.go_launchTask tid pod].
Proof.
  intros Hd Hs Hy Ht Hp tid k1 k2 k3.
  unfold k3, k2, k1. rewrite (LaunchTask_fresh k taskInfo pod Hd Hs Hy Ht).
  unfold executor.launchTask, executor.KillTask, executor.killPodForTask,
    executor.reportLostTask, executor.removePodTask, executor.sendStatus,
    executor.isDone, executor.isConnected, executor.getState.
  fold tid. cbn. fold tid.
  repeat (progress (rewrite ?Hd, ?Hs, ?Hp, ?lookup_insert_eq, ?lookup_delete_eq; cbn)).
  rewrite bool_decide_eq_true_2 by done. cbn.
  repeat (progress (rewrite ?Hd, ?Hs, ?Hp, ?lookup_insert_eq, ?lookup_delete_eq; cbn)).
  rewrite ?delete_insert_id by done. done.
Qed.

Lemma X24_kill_before_continuation_witness :
  let k3 := executor.launchTask (H := samples.executorCollaborators) None
              (inr "status") "t1" samples.aPod
              (executor.KillTask "t1"
                 (executor.LaunchTask (H := samples.executorCollaborators)
                    (samples.aTaskInfo "pod")
                    (samples.anExecutor executor.connectedState))) in
  executor.outgoing k3
  = [executor.newStatus "t1" executor.TASK_KILLED executor.TaskKilled]
  ∧ executor.updateChan k3 = [].
Proof.
  pose proof (X24_kill_before_continuation (H := samples.executorCollaborators)
                (samples.aTaskInfo "pod") samples.aPod "status"
                (samples.anExecutor executor.connectedState)
                eq_refl eq_refl eq_refl eq_refl eq_refl) as Hkill.
  cbv zeta in Hkill. destruct Hkill as (_ & _ & Ho & Hu & _).
  cbv zeta. split; [exact Ho|exact Hu].
Defined.

(** X25.  After Shutdown nothing is sent any more.  Shutdown of a running
    executor empties the task table and tells the kubelet the empty pod
    set; whatever callbacks and steps of its goroutines follow (launch
    continuations, waits for a running pod, monitoring rounds), none of
    them panics, no status update is queued, the kubelet gets no other
    pod set, no goroutine is started and the task table stays empty. *)
Theorem X25_nothing_after_Shutdown `{executor.Collaborators}
    (containers : error + list string) (k : executor.KubernetesExecutor)
    (evs : list executor.event) :
  executor.done k = false →
  ∃ k', executor.handles evs (executor.Shutdown containers k).1 = Returns k'
    ∧ executor.done k' = true
    ∧ executor.state k' = executor.doneState
    ∧ executor.tasks k' = ∅
    ∧ executor.outgoing k' = executor.outgoing k
    ∧ executor.updateChan k' = executor.updateChan k ++ [[]]
    ∧ executor.spawned k' = executor.spawned k.
Proof.
  intros Hd.
  set (k0 := (executor.Shutdown containers k).1).
  assert (executor.done k0 = true ∧ executor.tasks k0 = ∅
          ∧ executor.state k0 = executor.doneState
          ∧ executor.outgoing k0 = executor.outgoing k
          ∧ executor.updateChan k0 = executor.updateChan k ++ [[]]
          ∧ executor.spawned k0 = executor.spawned k) as (Hd0 & Ht0 & Hs0 & <- & <- & <-).
  { unfold k0, executor.Shutdown, executor.isDone, executor.swapState. rewrite Hd.
    cbn. by rewrite decide_True. }
  rewrite <- Hs0. clearbody k0. clear Hd Hs0. revert k0 Hd0 Ht0.
  induction evs as [|ev evs IH]; intros k0 Hd0 Ht0; [by exists k0|].
  cbn. destruct (handle_done k0 ev Hd0 Ht0)
    as (k1 & -> & Hd1 & Ht1 & <- & _ & <- & <- & <-).
  by apply IH.
Qed.

Lemma X25_nothing_after_Shutdown_witness :
  ∃ k', executor.handles (H := samples.executorCollaborators)
          [executor.EvLaunchTask (samples.aTaskInfo "pod"); executor.EvRegistered;
           executor.Ev_launchTask 0 [samples.pollRunning] "t1" "pod.default.mesos";
           executor.EvKillTask "t1"]
          (executor.Shutdown (inr ["c1"])
             samples.afterLaunch).1
        = Returns k'
        ∧ executor.outgoing k' = executor.outgoing samples.afterLaunch
        ∧ executor.updateChan k' = [[samples.aPod]; []].
Proof.
  destruct (X25_nothing_after_Shutdown (H := samples.executorCollaborators)
              (inr ["c1"]) samples.afterLaunch
              [executor.EvLaunchTask (samples.aTaskInfo "pod"); executor.EvRegistered;
               executor.Ev_launchTask 0 [samples.pollRunning] "t1" "pod.default.mesos";
               executor.EvKillTask "t1"] eq_refl)
    as (k' & Hr & _ & _ & _ & Ho & Hu & _).
  exists k'. split; [exact Hr|]. split; [exact Ho|].
  etransitivity; [exact Hu|]. vm_compute. reflexivity.
Defined.

(** X26.  The kubelet is kept in sync with the pod table.  In every state
    that an executor reaches from New by callbacks and steps of its
    goroutines (launch continuations, waits for a running pod, monitoring
    rounds), and in which it has not been shut down, the pod set that the
    kubelet was last told is the content of the pod table (the empty set
    as long as it was told nothing). *)
Theorem X26_kubelet_in_sync `{executor.Collaborators}
    (ns : string) (evs : list executor.event) (k' : executor.KubernetesExecutor) :
  executor.handles evs (executor.New ns) = Returns k' →
  executor.done k' = false →
  executor.lastUpdate k' = (map_to_list (executor.pods k')).*2.
Proof.
  assert (∀ k, (executor.done k = false → executor.in_sync k) →
               executor.handles evs k = Returns k' →
               executor.done k' = false → executor.in_sync k') as Hgen.
  { induction evs as [|ev evs IH]; intros k Hk; cbn.
    - intros [= <-]. exact Hk.
    - destruct (executor.handle ev k) as [k1| |] eqn:Hev; [|done..].
      destruct (handle_in_sync k ev k1 Hev) as [Hmono Hkeep].
      apply IH. intros Hd1. apply Hkeep; [done|]. by apply Hk, Hmono. }
  apply Hgen. intros _. unfold executor.in_sync, executor.lastUpdate. cbn.
  by rewrite map_to_list_empty.
Qed.

Lemma X26_kubelet_in_sync_witness :
  executor.lastUpdate samples.afterLaunch = [samples.aPod].
Proof.
  etransitivity.
  - apply (X26_kubelet_in_sync (H := samples.executorCollaborators) "mesos"
             samples.launchEvents samples.afterLaunch).
    + vm_compute. reflexivity.
    + reflexivity.
  - vm_compute. reflexivity.
Defined.

(** X27.  A task gets one terminal status.  Once a task has been removed,
    with whatever status, a KillTask for it, a task-lost report, a
    monitoring step and a launch continuation that finds its POST accepted
    all leave the tables as they are and queue no further status. *)
Theorem X27_removed_task_stays_silent `{executor.Collaborators}
    (tid : string) (reason : executor.message) (st : executor.TaskState)
    (k : executor.KubernetesExecutor) :
  let k1 := executor.removePodTask tid reason st k in
  executor.KillTask tid k1 = k1
  ∧ (∀ r, executor.reportLostTask tid r k1 = k1)
  ∧ (∀ known, executor.checkForLostPodTask tid known k1 = (true, k1))
  ∧ (∀ data pod,
       let k2 := executor.launchTask None (inr data) tid pod k1 in
       executor.tasks k2 = executor.tasks k1 ∧ executor.pods k2 = executor.pods k1
       ∧ executor.outgoing k2 = executor.outgoing k1
       ∧ executor.updateChan k2 = executor.updateChan k1
       ∧ executor.spawned k2 = executor.spawned k1).
Proof.
  intros k1. pose proof (removePodTask_gone k tid reason st) as Hgone. fold k1 in Hgone.
  split; [|split; [|split]].
  - unfold executor.KillTask, executor.killPodForTask.
    destruct (executor.isDone k1); [done|].
    destruct (negb (executor.isConnected k1)); [done|].
    by apply removePodTask_unknown.
  - intros r. by apply removePodTask_unknown.
  - intros known. unfold executor.checkForLostPodTask. by rewrite Hgone.
  - intros data pod. unfold executor.launchTask. cbn. rewrite Hgone.
    unfold executor.reportLostTask. rewrite removePodTask_unknown by done. done.
Qed.

(** X28.  The wait for a running pod ends with the grace period.  Given
    more poll rounds than fit into launchGracePeriod, none of which takes
    negative time, _launchTask comes to an end.  It then either reports
    the task lost with the message LaunchTaskFailed (which does nothing
    for a task that is no longer on record), or some poll saw the pod
    running and its status marshalled, the task is on record, a
    TASK_RUNNING status with the message "pod-running:<full name>" and
    the marshalled data is handed over unless the executor is done, the
    monitor goroutine is started, and the tables are left as they are. *)
Theorem X28_wait_for_running_pod_ends
    (start : Z) (polls : list executor.poll) (tid pfn : string)
    (k : executor.KubernetesExecutor) :
  Forall (λ q, (0 ≤ executor.took q)%Z) polls →
  (executor.launchGracePeriod
   < Z.of_nat (length polls) * executor.containerPollTime)%Z →
  ∃ k', executor._launchTask start polls tid pfn k = Some k'
    ∧ (k' = executor.removePodTask tid executor.LaunchTaskFailed executor.TASK_LOST k
       ∨ ∃ data task q,
           q ∈ polls ∧ executor.pidInfo q = Some true
           ∧ executor.marshalled q = Some data
           ∧ executor.tasks k !! tid = Some task
           ∧ executor.tasks k' = executor.tasks k
           ∧ executor.pods k' = executor.pods k
           ∧ executor.updateChan k' = executor.updateChan k
           ∧ executor.spawned k'
             = executor.spawned k ++ [executor.go___launchTask tid pfn]
           ∧ executor.outgoing k'
             = if executor.done k then executor.outgoing k
               else executor.outgoing k ++
                      [{| executor.ts_TaskId := tid;
                          executor.ts_State := executor.TASK_RUNNING;
                          executor.ts_Message := executor.Text ("pod-running:" +:+ pfn);
                          executor.ts_Data := Some data |}]).
Proof.
  intros Hpos Hlen. unfold executor._launchTask.
  assert (polls ≠ []) as Hne.
  { intros ->. cbn in Hlen. unfold executor.launchGracePeriod in Hlen. lia. }
  pose proof (waitForRunningPod_ends (start + executor.launchGracePeriod) start
                polls tid k Hpos Hne ltac:(lia)) as Hends.
  destruct (executor.waitForRunningPod _ _ _ _ _) as [| |data] eqn:Hw; [done| |].
  - eexists. split; [done|]. by left.
  - destruct (executor.tasks k !! tid) as [task|] eqn:Ht.
    + eexists. split; [done|]. right.
      destruct (waitForRunningPod_running _ _ _ _ _ _ Hw) as (q & Hin & Hp & Hm).
      exists data, task, q. unfold executor.sendStatus.
      by destruct (executor.done k) eqn:Hd; cbn; rewrite ?Hd.
    + eexists. split; [done|]. by left.
Qed.

Lemma X28_wait_for_running_pod_ends_witness :
  executor._launchTask 0
    (replicate 1001 samples.pollPending) "t1" "pod.default.mesos" samples.afterLaunch
  = Some (executor.removePodTask "t1" executor.LaunchTaskFailed executor.TASK_LOST
            samples.afterLaunch).
Proof.
  destruct (X28_wait_for_running_pod_ends 0
              (replicate 1001 samples.pollPending) "t1" "pod.default.mesos"
              samples.afterLaunch)
    as (k' & Hr & [->|(data & task & q & Hin & Hp & _)]).
  - apply Forall_replicate. vm_compute. discriminate.
  - vm_compute. reflexivity.
  - exact Hr.
  - apply elem_of_replicate_inv in Hin. subst q. discriminate Hp.
Defined.
